(** * Claude-Code-To-API: a shallow embedding of the gateway's services

    The development follows the layout of the Python package:

    - [PyStr]          the string operations the services use;
    - [Json]           JSON values and [json.dumps(..., ensure_ascii=False)];
    - [ContentParser]  [services/claude_content_parser.py];
    - [ClaudeProcess]  the output reader and the task-board rendering of
                       [services/claude_service.py];
    - [ClaudeService]  the two process registries of the same file;
    - [StreamService]  [services/stream_service.py];
    - [Datetime]       the part of [datetime] the key service relies on;
    - [ApiKey]         [models/api_key.py] and [services/api_key_service.py];
    - [Sessions]       [models/session.py], [services/database.py] and
                       [services/session_manager.py];
    - [ApiKeyAdmin]    the statistics and the reset of the key service, and
                       [Config.is_valid_api_key] of [utils/config.py];
    - [SessionSweeps]  the listings of [models/session.py] and
                       [cleanup_all_sessions];
    - [Messages]       [models/message.py];
    - [SessionMessages] [add_message_to_session] of the session manager and
                       of the store;
    - [StreamShape]    the lines of a stream that get a chunk;
    - [ReaderLines]    the lines the output reader hands over;
    - [ProcessLookup]  the look-ups and counts of the process registries.

    The definitions come first; the properties follow, one module of facts
    per component.

    Python [str] values are represented by Rocq strings holding their UTF-8
    encoding.  Substring tests, concatenation and splitting on an ASCII
    character commute with that encoding, since UTF-8 is self-synchronising
    and every byte of a multi-byte sequence is at least 0x80.  The one
    exception is the output reader, whose subject is the decoding itself:
    there a [str] is the list of its code points. *)

From Stdlib Require Import ZArith Lia Bool List String Ascii.
From stdpp Require Import gmap strings list fin_maps pretty.

Open Scope string_scope.

(** ** Python string operations *)

Module PyStr.

(** The line feed, ['\n']. *)
Definition LF : ascii := "010"%char.

Definition nl : string := String LF "".

(** [kw in text]: [kw] occurs in [text] as a contiguous substring. *)
Fixpoint contains (kw text : string) : bool :=
  String.prefix kw text ||
  match text with
  | "" => false
  | String _ rest => contains kw rest
  end.

(** [str.lower()] on one character.  The ASCII capitals are mapped to their
    small letters.  Bytes of multi-byte sequences are unchanged: the CJK text
    and the emoji the services handle are uncased. *)
Definition lower_char (c : ascii) : ascii :=
  let n := N_of_ascii c in
  if ((65 <=? n) && (n <=? 90))%N then ascii_of_N (n + 32) else c.

Fixpoint lower (s : string) : string :=
  match s with
  | "" => ""
  | String c rest => String (lower_char c) (lower rest)
  end.

(** [str.isspace()] on one ASCII character: TAB, LF, VT, FF, CR, the four
    separators 0x1c-0x1f and the space. *)
Definition is_space (c : ascii) : bool :=
  let n := N_of_ascii c in
  (((9 <=? n) && (n <=? 13)) || ((28 <=? n) && (n <=? 32)))%N.

(** [not s.strip()]: nothing but white space in [s]. *)
Fixpoint blank (s : string) : bool :=
  match s with
  | "" => true
  | String c rest => is_space c && blank rest
  end.

(** [sep.join(parts)]. *)
Fixpoint join (sep : string) (parts : list string) : string :=
  match parts with
  | [] => ""
  | [p] => p
  | p :: rest => p ++ sep ++ join sep rest
  end.

(** [len(s)] counts code points: every byte except the continuation bytes
    10xxxxxx of a multi-byte sequence. *)
Definition is_continuation (c : ascii) : bool :=
  let n := N_of_ascii c in ((128 <=? n) && (n <? 192))%N.

Fixpoint len (s : string) : nat :=
  match s with
  | "" => 0
  | String c rest => (if is_continuation c then 0 else 1) + len rest
  end.

(** [s.count(c)] for one character; [len(s.split(c))] is one more. *)
Fixpoint count_char (c : ascii) (s : string) : nat :=
  match s with
  | "" => 0
  | String d rest => (if Ascii.eqb c d then 1 else 0) + count_char c rest
  end.

(** [any(p(x) for x in l)]. *)
Definition any {A} (p : A -> bool) (l : list A) : bool := existsb p l.

(** Truthiness of a string: [bool(s)]. *)
Definition truthy (s : string) : bool := negb (String.eqb s "").

End PyStr.

(** ** JSON values and [json.dumps] *)

Module Json.
Import PyStr.

(** The values the services build and serialise.  [JOpaque] stands for a
    Python object the encoder has no rule for: [json.dumps] raises
    [TypeError] on it.  A dict keeps its insertion order. *)
#[local] Unset Elimination Schemes.

Inductive json : Type :=
| JNull
| JBool (b : bool)
| JInt (z : Z)
| JStr (s : string)
| JList (items : list json)
| JDict (fields : list (string * json))
| JOpaque.

#[local] Set Elimination Schemes.

(** [d.get(key)] on the fields of a dict. *)
Fixpoint assoc (key : string) (fields : list (string * json)) : option json :=
  match fields with
  | [] => None
  | (k, v) :: rest => if String.eqb k key then Some v else assoc key rest
  end.

Definition hex_digit (n : N) : ascii :=
  match n with
  | 0 => "0" | 1 => "1" | 2 => "2" | 3 => "3" | 4 => "4" | 5 => "5"
  | 6 => "6" | 7 => "7" | 8 => "8" | 9 => "9" | 10 => "a" | 11 => "b"
  | 12 => "c" | 13 => "d" | 14 => "e" | _ => "f"
  end%char%N.

(** The double quote, character 34. *)
Definition DQ : ascii :=
  Ascii false true false false false true false false.

(** [ESCAPE_DCT] of the encoder: the short escapes, and ['\\u00XX'] for the
    other control characters.  With [ensure_ascii=False] nothing else is
    escaped. *)
Definition escape_char (c : ascii) : string :=
  let n := N_of_ascii c in
  if Ascii.eqb c "\"%char then "\\"
  else if Ascii.eqb c DQ then String "\"%char (String DQ "")
  else if (n =? 8)%N then "\b"
  else if (n =? 12)%N then "\f"
  else if (n =? 10)%N then "\n"
  else if (n =? 13)%N then "\r"
  else if (n =? 9)%N then "\t"
  else if (n <? 32)%N then
    "\u00" ++ String (hex_digit (n / 16)) (String (hex_digit (n mod 16)) "")
  else String c "".

Fixpoint escape (s : string) : string :=
  match s with
  | "" => ""
  | String c rest => escape_char c ++ escape rest
  end.

Definition dquote : string := String DQ "".

Definition quote (s : string) : string := dquote ++ escape s ++ dquote.

(** [json.dumps(v, ensure_ascii=False)] with the default separators;
    [None] when the encoder raises. *)
Fixpoint dumps (v : json) : option string :=
  match v with
  | JNull => Some "null"
  | JBool true => Some "true"
  | JBool false => Some "false"
  | JInt z => Some (pretty z)
  | JStr s => Some (quote s)
  | JList items =>
      let fix go (l : list json) : option (list string) :=
        match l with
        | [] => Some []
        | x :: rest =>
            match dumps x with
            | Some s => match go rest with
                        | Some t => Some (s :: t)
                        | None => None
                        end
            | None => None
            end
        end in
      match go items with
      | Some parts => Some ("[" ++ join ", " parts ++ "]")
      | None => None
      end
  | JDict fields =>
      let fix go (l : list (string * json)) : option (list string) :=
        match l with
        | [] => Some []
        | (k, x) :: rest =>
            match dumps x with
            | Some s => match go rest with
                        | Some t => Some ((quote k ++ ": " ++ s) :: t)
                        | None => None
                        end
            | None => None
            end
        end in
      match go fields with
      | Some parts => Some ("{" ++ join ", " parts ++ "}")
      | None => None
      end
  | JOpaque => None
  end.

(** An optional string as a JSON value: [None] is [null]. *)
Definition of_option (o : option string) : json :=
  match o with Some s => JStr s | None => JNull end.

End Json.

(** ** services/claude_content_parser.py *)

Module ContentParser.
Import PyStr Json.

Inductive ContentType : Set :=
| SYSTEM_INIT | THINKING | PLANNING | TOOL_USE | TOOL_RESULT | EXECUTION
| ANALYSIS | SUMMARY | ERROR_HANDLING | STATUS_UPDATE | REGULAR_TEXT.

Record ParsedContent : Type := {
  content_type : ContentType;
  content : string;
  metadata : list (string * json);
  tool_info : option (list (string * json));
  session_id : option string
}.

(** The keyword tables of [ClaudeContentParser.__init__], verbatim. *)
Definition thinking_keywords : list string :=
  [ "我将"; "让我"; "我需要"; "我的思路"; "我认为"; "分析"; "考虑";
    "策略"; "方法"; "approach"; "strategy"; "thinking"; "consider" ].

Definition planning_keywords : list string :=
  [ "规划"; "计划"; "步骤"; "任务"; "框架"; "plan"; "step"; "task";
    "framework"; "structure"; "organize"; "TodoWrite" ].

Definition execution_keywords : list string :=
  [ "执行"; "开始"; "现在"; "接下来"; "execute"; "start"; "begin";
    "proceed"; "WebSearch"; "WebFetch"; "搜索"; "查找" ].

Definition analysis_keywords : list string :=
  [ "分析"; "研究"; "发现"; "结果"; "数据"; "趋势"; "analyze";
    "research"; "findings"; "results"; "data"; "trends" ].

Definition error_keywords : list string :=
  [ "错误"; "失败"; "问题"; "限制"; "无法"; "error"; "failed";
    "problem"; "unable"; "limitation"; "API Error" ].

(** [any(keyword in text_lower for keyword in kws)]. *)
Definition matches (kws : list string) (text_lower : string) : bool :=
  any (fun keyword => contains keyword text_lower) kws.

Definition _classify_text_content (text : string) : ContentType :=
  let text_lower := lower text in
  if matches error_keywords text_lower then ERROR_HANDLING
  else if matches planning_keywords text_lower then PLANNING
  else if matches thinking_keywords text_lower then THINKING
  else if matches execution_keywords text_lower then EXECUTION
  else if matches analysis_keywords text_lower then ANALYSIS
  else REGULAR_TEXT.

Definition parse_text_content (text : string) : ParsedContent :=
  if negb (truthy text) || blank text then
    {| content_type := REGULAR_TEXT; content := text; metadata := [];
       tool_info := None; session_id := None |}
  else
    {| content_type := _classify_text_content text;
       content := text;
       metadata :=
         [ ("text_length", JInt (Z.of_nat (len text)));
           ("line_count", JInt (Z.of_nat (S (count_char LF text))));
           ("classification_method", JStr "text_analysis") ];
       tool_info := None; session_id := None |}.

(** One entry of the [todos] list of a TodoWrite call.  A field is [None]
    when the key is absent from the item; the values are strings, as the
    backend's TodoWrite schema has them. *)
Record todo : Set := Todo {
  status : option string;
  todo_content : option string;
  activeForm : option string
}.

Definition str_field (key : string) (item : json) : option string :=
  match item with
  | JDict fields =>
      match assoc key fields with Some (JStr s) => Some s | _ => None end
  | _ => None
  end.

Definition todo_of (item : json) : todo :=
  {| status := str_field "status" item;
     todo_content := str_field "content" item;
     activeForm := str_field "activeForm" item |}.

(** [tool_input.get("todos", [])]. *)
Definition todos_of (tool_input : json) : list todo :=
  match tool_input with
  | JDict fields =>
      match assoc "todos" fields with
      | Some (JList items) => map todo_of items
      | _ => []
      end
  | _ => []
  end.

(** [d.get(key, default)] on an optional field. *)
Definition get (field : option string) (default : string) : string :=
  match field with Some v => v | None => default end.

(** The literal dict of status emoji with its [.get(status, "📝")]. *)
Definition status_emoji (st : string) : string :=
  if String.eqb st "pending" then "⏳"
  else if String.eqb st "in_progress" then "🔄"
  else if String.eqb st "completed" then "✅"
  else "📝".

Definition _format_todo_content (tool_input : json) : string :=
  let todos := todos_of tool_input in
  match todos with
  | [] => "创建任务列表"
  | _ =>
      let formatted_todos :=
        map (fun t =>
               let st := get (status t) "pending" in
               let c := get (todo_content t) "" in
               status_emoji st ++ " " ++ c) todos in
      "任务规划:" ++ nl ++ join nl formatted_todos
  end.

(** The non-blank [activeForm] values, in order. *)
Definition extract_active_forms (tool_input : json) : list string :=
  flat_map (fun t =>
              let active_form := get (activeForm t) "" in
              if truthy active_form && negb (blank active_form)
              then [active_form] else []) (todos_of tool_input).

(** One item of [message.content] of an assistant event. *)
Inductive content_item : Type :=
| TextItem (text : option string)
| ToolUseItem (id : option string) (name : option string) (input : option json)
| OtherItem.

Record assistant_message : Type := {
  message_id : option string;
  message_model : option string;
  message_usage : option json;
  message_content : list content_item
}.

(** The first text or tool_use item decides; [None] when there is none. *)
Fixpoint first_item (msg : assistant_message) (sid : option string)
    (items : list content_item) : option ParsedContent :=
  match items with
  | [] => None
  | TextItem text :: _ =>
      let text_content := get text "" in
      Some {| content_type := _classify_text_content text_content;
              content := text_content;
              metadata :=
                [ ("message_id", of_option (message_id msg));
                  ("model", of_option (message_model msg));
                  ("usage", match message_usage msg with
                            | Some u => u | None => JDict [] end) ];
              tool_info := None; session_id := sid |}
  | ToolUseItem id name input :: _ =>
      let tool_name := get name "" in
      let tool_input := match input with Some i => i | None => JDict [] end in
      let info := Some [ ("tool_id", of_option id);
                         ("tool_name", JStr tool_name);
                         ("tool_input", tool_input) ] in
      if String.eqb tool_name "TodoWrite" then
        Some {| content_type := PLANNING;
                content := _format_todo_content tool_input;
                metadata :=
                  [ ("message_id", of_option (message_id msg));
                    ("model", of_option (message_model msg));
                    ("active_forms",
                     JList (map JStr (extract_active_forms tool_input))) ];
                tool_info := info; session_id := sid |}
      else
        Some {| content_type := TOOL_USE;
                content := "使用工具: " ++ tool_name;
                metadata :=
                  [ ("message_id", of_option (message_id msg));
                    ("model", of_option (message_model msg)) ];
                tool_info := info; session_id := sid |}
  | OtherItem :: rest => first_item msg sid rest
  end.

Definition _parse_assistant_content (msg : assistant_message)
    (sid : option string) : option ParsedContent :=
  first_item msg sid (message_content msg).

End ContentParser.

(** ** services/claude_service.py: one backend process *)

Module ClaudeProcess.
Import PyStr Json.
Import ContentParser.

Definition fence : string := "```".

(** [sum(1 for todo in todos if todo.get("status") == st)]: an item
    without a status counts for none. *)
Definition count_status (st : string) (todos : list todo) : nat :=
  length (filter (fun t => status t = Some st) todos).

(** [active_form if active_form and active_form.strip() else content]. *)
Definition display_content (t : todo) : string :=
  let active_form := get (activeForm t) "" in
  if truthy active_form && negb (blank active_form)
  then active_form else get (todo_content t) "".

Definition _format_todo_write_display (tool_input : json) : string :=
  let todos := todos_of tool_input in
  match todos with
  | [] => fence ++ nl ++ "📋 创建空任务列表" ++ nl ++ fence
  | _ =>
      let in_progress_count := count_status "in_progress" todos in
      let completed_count := count_status "completed" todos in
      let action :=
        if (0 <? in_progress_count)%nat then "更新任务列表"
        else if (completed_count =? length todos)%nat then "完成任务列表"
        else "创建任务列表" in
      let result :=
        fence ++ nl ++ "📋 " ++ action
        ++ " (共 " ++ pretty (length todos) ++ " 项任务" in
      let result :=
        if (0 <? completed_count)%nat
        then result ++ "，已完成 " ++ pretty completed_count ++ " 项"
        else result in
      let result :=
        if (0 <? in_progress_count)%nat
        then result ++ "，进行中 " ++ pretty in_progress_count ++ " 项"
        else result in
      let result := result ++ ")" ++ nl in
      let result :=
        fold_left
          (fun acc t =>
             acc ++ "  " ++ status_emoji (get (status t) "pending")
                 ++ " " ++ display_content t ++ nl)
          todos result in
      result ++ fence
  end.

(** *** The output reader of [send_message]

    Bytes are integers 0..255 and a [str] is the list of its code points. *)

Open Scope Z_scope.
Open Scope list_scope.

(** A continuation byte 10xxxxxx. *)
Definition cont (b : Z) : bool := (0x80 <=? b) && (b <=? 0xBF).

(** Range of the second byte of a three-byte sequence: E0 excludes the
    overlong forms and ED the surrogates. *)
Definition second3 (b0 b1 : Z) : bool :=
  if b0 =? 0xE0 then (0xA0 <=? b1) && (b1 <=? 0xBF)
  else if b0 =? 0xED then (0x80 <=? b1) && (b1 <=? 0x9F)
  else cont b1.

(** Range of the second byte of a four-byte sequence: F0 excludes the
    overlong forms and F4 the values above U+10FFFF. *)
Definition second4 (b0 b1 : Z) : bool :=
  if b0 =? 0xF0 then (0x90 <=? b1) && (b1 <=? 0xBF)
  else if b0 =? 0xF4 then (0x80 <=? b1) && (b1 <=? 0x8F)
  else cont b1.

(** [bs.decode('utf-8')]: the strict decoder, which accepts exactly the
    well-formed byte sequences; [None] is [UnicodeDecodeError]. *)
Fixpoint utf8_decode (bs : list Z) : option (list Z) :=
  match bs with
  | [] => Some []
  | b0 :: r0 =>
      if (0 <=? b0) && (b0 <? 0x80) then
        cons b0 <$> utf8_decode r0
      else if (0xC2 <=? b0) && (b0 <=? 0xDF) then
        match r0 with
        | b1 :: r1 =>
            if cont b1
            then cons ((b0 - 0xC0) * 64 + (b1 - 0x80)) <$> utf8_decode r1
            else None
        | _ => None
        end
      else if (0xE0 <=? b0) && (b0 <=? 0xEF) then
        match r0 with
        | b1 :: b2 :: r2 =>
            if second3 b0 b1 && cont b2
            then cons ((b0 - 0xE0) * 4096 + (b1 - 0x80) * 64 + (b2 - 0x80))
                   <$> utf8_decode r2
            else None
        | _ => None
        end
      else if (0xF0 <=? b0) && (b0 <=? 0xF4) then
        match r0 with
        | b1 :: b2 :: b3 :: r3 =>
            if second4 b0 b1 && cont b2 && cont b3
            then cons ((b0 - 0xF0) * 262144 + (b1 - 0x80) * 4096
                       + (b2 - 0x80) * 64 + (b3 - 0x80))
                   <$> utf8_decode r3
            else None
        | _ => None
        end
      else None
  end.

(** A Unicode scalar value: a code point that is not a surrogate. *)
Definition scalar (c : Z) : Prop :=
  0 <= c < 0x110000 /\ ~ (0xD800 <= c <= 0xDFFF).

(** The UTF-8 encoding of one code point, as the backend writes it. *)
Definition utf8_encode_char (c : Z) : list Z :=
  if c <? 0x80 then [c]
  else if c <? 0x800 then [0xC0 + c / 64; 0x80 + c mod 64]
  else if c <? 0x10000 then
    [0xE0 + c / 4096; 0x80 + (c / 64) mod 64; 0x80 + c mod 64]
  else
    [0xF0 + c / 262144; 0x80 + (c / 4096) mod 64;
     0x80 + (c / 64) mod 64; 0x80 + c mod 64].

Definition utf8_encode (text : list Z) : list Z :=
  flat_map utf8_encode_char text.

(** The state of the reading loop.  [lines] collects, oldest first, every
    complete line the loop has cut off [line_buffer]; [raised] tells that
    handling the last of them has raised, which ends the loop. *)
Record reader : Type := {
  line_buffer : list Z;
  byte_buffer : list Z;
  lines : list (list Z);
  raised : bool
}.

Definition reader_init : reader :=
  {| line_buffer := []; byte_buffer := []; lines := []; raised := false |}.

(** [while '\n' in line_buffer: line, line_buffer = line_buffer.split('\n', 1)]:
    the complete lines of [text], and what is left after the last ['\n']. *)
Fixpoint split_lines (text : list Z) : list (list Z) * list Z :=
  match text with
  | [] => ([], [])
  | c :: rest =>
      let '(ls, remainder) := split_lines rest in
      if c =? 10 then ([] :: ls, remainder)
      else match ls with
           | [] => ([], c :: remainder)
           | l :: ls' => ((c :: l) :: ls', remainder)
           end
  end.

Section Reader.

(** What the loop does with a line it has cut off: the blank test, the
    log, [json.loads] and the handling of the value.  A [JSONDecodeError]
    is caught there and the line skipped.  Any other exception leaves the
    loop through [except Exception], which logs and raises again: an
    [AttributeError] from [json_data.get] when the line is valid JSON and
    not an object, for one.  [stage_raises line] tells whether handling
    [line] raises in that way. *)
Variable stage_raises : list Z -> bool.

(** Lines none of which makes the handling raise. *)
Definition quiet (ls : list (list Z)) : Prop :=
  Forall (fun l => stage_raises l = false) ls.

(** The lines cut off are handled in turn.  When one raises, the lines
    after it have not been cut off: they are still in the line buffer. *)
Fixpoint hand_over (ls : list (list Z)) (remainder : list Z)
  : list (list Z) * list Z * bool :=
  match ls with
  | [] => ([], remainder, false)
  | line :: rest =>
      if stage_raises line
      then ([line], flat_map (fun l => l ++ [10]) rest ++ remainder, true)
      else
        let '(handed, kept, r) := hand_over rest remainder in
        (line :: handed, kept, r)
  end.

(** The body of the [try] once the byte buffer has decoded: the text goes
    to the line buffer, the byte buffer is emptied and the complete lines
    are cut off and handled. *)
Definition deliver (st : reader) (decoded_text : list Z) : reader :=
  let '(ls, remainder) := split_lines (line_buffer st ++ decoded_text) in
  let '(handed, kept, r) := hand_over ls remainder in
  {| line_buffer := kept; byte_buffer := []; lines := lines st ++ handed;
     raised := r |}.

(** One turn of the loop for one byte read.  Once the loop has been left
    nothing is read any more. *)
Definition feed (st : reader) (chunk : Z) : reader :=
  if raised st then st
  else
    let bb := byte_buffer st ++ [chunk] in
    match utf8_decode bb with
    | Some decoded_text => deliver st decoded_text
    | None =>
        if (4 <? length bb)%nat
        then {| line_buffer := line_buffer st; byte_buffer := [];
                lines := lines st; raised := false |}
        else {| line_buffer := line_buffer st; byte_buffer := bb;
                lines := lines st; raised := false |}
    end.

(** The end of the stream: what is left in the byte buffer is decoded once
    more, and dropped with a warning when that fails.  A loop that has been
    left by an exception does not get there. *)
Definition at_eof (st : reader) : reader :=
  if raised st then st
  else
    match byte_buffer st with
    | [] => st
    | bb =>
        match utf8_decode bb with
        | Some remaining_text =>
            {| line_buffer := line_buffer st ++ remaining_text;
               byte_buffer := bb; lines := lines st; raised := false |}
        | None => st
        end
    end.

Definition feed_all (st : reader) (bs : list Z) : reader :=
  fold_left feed bs st.

Definition read_stream (bs : list Z) : reader := at_eof (feed_all reader_init bs).

End Reader.

(** A stage for the examples: handling the line [[1]], a JSON value that
    is not an object, raises; no other line does. *)
Definition example_stage (line : list Z) : bool :=
  match line with
  | [0x5B; 0x31; 0x5D] => true
  | _ => false
  end.

(** Everything the loop has decoded so far, in order. *)
Definition text_of (st : reader) : list Z :=
  flat_map (fun l => l ++ [10]) (lines st) ++ line_buffer st.

Close Scope list_scope.
Close Scope Z_scope.

End ClaudeProcess.

(** ** services/claude_service.py: the registries of [ClaudeService]

    A [ClaudeProcess] object is mutable and shared: both registries hold
    references to it.  The objects live in a heap, a reference is an index
    into it, and the registries map their keys to references.  An object is
    never freed; a reference held by a registry always points into the heap,
    so the branches for a dangling reference below are unreachable. *)

Module ClaudeService.
Import PyStr.

Record handle : Type := {
  process_id : string;
  config_working_dir : option string;
  config_session_id : option string;
  config_continue_session : bool;
  is_running : bool
}.

Record service : Type := {
  heap : list handle;
  active_processes : gmap string nat;
  session_processes : gmap string nat
}.

Definition empty_service : service :=
  {| heap := []; active_processes := ∅; session_processes := ∅ |}.

Definition set_running (b : bool) (h : handle) : handle :=
  {| process_id := process_id h;
     config_working_dir := config_working_dir h;
     config_session_id := config_session_id h;
     config_continue_session := config_continue_session h;
     is_running := b |}.

(** [ClaudeProcess.stop]. *)
Definition stop (l : nat) (s : service) : service :=
  match heap s !! l with
  | Some h =>
      if is_running h
      then {| heap := <[l := set_running false h]> (heap s);
              active_processes := active_processes s;
              session_processes := session_processes s |}
      else s
  | None => s
  end.

(** [working_dir or config.claude_working_dir]. *)
Definition or_default (working_dir default_dir : option string) : option string :=
  match working_dir with
  | Some d => if truthy d then Some d else default_dir
  | None => default_dir
  end.

(** The tail of [get_or_create_process]: a new object with process id
    [uuid] is built and started; [start_ok] tells whether [start] returns
    or raises.  [None] is the exception of a failed start. *)
Definition create_new (claude_working_dir : option string)
    (session_id working_dir : option string) (continue_session : bool)
    (uuid : string) (start_ok : bool) (s : service) : option nat * service :=
  let l := length (heap s) in
  let process :=
    {| process_id := uuid;
       config_working_dir := or_default working_dir claude_working_dir;
       config_session_id := session_id;
       config_continue_session := continue_session;
       is_running := false |} in
  if start_ok then
    (Some l,
     {| heap := heap s ++ [set_running true process];
        active_processes := <[uuid := l]> (active_processes s);
        session_processes :=
          match session_id with
          | Some sid =>
              if truthy sid then <[sid := l]> (session_processes s)
              else session_processes s
          | None => session_processes s
          end |})
  else
    (None,
     {| heap := heap s ++ [process];
        active_processes := active_processes s;
        session_processes := session_processes s |}).

Definition get_or_create_process (claude_working_dir : option string)
    (session_id working_dir : option string) (continue_session : bool)
    (uuid : string) (start_ok : bool) (s : service) : option nat * service :=
  let cached :=
    match session_id with
    | Some sid => if truthy sid then session_processes s !! sid else None
    | None => None
    end in
  match session_id, cached with
  | Some sid, Some l =>
      match heap s !! l with
      | Some existing_process =>
          if is_running existing_process then (Some l, s)
          else
            create_new claude_working_dir session_id working_dir
              continue_session uuid start_ok
              {| heap := heap s;
                 active_processes :=
                   delete (process_id existing_process) (active_processes s);
                 session_processes := delete sid (session_processes s) |}
      | None => (None, s)
      end
  | _, _ =>
      create_new claude_working_dir session_id working_dir continue_session
        uuid start_ok s
  end.

(** The loop of [remove_process] over [session_processes.items()]: the
    first key whose object carries [pid]. *)
Definition session_of (pid : string) (s : service) : option string :=
  fst <$>
  List.find
    (fun '(sid, l) =>
       match heap s !! l with
       | Some cached_process => String.eqb (process_id cached_process) pid
       | None => false
       end)
    (map_to_list (session_processes s)).

Definition remove_process (pid : string) (s : service) : service :=
  match active_processes s !! pid with
  | Some l =>
      let session_id_to_remove := session_of pid s in
      stop l
        {| heap := heap s;
           active_processes := delete pid (active_processes s);
           session_processes :=
             match session_id_to_remove with
             | Some sid =>
                 if truthy sid then delete sid (session_processes s)
                 else session_processes s
             | None => session_processes s
             end |}
  | None => s
  end.

Definition remove_session_process (sid : string) (s : service) : service :=
  match session_processes s !! sid with
  | Some l =>
      match heap s !! l with
      | Some process =>
          stop l
            {| heap := heap s;
               active_processes :=
                 delete (process_id process) (active_processes s);
               session_processes := delete sid (session_processes s) |}
      | None => s
      end
  | None => s
  end.

Definition cleanup_all_processes (s : service) : service :=
  let s' :=
    fold_left (fun acc pid => remove_process pid acc)
      (map fst (map_to_list (active_processes s))) s in
  {| heap := heap s';
     active_processes := active_processes s';
     session_processes := ∅ |}.

(** The calls a client of the service can make.  [StopHandle] is a caller
    stopping a process it holds (the context-manager exit of
    [ClaudeProcess]). *)
Inductive call : Type :=
| GetOrCreate (session_id working_dir : option string)
    (continue_session : bool) (uuid : string) (start_ok : bool)
| RemoveProcess (pid : string)
| RemoveSessionProcess (sid : string)
| CleanupAll
| StopHandle (l : nat).

Definition step (claude_working_dir : option string) (s : service)
    (c : call) : service :=
  match c with
  | GetOrCreate sid wd cont uuid ok =>
      snd (get_or_create_process claude_working_dir sid wd cont uuid ok s)
  | RemoveProcess pid => remove_process pid s
  | RemoveSessionProcess sid => remove_session_process sid s
  | CleanupAll => cleanup_all_processes s
  | StopHandle l => stop l s
  end.

Definition run (claude_working_dir : option string) (s : service)
    (calls : list call) : service :=
  fold_left (step claude_working_dir) calls s.

(** [uuid.uuid4()] draws an id no live or past process carries. *)
Definition fresh_id (uuid : string) (s : service) : Prop :=
  forall h, h ∈ heap s -> process_id h <> uuid.

(** Every [GetOrCreate] of the trace draws a fresh id. *)
Fixpoint fresh_ids (claude_working_dir : option string) (s : service)
    (calls : list call) : Prop :=
  match calls with
  | [] => True
  | c :: rest =>
      match c with
      | GetOrCreate _ _ _ uuid _ => fresh_id uuid s
      | _ => True
      end /\ fresh_ids claude_working_dir (step claude_working_dir s c) rest
  end.

(** The registry invariant: what the conversation registry holds, the main
    registry holds under the object's own process id. *)
Definition registered (s : service) : Prop :=
  forall sid l,
    session_processes s !! sid = Some l ->
    exists h, heap s !! l = Some h /\
              active_processes s !! process_id h = Some l.

(** A trace that goes through every branch: a process is cached, stopped
    by its holder, replaced on the next request, and removed. *)
Definition example_calls : list call :=
  [ GetOrCreate (Some "conv-1") None false "p1" true;
    StopHandle 0;
    GetOrCreate (Some "conv-1") None true "p2" true;
    RemoveProcess "p2";
    GetOrCreate (Some "conv-2") None false "p3" true;
    GetOrCreate None None false "p4" false;
    RemoveSessionProcess "conv-2";
    CleanupAll ].

End ClaudeService.

(** ** services/stream_service.py *)

Module StreamService.
Import PyStr Json.
Import ContentParser.

(** Truthiness of a JSON value, as [if x:] tests it. *)
Definition json_truthy (v : json) : bool :=
  match v with
  | JNull => false
  | JBool b => b
  | JInt z => negb (z =? 0)%Z
  | JStr s => truthy s
  | JList items => match items with [] => false | _ => true end
  | JDict fields => match fields with [] => false | _ => true end
  | JOpaque => true
  end.

(** A field of a pydantic model in [.dict(exclude_none=...)]. *)
Definition field (exclude_none : bool) (key : string) (v : option json)
  : list (string * json) :=
  match v with
  | Some j => [(key, j)]
  | None => if exclude_none then [] else [(key, JNull)]
  end.

(** [ChatCompletionStreamResponse.create(...).dict(exclude_none=...)].
    [created] is the clock reading of the model's default factory. *)
Definition stream_response (exclude_none : bool) (response_id : string)
    (delta_content delta_role : option string) (model : string)
    (finish_reason : option string) (created : Z) : json :=
  let role := match delta_role with
              | Some r => if truthy r then Some (JStr r) else None
              | None => None
              end in
  let delta :=
    JDict (field exclude_none "role" role
           ++ field exclude_none "content" (JStr <$> delta_content))%list in
  let choice :=
    JDict ([("index", JInt 0)]
           ++ field exclude_none "message" None
           ++ [("delta", delta)]
           ++ field exclude_none "finish_reason" (JStr <$> finish_reason))%list in
  JDict [ ("id", JStr response_id);
          ("object", JStr "chat.completion.chunk");
          ("created", JInt created);
          ("model", JStr model);
          ("choices", JList [choice]) ].

(** The chunk around a hand-built delta. *)
Definition chunk (response_id model : string) (created : Z)
    (delta : list (string * json)) : json :=
  JDict [ ("id", JStr response_id);
          ("object", JStr "chat.completion.chunk");
          ("created", JInt created);
          ("model", JStr model);
          ("choices",
           JList [JDict [ ("index", JInt 0);
                          ("delta", JDict delta);
                          ("finish_reason", JNull) ]]) ].

Definition tool_info_json (pc : ParsedContent) : json :=
  match tool_info pc with Some d => JDict d | None => JNull end.

(** [d.get(key)], [None] being [null]. *)
Definition get_or_null (key : string) (d : list (string * json)) : json :=
  match assoc key d with Some v => v | None => JNull end.

Definition process_entry (kind : string) (pc : ParsedContent) : json :=
  JDict [ ("type", JStr kind);
          ("content", JStr (content pc));
          ("metadata", JDict (metadata pc)) ].

(** [metadata.get("active_forms", [])] when it is truthy. *)
Definition active_forms_field (pc : ParsedContent) : list (string * json) :=
  match assoc "active_forms" (metadata pc) with
  | Some af => if json_truthy af then [("active_forms", af)] else []
  | None => []
  end.

Definition _create_structured_response (response_id : string)
    (pc : ParsedContent) (model : string) (created : Z) : option json :=
  match content_type pc with
  | THINKING =>
      Some (chunk response_id model created
              [ ("content", JStr (content pc));
                ("thinking_process", process_entry "thinking" pc) ])
  | PLANNING =>
      let planning_process :=
        JDict ([ ("type", JStr "planning");
                 ("content", JStr (content pc));
                 ("tool_info", tool_info_json pc);
                 ("metadata", JDict (metadata pc)) ]
               ++ active_forms_field pc)%list in
      Some (chunk response_id model created
              [ ("content", JStr (content pc));
                ("planning_process", planning_process) ])
  | TOOL_USE =>
      let has_info := match tool_info pc with
                      | Some (_ :: _) => true | _ => false end in
      let info := match tool_info pc with Some d => d | None => [] end in
      Some (chunk response_id model created
              [ ("content", JStr (content pc));
                ("tool_usage",
                 JDict [ ("type", JStr "tool_use");
                         ("tool_name",
                          if has_info then get_or_null "tool_name" info
                          else JStr "unknown");
                         ("tool_input",
                          if has_info then get_or_null "tool_input" info
                          else JDict []);
                         ("metadata", JDict (metadata pc)) ]) ])
  | EXECUTION =>
      Some (chunk response_id model created
              [ ("content", JStr (content pc));
                ("execution_process", process_entry "execution" pc) ])
  | ERROR_HANDLING =>
      Some (chunk response_id model created
              [ ("content", JStr (content pc));
                ("error_handling", process_entry "error_handling" pc) ])
  | REGULAR_TEXT =>
      Some (stream_response false response_id (Some (content pc)) None model
              None created)
  | _ => None
  end.

(** The buckets of [extract_structured_info], in the order of its keys. *)
Record structured_info : Type := {
  thinking_process : list json;
  planning_steps : list json;
  tool_usage : list json;
  execution_flow : list json;
  error_handling : list json;
  analysis_results : list json;
  session_info : list (string * json)
}.

Definition plain_entry (pc : ParsedContent) : json :=
  JDict [ ("content", JStr (content pc)); ("metadata", JDict (metadata pc)) ].

Definition planning_entry (pc : ParsedContent) : json :=
  JDict ([ ("content", JStr (content pc));
           ("tool_info", tool_info_json pc);
           ("metadata", JDict (metadata pc)) ]
         ++ active_forms_field pc)%list.

Definition tool_entry (pc : ParsedContent) : json :=
  let has_info := match tool_info pc with
                  | Some (_ :: _) => true | _ => false end in
  let info := match tool_info pc with Some d => d | None => [] end in
  JDict [ ("tool_name",
           if has_info then get_or_null "tool_name" info else JStr "unknown");
          ("tool_input",
           if has_info then get_or_null "tool_input" info else JDict []);
          ("content", JStr (content pc)) ].

Definition of_type (t : ContentType) (pc : ParsedContent) : bool :=
  match t, content_type pc with
  | THINKING, THINKING | PLANNING, PLANNING | TOOL_USE, TOOL_USE
  | EXECUTION, EXECUTION | ERROR_HANDLING, ERROR_HANDLING
  | ANALYSIS, ANALYSIS => true
  | _, _ => false
  end.

(** The first parsed content with a truthy session id fills [session_info]. *)
Definition session_info_of (pcs : list ParsedContent) : list (string * json) :=
  match List.find (fun pc => match session_id pc with
                             | Some sid => truthy sid | None => false end) pcs
  with
  | Some pc =>
      [ ("session_id", of_option (session_id pc));
        ("model", get_or_null "model" (metadata pc));
        ("tools_available",
         match assoc "tools" (metadata pc) with
         | Some v => v | None => JList [] end) ]
  | None => []
  end.

Definition extract_structured_info (pcs : list ParsedContent)
  : structured_info :=
  {| thinking_process := map plain_entry (filter (of_type THINKING) pcs);
     planning_steps := map planning_entry (filter (of_type PLANNING) pcs);
     tool_usage := map tool_entry (filter (of_type TOOL_USE) pcs);
     execution_flow := map plain_entry (filter (of_type EXECUTION) pcs);
     error_handling := map plain_entry (filter (of_type ERROR_HANDLING) pcs);
     analysis_results := map plain_entry (filter (of_type ANALYSIS) pcs);
     session_info := session_info_of pcs |}.

Definition structured_info_json (si : structured_info) : json :=
  JDict [ ("thinking_process", JList (thinking_process si));
          ("planning_steps", JList (planning_steps si));
          ("tool_usage", JList (tool_usage si));
          ("execution_flow", JList (execution_flow si));
          ("error_handling", JList (error_handling si));
          ("analysis_results", JList (analysis_results si));
          ("session_info", JDict (session_info si)) ].

Definition tool_name_of (tool : json) : json :=
  match tool with
  | JDict fields => get_or_null "tool_name" fields
  | _ => JNull
  end.

Definition _create_summary_response (response_id : string)
    (si : structured_info) (model : string) (created : Z) : json :=
  JDict [ ("id", JStr response_id);
          ("object", JStr "chat.completion.chunk");
          ("created", JInt created);
          ("model", JStr model);
          ("choices",
           JList [JDict [
             ("index", JInt 0);
             ("delta", JDict [
                ("claude_analysis", JDict [
                   ("thinking_process_count",
                    JInt (Z.of_nat (length (thinking_process si))));
                   ("planning_steps_count",
                    JInt (Z.of_nat (length (planning_steps si))));
                   ("tools_used", JList (map tool_name_of (tool_usage si)));
                   ("execution_steps_count",
                    JInt (Z.of_nat (length (execution_flow si))));
                   ("errors_handled",
                    JInt (Z.of_nat (length (error_handling si))));
                   ("session_info", JDict (session_info si));
                   ("structured_data", structured_info_json si) ]) ]);
             ("finish_reason", JNull) ]]) ].

Definition fallback_frame : string :=
  "data: {" ++ quote "error" ++ ": " ++ quote "Failed to format response"
  ++ "}" ++ nl ++ nl.

(** [_format_sse_data]: the serialisation is tried and the fixed frame is
    returned when it raises. *)
Definition _format_sse_data (data : json) : string :=
  match dumps data with
  | Some json_data => "data: " ++ json_data ++ nl ++ nl
  | None => fallback_frame
  end.

Definition done_frame : string := "data: [DONE]" ++ nl ++ nl.

Definition error_frame (message : string) : string :=
  _format_sse_data
    (JDict [("error", JDict [ ("message", JStr message);
                              ("type", JStr "streaming_error");
                              ("code", JStr "stream_interrupted") ])]).

(** How the backend line stream ends: it is exhausted, or its next step
    raises an exception whose [str] is [message]. *)
Inductive ending : Type :=
| Exhausted
| Raises (message : string).

Section Stream.

(** The clocks the chunks read for [created]: the [n]-th reading. *)
Variable clock : nat -> Z.

Variables response_id model : string.

(** The body of the [async for]: the frames yielded for the lines, the
    parsed contents collected and the number of clock readings made. *)
Fixpoint consume (lines : list string) (parsed_contents : list ParsedContent)
    (tick : nat) : list string * list ParsedContent * nat :=
  match lines with
  | [] => ([], parsed_contents, tick)
  | line :: rest =>
      if negb (blank line) then
        let parsed_content := parse_text_content line in
        let parsed_contents := (parsed_contents ++ [parsed_content])%list in
        match _create_structured_response response_id parsed_content model
                (clock tick) with
        | Some response_data =>
            let '(frames, pcs, t) := consume rest parsed_contents (S tick) in
            (_format_sse_data response_data :: frames, pcs, t)
        | None => consume rest parsed_contents tick
        end
      else consume rest parsed_contents tick
  end.

Definition first_frame : string :=
  _format_sse_data
    (stream_response true response_id (Some "") (Some "assistant") model None
       (clock 0)).

Definition finish_frame (created : Z) : string :=
  _format_sse_data
    (stream_response true response_id None None model (Some "stop") created).

(** [create_claude_stream]: everything the generator yields, in order. *)
Definition create_claude_stream (lines : list string) (e : ending)
  : list string :=
  let '(frames, parsed_contents, tick) := consume lines [] 1 in
  match e with
  | Raises message => (first_frame :: frames ++ [error_frame message])%list
  | Exhausted =>
      let '(summary, tick) :=
        match parsed_contents with
        | [] => ([], tick)
        | _ =>
            ([_format_sse_data
                (_create_summary_response response_id
                   (extract_structured_info parsed_contents) model
                   (clock tick))], S tick)
        end in
      (first_frame :: frames ++ summary
         ++ [finish_frame (clock tick); done_frame])%list
  end.

End Stream.

End StreamService.

(** ** The part of [datetime] the key service relies on

    An aware datetime in UTC, with the fields of the Python object.  Two
    such values compare field by field, and their difference is counted on
    the proleptic Gregorian ordinal, as [datetime.py] does. *)

Module Datetime.

Open Scope Z_scope.

Record datetime : Set := {
  year : Z; month : Z; day : Z;
  hour : Z; minute : Z; second : Z; microsecond : Z
}.

Definition MAXYEAR : Z := 9999.

Definition is_leap (y : Z) : bool :=
  (y mod 4 =? 0) && (negb (y mod 100 =? 0) || (y mod 400 =? 0)).

Definition days_in_month (y m : Z) : Z :=
  if m =? 2 then (if is_leap y then 29 else 28)
  else if (m =? 4) || (m =? 6) || (m =? 9) || (m =? 11) then 30
  else 31.

(** [_days_before_year]: days before January 1st of year [y]. *)
Definition days_before_year (y : Z) : Z :=
  let y := y - 1 in y * 365 + y / 4 - y / 100 + y / 400.

(** [_DAYS_BEFORE_MONTH]. *)
Definition DAYS_BEFORE_MONTH (m : Z) : Z :=
  if m =? 1 then 0 else if m =? 2 then 31 else if m =? 3 then 59
  else if m =? 4 then 90 else if m =? 5 then 120 else if m =? 6 then 151
  else if m =? 7 then 181 else if m =? 8 then 212 else if m =? 9 then 243
  else if m =? 10 then 273 else if m =? 11 then 304 else 334.

Definition days_before_month (y m : Z) : Z :=
  DAYS_BEFORE_MONTH m + (if (2 <? m) && is_leap y then 1 else 0).

(** [_ymd2ord]: January 1st of year 1 is day 1. *)
Definition ymd2ord (y m d : Z) : Z :=
  days_before_year y + days_before_month y m + d.

Definition toordinal (t : datetime) : Z := ymd2ord (year t) (month t) (day t).

(** The values the constructor accepts. *)
Definition valid (t : datetime) : Prop :=
  1 <= year t <= MAXYEAR /\ 1 <= month t <= 12 /\
  1 <= day t <= days_in_month (year t) (month t) /\
  0 <= hour t < 24 /\ 0 <= minute t < 60 /\ 0 <= second t < 60 /\
  0 <= microsecond t < 1000000.

Definition fields (t : datetime) : list Z :=
  [year t; month t; day t; hour t; minute t; second t; microsecond t].

Fixpoint lex_ltb (a b : list Z) : bool :=
  match a, b with
  | x :: a', y :: b' => (x <? y) || ((x =? y) && lex_ltb a' b')
  | _, _ => false
  end.

(** [a > b] and [a <= b] on datetimes. *)
Definition gtb (a b : datetime) : bool := lex_ltb (fields b) (fields a).

Definition leb (a b : datetime) : bool := negb (gtb a b).

(** Microseconds since the start of day 0 of the ordinal count. *)
Definition to_microseconds (t : datetime) : Z :=
  (((toordinal t * 24 + hour t) * 60 + minute t) * 60 + second t) * 1000000
  + microsecond t.

(** [int((a - b).total_seconds())]: the difference is an exact number of
    microseconds, [total_seconds] divides it by 10^6 and [int] truncates
    towards zero.  At the magnitudes of a quota period the float quotient
    is far from the next integer unless it is one, so the truncation is that
    of the exact quotient. *)
Definition whole_seconds_between (a b : datetime) : Z :=
  Z.quot (to_microseconds a - to_microseconds b) 1000000.

(** [t.replace(hour=0, minute=0, second=0, microsecond=0)]. *)
Definition midnight (t : datetime) : datetime :=
  {| year := year t; month := month t; day := day t;
     hour := 0; minute := 0; second := 0; microsecond := 0 |}.

(** [t.replace(year=y, month=m, day=1, hour=0, ...)]; [None] is the
    [ValueError] of a year out of range. *)
Definition first_of_month (y m : Z) : option datetime :=
  if (1 <=? y) && (y <=? MAXYEAR) then
    Some {| year := y; month := m; day := 1;
            hour := 0; minute := 0; second := 0; microsecond := 0 |}
  else None.

(** [t + timedelta(days=1)] for a datetime [t]: the same time on the next
    day of the calendar; [None] is the [OverflowError] past the last day of
    [MAXYEAR]. *)
Definition add_one_day (t : datetime) : option datetime :=
  let with_date y m d :=
    {| year := y; month := m; day := d; hour := hour t; minute := minute t;
       second := second t; microsecond := microsecond t |} in
  if day t <? days_in_month (year t) (month t)
  then Some (with_date (year t) (month t) (day t + 1))
  else if month t <? 12 then Some (with_date (year t) (month t + 1) 1)
  else if year t <? MAXYEAR then Some (with_date (year t + 1) 1 1)
  else None.

Close Scope Z_scope.

End Datetime.

(** ** models/api_key.py and services/api_key_service.py *)

Module ApiKey.
Import PyStr Datetime.

Inductive RateLimitPeriod : Set := DAY | MONTH.

Record APIKeyConfig : Set := {
  key : string;
  max_requests : Z;
  period : RateLimitPeriod;
  description : option string
}.

Record APIKeyUsage : Set := {
  api_key : string;
  current_period_requests : Z;
  period_start : datetime;
  period_end : datetime;
  last_used : option datetime
}.

(** The [error] dict of an [OpenAIErrorResponse]; [retry_after] is [None]
    when the dict has no such key. *)
Record OpenAIErrorResponse : Set := {
  message : string;
  type : string;
  code : string;
  retry_after : option Z
}.

Definition invalid_key : OpenAIErrorResponse :=
  {| message := "Invalid API key provided";
     type := "invalid_api_key"; code := "invalid_api_key";
     retry_after := None |}.

(** [rate_limit_exceeded(retry_after)]: [if retry_after:] adds the key. *)
Definition rate_limit_exceeded (r : option Z) : OpenAIErrorResponse :=
  {| message := "Rate limit exceeded for this API key";
     type := "rate_limit_exceeded"; code := "rate_limit_exceeded";
     retry_after := match r with
                    | Some n => if (n =? 0)%Z then None else Some n
                    | None => None
                    end |}.

Record Config : Set := {
  api_key_enabled : bool;
  api_keys : list APIKeyConfig
}.

Fixpoint get_api_key_config (keys : list APIKeyConfig) (k : string)
  : option APIKeyConfig :=
  match keys with
  | [] => None
  | key_config :: rest =>
      if String.eqb (key key_config) k then Some key_config
      else get_api_key_config rest k
  end.

(** [can_make_request]. *)
Definition can_make_request (u : APIKeyUsage) (max : Z) : bool :=
  (current_period_requests u <? max)%Z.

(** [record_request], stamped with the clock reading [now]. *)
Definition record_request (u : APIKeyUsage) (now : datetime) : APIKeyUsage :=
  {| api_key := api_key u;
     current_period_requests := (current_period_requests u + 1)%Z;
     period_start := period_start u; period_end := period_end u;
     last_used := Some now |}.

Definition reset_period (u : APIKeyUsage) (new_start new_end : datetime)
  : APIKeyUsage :=
  {| api_key := api_key u; current_period_requests := 0;
     period_start := new_start; period_end := new_end;
     last_used := last_used u |}.

(** The bounds of the period around the clock reading [now]; [None] when
    the datetime arithmetic raises. *)
Definition period_bounds (p : RateLimitPeriod) (now : datetime)
  : option (datetime * datetime) :=
  match p with
  | DAY =>
      let start := midnight now in
      match add_one_day start with
      | Some e => Some (start, e)
      | None => None
      end
  | MONTH =>
      match first_of_month (year now) (month now) with
      | Some start =>
          match (if (month now =? 12)%Z
                 then first_of_month (year now + 1) 1
                 else first_of_month (year now) (month now + 1)) with
          | Some e => Some (start, e)
          | None => None
          end
      | None => None
      end
  end.

(** The state of the service and of the clock it reads: the usage map and
    the number of readings made so far. *)
Record world : Type := {
  _usage_storage : gmap string APIKeyUsage;
  ticks : nat
}.

(** A computation on the world; [None] is an exception on its way up. *)
Definition M (A : Type) : Type := world -> option A * world.

Definition ret {A} (a : A) : M A := fun w => (Some a, w).

Definition raise {A} : M A := fun w => (None, w).

Definition bind {A B} (m : M A) (f : A -> M B) : M B :=
  fun w => match m w with
           | (Some a, w') => f a w'
           | (None, w') => (None, w')
           end.

Notation "x <- m ;; k" := (bind m (fun x => k))
  (at level 100, m at next level, right associativity).

Definition storage : M (gmap string APIKeyUsage) :=
  fun w => (Some (_usage_storage w), w).

Definition store (k : string) (u : APIKeyUsage) : M unit :=
  fun w => (Some tt, {| _usage_storage := <[k := u]> (_usage_storage w);
                        ticks := ticks w |}).

Section Service.

(** [datetime.now(timezone.utc)]: the [n]-th reading of the clock. *)
Variable clock : nat -> datetime.

Variable config : Config.

Definition now : M datetime :=
  fun w => (Some (clock (ticks w)),
            {| _usage_storage := _usage_storage w; ticks := S (ticks w) |}).

Definition _calculate_period_bounds (p : RateLimitPeriod)
  : M (datetime * datetime) :=
  t <- now ;;
  match period_bounds p t with
  | Some b => ret b
  | None => raise
  end.

(** [is_period_expired]. *)
Definition is_period_expired (u : APIKeyUsage) : M bool :=
  t <- now ;; ret (gtb t (period_end u)).

Definition _get_or_create_usage (api_key_config : APIKeyConfig)
  : M APIKeyUsage :=
  let k := key api_key_config in
  m <- storage ;;
  match m !! k with
  | None =>
      b <- _calculate_period_bounds (period api_key_config) ;;
      let usage := {| api_key := k; current_period_requests := 0;
                      period_start := fst b; period_end := snd b;
                      last_used := None |} in
      _ <- store k usage ;; ret usage
  | Some usage =>
      expired <- is_period_expired usage ;;
      if expired : bool then
        b <- _calculate_period_bounds (period api_key_config) ;;
        let usage := reset_period usage (fst b) (snd b) in
        _ <- store k usage ;; ret usage
      else ret usage
  end.

(** The body of the [try] of [validate_api_key].  The usage record is the
    object held by the map, so recording the request updates the map. *)
Definition validate_body (k : string) : M (bool * option OpenAIErrorResponse) :=
  if negb (api_key_enabled config) then ret (true, None)
  else
    match get_api_key_config (api_keys config) k with
    | None => ret (false, Some invalid_key)
    | Some api_key_config =>
        usage <- _get_or_create_usage api_key_config ;;
        if negb (can_make_request usage (max_requests api_key_config)) then
          t <- now ;;
          let retry_after_seconds :=
            whole_seconds_between (period_end usage) t in
          ret (false, Some (rate_limit_exceeded (Some retry_after_seconds)))
        else
          t <- now ;;
          _ <- store (key api_key_config) (record_request usage t) ;;
          ret (true, None)
    end.

(** [validate_api_key]: any exception becomes the invalid-key answer. *)
Definition validate_api_key (k : string) (w : world)
  : (bool * option OpenAIErrorResponse) * world :=
  match validate_body k w with
  | (Some r, w') => (r, w')
  | (None, w') => ((false, Some invalid_key), w')
  end.

(** [n] validations of the same key in a row: the answers, oldest first,
    and the world they leave. *)
Fixpoint validate_times (n : nat) (k : string) (w : world)
  : list (bool * option OpenAIErrorResponse) * world :=
  match n with
  | O => ([], w)
  | S n' =>
      let '(r, w') := validate_api_key k w in
      let '(rs, w'') := validate_times n' k w' in
      (r :: rs, w'')
  end.

End Service.

(** The usage record of key [k] after [j] requests counted in the period
    from [ps] to [pe], the last one stamped [stamp]. *)
Definition counted_usage (k : string) (ps pe : datetime) (j : nat)
    (stamp : datetime) : APIKeyUsage :=
  {| api_key := k; current_period_requests := Z.of_nat j;
     period_start := ps; period_end := pe; last_used := Some stamp |}.

(** The world [j] successful validations of [k] after [w], each of which
    reads the clock twice. *)
Definition world_after (clock : nat -> datetime) (k : string)
    (ps pe : datetime) (w : world) (j : nat) : world :=
  {| _usage_storage :=
       <[k := counted_usage k ps pe j (clock (ticks w + 2 * j - 1))]>
         (_usage_storage w);
     ticks := ticks w + 2 * j |}.

(** A key allowed three requests a day, and a clock that stands half a
    second before midnight. *)
Definition example_key_config : APIKeyConfig :=
  {| key := "sk-test-0001"; max_requests := 3;
     period := DAY; description := None |}.

Definition example_config : Config :=
  {| api_key_enabled := true; api_keys := [example_key_config] |}.

Definition example_clock (n : nat) : datetime :=
  {| year := 2025; month := 12; day := 31; hour := 23; minute := 59;
     second := 59; microsecond := 500000 |}.

(** A clock that advances one minute per reading, from the morning of the
    same day. *)
Definition morning_clock (n : nat) : datetime :=
  {| year := 2025; month := 12; day := 31; hour := 9;
     minute := Z.of_nat (n mod 60);
     second := 0; microsecond := 0 |}.

Definition empty_world : world := {| _usage_storage := ∅; ticks := 0 |}.

Definition example_day_start : datetime :=
  {| year := 2025; month := 12; day := 31; hour := 0; minute := 0;
     second := 0; microsecond := 0 |}.

Definition example_day_end : datetime :=
  {| year := 2026; month := 1; day := 1; hour := 0; minute := 0;
     second := 0; microsecond := 0 |}.

Definition stale_usage : APIKeyUsage :=
  {| api_key := "sk-test-0001"; current_period_requests := 3;
     period_start :=
       {| year := 2025; month := 12; day := 30; hour := 0;
          minute := 0; second := 0; microsecond := 0 |};
     period_end := example_day_start;
     last_used := None |}.

(** A world whose record for the example key ended with the previous
    day. *)
Definition stale_world : world :=
  {| _usage_storage := {[ "sk-test-0001" := stale_usage ]}; ticks := 0 |}.

End ApiKey.

(** ** models/session.py, services/database.py, services/session_manager.py

    A naive [datetime] is a point on the local time line, counted in
    microseconds; adding a [timedelta] and comparing are exact integer
    operations there. *)

Module Sessions.
Import PyStr Json.

Open Scope Z_scope.

Record Session : Type := {
  session_id : string;
  created_at : Z;
  last_activity : Z;
  claude_process_id : option string;
  claude_session_id : option string;
  message_count : Z;
  is_active : bool;
  claude_working_dir : option string;
  max_message_history : Z;
  timeout_minutes : Z;
  user_agent : option string;
  client_ip : option string;
  metadata : list (string * json)
}.

(** [timedelta(minutes=m)] in microseconds. *)
Definition minutes (m : Z) : Z := m * 60 * 1000000.

(** [Session.is_expired] at the clock reading [now]. *)
Definition is_expired (s : Session) (now : Z) : bool :=
  let expiry_time := last_activity s + minutes (timeout_minutes s) in
  expiry_time <? now.

(** [Session.update_activity] at the clock reading [now]. *)
Definition update_activity (s : Session) (now : Z) : Session :=
  {| session_id := session_id s; created_at := created_at s;
     last_activity := now;
     claude_process_id := claude_process_id s;
     claude_session_id := claude_session_id s;
     message_count := message_count s + 1;
     is_active := is_active s;
     claude_working_dir := claude_working_dir s;
     max_message_history := max_message_history s;
     timeout_minutes := timeout_minutes s;
     user_agent := user_agent s; client_ip := client_ip s;
     metadata := metadata s |}.

Definition with_claude_session_id (s : Session) (c : option string) : Session :=
  {| session_id := session_id s; created_at := created_at s;
     last_activity := last_activity s;
     claude_process_id := claude_process_id s;
     claude_session_id := c;
     message_count := message_count s;
     is_active := is_active s;
     claude_working_dir := claude_working_dir s;
     max_message_history := max_message_history s;
     timeout_minutes := timeout_minutes s;
     user_agent := user_agent s; client_ip := client_ip s;
     metadata := metadata s |}.

Definition with_last_activity (s : Session) (t : Z) : Session :=
  {| session_id := session_id s; created_at := created_at s;
     last_activity := t;
     claude_process_id := claude_process_id s;
     claude_session_id := claude_session_id s;
     message_count := message_count s;
     is_active := is_active s;
     claude_working_dir := claude_working_dir s;
     max_message_history := max_message_history s;
     timeout_minutes := timeout_minutes s;
     user_agent := user_agent s; client_ip := client_ip s;
     metadata := metadata s |}.

Definition with_is_active (s : Session) (b : bool) : Session :=
  {| session_id := session_id s; created_at := created_at s;
     last_activity := last_activity s;
     claude_process_id := claude_process_id s;
     claude_session_id := claude_session_id s;
     message_count := message_count s;
     is_active := b;
     claude_working_dir := claude_working_dir s;
     max_message_history := max_message_history s;
     timeout_minutes := timeout_minutes s;
     user_agent := user_agent s; client_ip := client_ip s;
     metadata := metadata s |}.

Definition with_metadata (s : Session) (m : list (string * json)) : Session :=
  {| session_id := session_id s; created_at := created_at s;
     last_activity := last_activity s;
     claude_process_id := claude_process_id s;
     claude_session_id := claude_session_id s;
     message_count := message_count s;
     is_active := is_active s;
     claude_working_dir := claude_working_dir s;
     max_message_history := max_message_history s;
     timeout_minutes := timeout_minutes s;
     user_agent := user_agent s; client_ip := client_ip s;
     metadata := m |}.

(** [d[k] = v] on a dict kept in insertion order. *)
Fixpoint dict_set (k : string) (v : json) (d : list (string * json))
  : list (string * json) :=
  match d with
  | [] => [(k, v)]
  | (k', v') :: rest =>
      if String.eqb k' k then (k, v) :: rest else (k', v') :: dict_set k v rest
  end.

(** [d.update(other)], also the merge of two dict displays. *)
Definition dict_update (d other : list (string * json)) : list (string * json) :=
  fold_left (fun acc kv => dict_set (fst kv) (snd kv) acc) other d.

(** [SessionCreateRequest]. *)
Record SessionCreateRequest : Type := {
  req_session_id : option string;
  req_claude_working_dir : option string;
  req_max_message_history : Z;
  req_timeout_minutes : Z;
  req_metadata : list (string * json)
}.

(** [SessionCreateRequest.create_session] with its keyword arguments
    [kwargs].  [hex] is the
    [uuid4().hex[:12]] drawn for a missing id, [t1] and [t2] the clock
    readings of the two default factories. *)
Definition request_create_session (r : SessionCreateRequest)
    (kwargs : list (string * json)) (hex : string) (t1 t2 : Z) : Session :=
  let sid := match req_session_id r with
             | Some s => if truthy s then s else ("session_" ++ hex)%string
             | None => ("session_" ++ hex)%string
             end in
  {| session_id := sid; created_at := t1; last_activity := t2;
     claude_process_id := None; claude_session_id := None;
     message_count := 0; is_active := true;
     claude_working_dir := req_claude_working_dir r;
     max_message_history := req_max_message_history r;
     timeout_minutes := req_timeout_minutes r;
     user_agent := None; client_ip := None;
     metadata := dict_update (req_metadata r) kwargs |}.

(** [SessionUpdateRequest]. *)
Record SessionUpdateRequest : Type := {
  upd_is_active : option bool;
  upd_claude_session_id : option string;
  upd_metadata : option (list (string * json))
}.

Definition apply_to_session (u : SessionUpdateRequest) (s : Session) : Session :=
  let s := match upd_is_active u with
           | Some b => with_is_active s b | None => s end in
  let s := match upd_claude_session_id u with
           | Some c => with_claude_session_id s (Some c) | None => s end in
  match upd_metadata u with
  | Some m => with_metadata s (dict_update (metadata s) m)
  | None => s
  end.

(** *** The durable store

    A timestamp value as Python sees it: the ISO text a column holds, or the
    [datetime] object parsed from it. *)
Inductive timestamp : Type :=
| IsoText (t : Z)
| DatetimeObject (t : Z).

(** [datetime.fromisoformat(v)]: a [str] is parsed, anything else is a
    [TypeError] ([None]).  [isoformat] and [fromisoformat] are inverse on
    naive datetimes. *)
Definition fromisoformat (v : timestamp) : option Z :=
  match v with
  | IsoText t => Some t
  | DatetimeObject _ => None
  end.

(** A row of the [sessions] table; also the dict [get_session] returns,
    whose two timestamps are then [DatetimeObject]s.  The [metadata] column
    holds the JSON text of a dict, kept here as the dict. *)
Record row : Type := {
  r_session_id : string;
  r_claude_session_id : option string;
  r_claude_process_id : option string;
  r_created_at : timestamp;
  r_last_activity : timestamp;
  r_message_count : Z;
  r_is_active : bool;
  r_claude_working_dir : option string;
  r_max_message_history : Z;
  r_timeout_minutes : Z;
  r_user_agent : option string;
  r_client_ip : option string;
  r_metadata : list (string * json)
}.

(** [DatabaseManager.create_session]: the INSERT fails on a taken primary
    key, the failure is logged and [False] returned. *)
Definition db_create_session (r : row) (db : gmap string row)
  : bool * gmap string row :=
  match db !! r_session_id r with
  | Some _ => (false, db)
  | None => (true, <[r_session_id r := r]> db)
  end.

Definition parse_timestamps (r : row) : option row :=
  match fromisoformat (r_created_at r), fromisoformat (r_last_activity r) with
  | Some c, Some a =>
      Some {| r_session_id := r_session_id r;
              r_claude_session_id := r_claude_session_id r;
              r_claude_process_id := r_claude_process_id r;
              r_created_at := DatetimeObject c;
              r_last_activity := DatetimeObject a;
              r_message_count := r_message_count r;
              r_is_active := r_is_active r;
              r_claude_working_dir := r_claude_working_dir r;
              r_max_message_history := r_max_message_history r;
              r_timeout_minutes := r_timeout_minutes r;
              r_user_agent := r_user_agent r;
              r_client_ip := r_client_ip r;
              r_metadata := r_metadata r |}
  | _, _ => None
  end.

(** [DatabaseManager.get_session]: the row as a dict with its timestamps
    parsed; [None] when there is no row or the parsing raises. *)
Definition db_get_session (sid : string) (db : gmap string row) : option row :=
  match db !! sid with
  | Some r => parse_timestamps r
  | None => None
  end.

(** The columns an UPDATE of the session manager sets. *)
Record updates : Type := {
  set_claude_session_id : option string;
  set_is_active : option bool;
  set_metadata : option (list (string * json));
  set_last_activity : option Z
}.

Definition apply_updates (u : updates) (r : row) : row :=
  {| r_session_id := r_session_id r;
     r_claude_session_id :=
       match set_claude_session_id u with
       | Some c => Some c | None => r_claude_session_id r end;
     r_claude_process_id := r_claude_process_id r;
     r_created_at := r_created_at r;
     r_last_activity :=
       match set_last_activity u with
       | Some t => IsoText t | None => r_last_activity r end;
     r_message_count := r_message_count r;
     r_is_active :=
       match set_is_active u with
       | Some b => b | None => r_is_active r end;
     r_claude_working_dir := r_claude_working_dir r;
     r_max_message_history := r_max_message_history r;
     r_timeout_minutes := r_timeout_minutes r;
     r_user_agent := r_user_agent r;
     r_client_ip := r_client_ip r;
     r_metadata :=
       match set_metadata u with
       | Some m => m | None => r_metadata r end |}.

(** [DatabaseManager.update_session]: UPDATE ... WHERE session_id = ?. *)
Definition db_update_session (sid : string) (u : updates)
    (db : gmap string row) : gmap string row :=
  match db !! sid with
  | Some r => <[sid := apply_updates u r]> db
  | None => db
  end.

(** [DatabaseManager.delete_session]. *)
Definition db_delete_session (sid : string) (db : gmap string row)
  : gmap string row := delete sid db.

(** *** The session manager *)

Record manager : Type := {
  sessions : gmap string Session;
  db : gmap string row;
  total_sessions_created : nat;
  ticks : nat
}.

Definition set_sessions (f : gmap string Session -> gmap string Session)
    (m : manager) : manager :=
  {| sessions := f (sessions m); db := db m;
     total_sessions_created := total_sessions_created m; ticks := ticks m |}.

Definition set_db (f : gmap string row -> gmap string row) (m : manager)
  : manager :=
  {| sessions := sessions m; db := f (db m);
     total_sessions_created := total_sessions_created m; ticks := ticks m |}.

Inductive exn : Set := SessionError | TypeError.

Inductive result (A : Type) : Type :=
| Ok (a : A)
| Raise (e : exn).

Arguments Ok {A} a.
Arguments Raise {A} e.

(** A computation of the manager, with the exception it may raise. *)
Definition M (A : Type) : Type := manager -> result A * manager.

Definition ret {A} (a : A) : M A := fun m => (Ok a, m).

Definition raise {A} (e : exn) : M A := fun m => (Raise e, m).

Definition bind {A B} (c : M A) (f : A -> M B) : M B :=
  fun m => match c m with
           | (Ok a, m') => f a m'
           | (Raise e, m') => (Raise e, m')
           end.

Notation "x <- c ;; k" := (bind c (fun x => k))
  (at level 100, c at next level, right associativity).

Definition get_state : M manager := fun m => (Ok m, m).

Definition modify (f : manager -> manager) : M unit := fun m => (Ok tt, f m).

(** The keyword arguments a caller passes on to [SessionCreateRequest];
    a field is [None] when the keyword is not given. *)
Record kwargs : Type := {
  kw_claude_working_dir : option (option string);
  kw_max_message_history : option Z;
  kw_timeout_minutes : option Z;
  kw_metadata : option (list (string * json))
}.

Definition no_kwargs : kwargs :=
  {| kw_claude_working_dir := None; kw_max_message_history := None;
     kw_timeout_minutes := None; kw_metadata := None |}.

(** [SessionCreateRequest(session_id=sid, claude_working_dir=wd, ...)]
    with the defaults of the model for what is not given. *)
Definition make_request (sid : option string) (wd : option string)
    (kw : kwargs) : SessionCreateRequest :=
  {| req_session_id := sid;
     req_claude_working_dir := wd;
     req_max_message_history :=
       match kw_max_message_history kw with Some n => n | None => 50 end;
     req_timeout_minutes :=
       match kw_timeout_minutes kw with Some n => n | None => 30 end;
     req_metadata :=
       match kw_metadata kw with Some d => d | None => [] end |}.

(** The [session_data] dict of [create_session] as the row it inserts:
    the columns the dict does not name get the defaults of the INSERT, and
    the working directory goes through [str]. *)
Definition row_of_session (s : Session) : row :=
  {| r_session_id := session_id s;
     r_claude_session_id := claude_session_id s;
     r_claude_process_id := None;
     r_created_at := IsoText (created_at s);
     r_last_activity := IsoText (last_activity s);
     r_message_count := 0;
     r_is_active := is_active s;
     r_claude_working_dir :=
       Some (match claude_working_dir s with
             | Some d => d | None => "None"%string end);
     r_max_message_history := 50;
     r_timeout_minutes := timeout_minutes s;
     r_user_agent := None; r_client_ip := None;
     r_metadata := [] |}.

Definition only_last_activity (t : Z) : updates :=
  {| set_claude_session_id := None; set_is_active := None;
     set_metadata := None; set_last_activity := Some t |}.

Section Manager.

(** [datetime.now()]: the [n]-th reading of the clock. *)
Variable clock : nat -> Z.

Definition now : M Z :=
  fun m => (Ok (clock (ticks m)),
            {| sessions := sessions m; db := db m;
               total_sessions_created := total_sessions_created m;
               ticks := S (ticks m) |}).

(** [remove_session].  The age of a removed session is read off the clock
    for the log. *)
Definition remove_session (sid : string) : M bool :=
  m <- get_state ;;
  match sessions m !! sid, db_get_session sid (db m) with
  | None, None => ret false
  | cached, _ =>
      _ <- modify (set_sessions (delete sid)) ;;
      _ <- modify (set_db (db_delete_session sid)) ;;
      _ <- match cached with
           | Some _ => now
           | None => ret 0
           end ;;
      ret true
  end.

Definition get_session (sid : string) : M (option Session) :=
  m <- get_state ;;
  match sessions m !! sid with
  | None => ret None
  | Some session =>
      t <- now ;;
      if is_expired session t then
        _ <- remove_session sid ;; ret None
      else ret (Some session)
  end.

(** [create_session(request)]; [hex] is the id drawn when none is asked
    for. *)
Definition create_session (request : SessionCreateRequest) (hex : string)
  : M Session :=
  m <- get_state ;;
  let taken :=
    match req_session_id request with
    | Some sid =>
        if truthy sid then
          match sessions m !! sid with
          | Some existing_session => is_active existing_session
          | None => false
          end
        else false
    | None => false
    end in
  if taken then raise SessionError
  else
    t1 <- now ;;
    t2 <- now ;;
    let session := request_create_session request [] hex t1 t2 in
    _ <- modify (set_sessions (insert (session_id session) session)) ;;
    _ <- modify (set_db (fun d => snd (db_create_session (row_of_session session) d))) ;;
    _ <- modify (fun m =>
                   {| sessions := sessions m; db := db m;
                      total_sessions_created := S (total_sessions_created m);
                      ticks := ticks m |}) ;;
    ret session.

Definition update_session (sid : string) (request : SessionUpdateRequest)
  : M Session :=
  found <- get_session sid ;;
  match found with
  | None => raise SessionError
  | Some session =>
      t <- now ;;
      let session := update_activity (apply_to_session request session) t in
      _ <- modify (set_sessions (insert sid session)) ;;
      _ <- modify (set_db (db_update_session sid
                     {| set_claude_session_id := upd_claude_session_id request;
                        set_is_active := upd_is_active request;
                        set_metadata := upd_metadata request;
                        set_last_activity := Some (last_activity session) |})) ;;
      ret session
  end.

(** The rehydration branch of [get_or_create_session] for the dict
    [db_session] the store returned.  The keyword [claude_working_dir] is
    given explicitly and once more through the caller's keywords when these
    carry it, which the call rejects. *)
Definition rehydrate (sid : string) (db_session : row) (kw : kwargs)
    (hex : string) : M Session :=
  match kw_claude_working_dir kw with
  | Some _ => raise TypeError
  | None =>
      let request :=
        make_request (Some sid) (r_claude_working_dir db_session) kw in
      t1 <- now ;;
      t2 <- now ;;
      let session := request_create_session request [] hex t1 t2 in
      let session :=
        with_claude_session_id session (r_claude_session_id db_session) in
      match fromisoformat (r_last_activity db_session) with
      | None => raise TypeError
      | Some a =>
          let session := with_last_activity session a in
          t <- now ;;
          let session := update_activity session t in
          _ <- modify (set_sessions (insert sid session)) ;;
          _ <- modify (set_db (db_update_session sid
                         (only_last_activity (last_activity session)))) ;;
          ret session
      end
  end.

Definition get_or_create_session (sid : option string) (kw : kwargs)
    (hex : string) : M Session :=
  let create :=
    create_session
      (make_request sid
         (match kw_claude_working_dir kw with Some d => d | None => None end)
         kw) hex in
  match sid with
  | Some id =>
      if truthy id then
        found <- get_session id ;;
        match found with
        | Some session =>
            t <- now ;;
            let session := update_activity session t in
            _ <- modify (set_sessions (insert id session)) ;;
            ret session
        | None =>
            m <- get_state ;;
            match db_get_session id (db m) with
            | Some db_session => rehydrate id db_session kw hex
            | None => create
            end
        end
      else create
  | None => create
  end.

(** The memory of the process is lost (a restart) or a session is dropped
    from the cache alone: the durable rows stay. *)
Definition evict (sid : string) (m : manager) : manager :=
  set_sessions (delete sid) m.

End Manager.

(** A clock that advances one second per reading. *)
Definition seconds_clock (n : nat) : Z := Z.of_nat n * 1000000.

Definition empty_manager : manager :=
  {| sessions := ∅; db := ∅; total_sessions_created := 0; ticks := 0 |}.

Definition state_of {A} (r : result A * manager) : manager := snd r.

(** The round trip of a conversation: the session [abc123] is created on
    the first request, the backend conversation id is stored on it, the
    memory is lost, and the session is asked for again. *)
Definition persisted_manager : manager :=
  let m1 := state_of (get_or_create_session seconds_clock (Some "abc123"%string)
                        no_kwargs "000000000000"%string empty_manager) in
  state_of (update_session seconds_clock "abc123"%string
              {| upd_is_active := None;
                 upd_claude_session_id := Some "conv-1"%string;
                 upd_metadata := None |} m1).

Definition evicted_manager : manager := evict "abc123"%string persisted_manager.

Definition asked_again : result Session * manager :=
  get_or_create_session seconds_clock (Some "abc123"%string) no_kwargs
    "111111111111"%string evicted_manager.

(** A manager whose one cached session was last active at time 0 and
    times out after thirty minutes. *)
Definition idle_session : Session :=
  {| session_id := "abc123"%string; created_at := 0; last_activity := 0;
     claude_process_id := None; claude_session_id := None;
     message_count := 1; is_active := true; claude_working_dir := None;
     max_message_history := 50; timeout_minutes := 30;
     user_agent := None; client_ip := None; metadata := [] |}.

Definition idle_manager : manager :=
  {| sessions := {[ "abc123"%string := idle_session ]};
     db := {[ "abc123"%string := row_of_session idle_session ]};
     total_sessions_created := 1; ticks := 0 |}.

(** A clock that stands one microsecond past the thirtieth minute. *)
Definition late_clock (n : nat) : Z := 30 * 60 * 1000000 + 1.

Close Scope Z_scope.

End Sessions.

(** ** The task-list rendering, in the words of the specification

    An action label, a header line with the counts, and one line per item;
    the whole between two fences. *)

Module TaskList.
Import PyStr Json ContentParser.

Definition has_status (st : string) (t : todo) : bool :=
  match status t with
  | Some s => String.eqb s st
  | None => false
  end.

(** Updating when an item is in progress, else completing when every item
    is completed, else creating. *)
Definition action_label (todos : list todo) : string :=
  if existsb (has_status "in_progress") todos then "更新任务列表"
  else if forallb (has_status "completed") todos then "完成任务列表"
  else "创建任务列表".

(** A count is shown when it is not zero. *)
Definition shown_count (label : string) (n : nat) : string :=
  match n with
  | O => ""
  | _ => label ++ pretty n ++ " 项"
  end.

Definition header (todos : list todo) : string :=
  "📋 " ++ action_label todos
  ++ " (共 " ++ pretty (length todos) ++ " 项任务"
  ++ shown_count "，已完成 "
       (length (List.filter (has_status "completed") todos))
  ++ shown_count "，进行中 "
       (length (List.filter (has_status "in_progress") todos))
  ++ ")".

(** The emoji of the item's status (a missing status reads as pending). *)
Definition emoji_of (t : todo) : string :=
  status_emoji (get (status t) "pending").

(** The active form when it is not blank, otherwise the content. *)
Definition display_of (t : todo) : string :=
  match activeForm t with
  | Some a => if blank a then get (todo_content t) "" else a
  | None => get (todo_content t) ""
  end.

Definition item_line (t : todo) : string :=
  "  " ++ emoji_of t ++ " " ++ display_of t.

Definition concat_lines (ls : list string) : string :=
  fold_right (fun l acc => l ++ nl ++ acc) "" ls.

Definition task_list_rendering (todos : list todo) : string :=
  "```" ++ nl ++ header todos ++ nl
  ++ concat_lines (map item_line todos) ++ "```".

(** What the content parser writes instead: a fixed title and one line per
    item with the emoji and the content. *)
Definition plain_line (t : todo) : string :=
  emoji_of t ++ " " ++ get (todo_content t) "".

Definition plain_task_list (todos : list todo) : string :=
  "任务规划:" ++ nl ++ join nl (map plain_line todos).

(** The example of the specification. *)
Definition example_input : json :=
  JDict [("todos",
          JList [ JDict [ ("status", JStr "pending"); ("content", JStr "A") ];
                  JDict [ ("status", JStr "completed"); ("content", JStr "B");
                          ("activeForm", JStr "Doing B") ] ])].

Definition example_message : assistant_message :=
  {| message_id := Some "msg_1"; message_model := Some "claude";
     message_usage := None;
     message_content :=
       [ToolUseItem (Some "toolu_1") (Some "TodoWrite") (Some example_input)] |}.

End TaskList.

(** ** Server-sent event frames *)

Module Sse.
Import PyStr.

(** No line feed in [s]. *)
Definition one_line (s : string) : Prop := count_char LF s = 0.

(** One frame of an event stream: the field name, a payload that fits on
    one line, and the empty line that ends the event. *)
Definition well_formed_frame (f : string) : Prop :=
  exists payload, f = "data: " ++ payload ++ nl ++ nl /\ one_line payload.

End Sse.

(** ** services/api_key_service.py and utils/config.py: statistics and
    administration of the keys *)

Module ApiKeyAdmin.
Import PyStr Datetime ApiKey.

(** [Config.is_valid_api_key]. *)
Definition is_valid_api_key (config : Config) (k : string) : bool :=
  if negb (api_key_enabled config) then true
  else match get_api_key_config (api_keys config) k with
       | Some _ => true
       | None => false
       end.

(** [s[:n]]: the first [n] code points of [s].  A continuation byte belongs
    to the character before it. *)
Fixpoint take_chars (n : nat) (s : string) : string :=
  match s with
  | "" => ""
  | String c rest =>
      if is_continuation c then String c (take_chars n rest)
      else match n with
           | O => ""
           | S n' => String c (take_chars n' rest)
           end
  end.

(** [api_key[:8] + "..."]: what the statistics show of a key. *)
Definition masked (k : string) : string := take_chars 8 k ++ "...".

(** A number on at least [width] digits, as [%0{width}d] prints it. *)
Definition zero_padded (width : nat) (n : Z) : string :=
  let digits := pretty n in
  String.concat "" (repeat "0" (width - String.length digits)) ++ digits.

(** [t.isoformat()] of an aware datetime in UTC. *)
Definition isoformat (t : datetime) : string :=
  zero_padded 4 (year t) ++ "-" ++ zero_padded 2 (month t) ++ "-"
  ++ zero_padded 2 (day t) ++ "T" ++ zero_padded 2 (hour t) ++ ":"
  ++ zero_padded 2 (minute t) ++ ":" ++ zero_padded 2 (second t)
  ++ (if (microsecond t =? 0)%Z then ""
      else "." ++ zero_padded 6 (microsecond t))
  ++ "+00:00".

(** The dict [get_usage_stats] returns. *)
Record usage_stats : Set := {
  stats_api_key : string;
  stats_current_period_requests : Z;
  stats_max_requests : Z;
  stats_period : RateLimitPeriod;
  stats_period_start : string;
  stats_period_end : string;
  stats_last_used : option string;
  remaining_requests : Z
}.

(** [reset_usage]: the record of the key is dropped. *)
Definition reset_usage (k : string) (w : world) : bool * world :=
  match _usage_storage w !! k with
  | Some _ =>
      (true, {| _usage_storage := delete k (_usage_storage w);
                ticks := ticks w |})
  | None => (false, w)
  end.

Section Service.

Variable clock : nat -> datetime.

Variable config : Config.

(** [get_usage_stats]: no [try] around it, an exception of the datetime
    arithmetic goes up to the caller. *)
Definition get_usage_stats (k : string) : M (option usage_stats) :=
  if negb (api_key_enabled config) then ret None
  else
    match get_api_key_config (api_keys config) k with
    | None => ret None
    | Some api_key_config =>
        usage <- _get_or_create_usage clock api_key_config ;;
        ret (Some
               {| stats_api_key := masked k;
                  stats_current_period_requests :=
                    current_period_requests usage;
                  stats_max_requests := max_requests api_key_config;
                  stats_period := period api_key_config;
                  stats_period_start := isoformat (period_start usage);
                  stats_period_end := isoformat (period_end usage);
                  stats_last_used := isoformat <$> last_used usage;
                  remaining_requests :=
                    (max_requests api_key_config
                     - current_period_requests usage)%Z |})
  end.

(** The calls a client of the service makes, and the worlds a sequence of
    them goes through. *)
Inductive call : Set :=
| Validate (k : string)
| Stats (k : string)
| Reset (k : string).

Definition step (w : world) (c : call) : world :=
  match c with
  | Validate k => snd (validate_api_key clock config k w)
  | Stats k => snd (get_usage_stats k w)
  | Reset k => snd (reset_usage k w)
  end.

Definition run (w : world) (calls : list call) : world :=
  fold_left step calls w.

End Service.

(** Every usage record belongs to a configured key and its counter lies
    between 0 and the quota of that key. *)
Definition within_quota (config : Config) (w : world) : Prop :=
  forall k u,
    _usage_storage w !! k = Some u ->
    exists cfg,
      get_api_key_config (api_keys config) k = Some cfg /\
      (0 <= current_period_requests u <= max_requests cfg)%Z.

(** The quotas pydantic accepts: [max_requests] is [Field(..., gt=0)]. *)
Definition positive_quotas (config : Config) : Prop :=
  Forall (fun cfg => (0 < max_requests cfg)%Z) (api_keys config).

(** A clock all of whose readings are datetimes before the last year. *)
Definition sound_clock (clock : nat -> datetime) : Prop :=
  forall n, valid (clock n) /\ (year (clock n) < MAXYEAR)%Z.

End ApiKeyAdmin.

(** ** models/session.py and services/session_manager.py: listings and
    sweeps *)

Module SessionSweeps.
Import PyStr Json Sessions.

Open Scope Z_scope.

(** [SessionInfo]. *)
Record SessionInfo : Type := {
  info_session_id : string;
  info_created_at : Z;
  info_last_activity : Z;
  info_message_count : Z;
  info_is_active : bool;
  age_seconds : Z;
  idle_seconds : Z;
  info_is_expired : bool;
  info_metadata : list (string * json)
}.

(** [int(delta.total_seconds())] for a difference of [us] microseconds. *)
Definition whole_seconds (us : Z) : Z := Z.quot us 1000000.

Record SessionListResponse : Type := {
  listed : list SessionInfo;
  total_count : nat;
  active_count : nat;
  expired_count : nat
}.

Section Listing.

Variable clock : nat -> Z.

(** [SessionInfo.from_session]: the clock is read once for [now] and once
    more by [is_expired]. *)
Definition from_session (s : Session) (tick : nat) : SessionInfo * nat :=
  let now := clock tick in
  ({| info_session_id := session_id s;
      info_created_at := created_at s;
      info_last_activity := last_activity s;
      info_message_count := message_count s;
      info_is_active := is_active s;
      age_seconds := whole_seconds (now - created_at s);
      idle_seconds := whole_seconds (now - last_activity s);
      info_is_expired := is_expired s (clock (S tick));
      info_metadata := metadata s |},
   S (S tick)).

(** [[SessionInfo.from_session(session) for session in sessions]]. *)
Fixpoint session_infos (ss : list Session) (tick : nat)
  : list SessionInfo * nat :=
  match ss with
  | [] => ([], tick)
  | s :: rest =>
      let '(info, tick) := from_session s tick in
      let '(infos, tick) := session_infos rest tick in
      (info :: infos, tick)
  end.

(** [SessionListResponse.create_from_sessions]. *)
Definition create_from_sessions (ss : list Session) (tick : nat)
  : SessionListResponse * nat :=
  let '(infos, tick) := session_infos ss tick in
  ({| listed := infos;
      total_count := length infos;
      active_count :=
        length (filter (fun info => info_is_active info
                                    && negb (info_is_expired info)) infos);
      expired_count := length (filter info_is_expired infos) |},
   tick).

End Listing.

Section Sweeps.

Variable clock : nat -> Z.

(** [list(d.items())]: a dict is enumerated in the order of insertion,
    which the map does not record; the enumeration is given. *)
Variable items : gmap string Session -> list (string * Session).

(** The loop of [cleanup_all_sessions] and of [cleanup_expired_sessions]:
    [cleaned_count] counts the removals that answer [True]. *)
Fixpoint remove_each (session_ids : list string) (cleaned_count : nat)
  : M nat :=
  match session_ids with
  | [] => ret cleaned_count
  | sid :: rest =>
      removed <- remove_session clock sid ;;
      remove_each rest
        (if removed : bool then S cleaned_count else cleaned_count)
  end.

Definition cleanup_all_sessions : M nat :=
  m <- get_state ;;
  let session_ids := (items (sessions m)).*1 in
  remove_each session_ids 0.

(** [get_session_count]. *)
Definition get_session_count (m : manager) : nat := size (sessions m).

End Sweeps.

(** What is asked of the enumeration of a dict: every item once. *)
Definition enumerates (items : gmap string Session -> list (string * Session))
  : Prop :=
  forall d, NoDup (items d).*1 /\
            forall k s, (k, s) ∈ items d <-> d !! k = Some s.

End SessionSweeps.

(** ** models/message.py *)

Module Messages.
Import PyStr Json.

Inductive MessageRole : Set := SYSTEM | USER | ASSISTANT.

Inductive ContentType : Set := TEXT | IMAGE_URL.

Record ContentPart : Type := {
  part_type : ContentType;
  part_text : option string;
  image_url : option (list (string * string))
}.

(** [Union[str, List[ContentPart]]]. *)
Inductive Content : Type :=
| Str (s : string)
| Parts (parts : list ContentPart).

Record ChatMessage : Type := {
  role : MessageRole;
  content : Content;
  name : option string;
  function_call : option json
}.

Definition is_role (r : MessageRole) (m : ChatMessage) : bool :=
  match r, role m with
  | SYSTEM, SYSTEM | USER, USER | ASSISTANT, ASSISTANT => true
  | _, _ => false
  end.

(** [not v] on a content: the empty string or the empty list. *)
Definition falsy (v : Content) : bool :=
  match v with
  | Str s => negb (truthy s)
  | Parts [] => true
  | Parts _ => false
  end.

(** [ChatMessage.validate_content]: the [ValueError] it raises, if any. *)
Definition validate_content (r : MessageRole) (v : Content) : option string :=
  match r with
  | SYSTEM =>
      if falsy v then Some "System message content cannot be empty" else None
  | USER =>
      if falsy v then Some "User message content cannot be empty" else None
  | ASSISTANT => None
  end.

(** [get_text_content]. *)
Definition get_text_content (m : ChatMessage) : string :=
  match content m with
  | Str s => s
  | Parts parts =>
      let text_parts :=
        flat_map (fun part =>
                    match part_type part, part_text part with
                    | TEXT, Some text => if truthy text then [text] else []
                    | _, _ => []
                    end) parts in
      join nl text_parts
  end.

(** The loop of [validate_messages] from the second message on; [prev] is
    the message before. *)
Fixpoint check_order (prev : ChatMessage) (rest : list ChatMessage)
  : option string :=
  match rest with
  | [] => None
  | message :: rest' =>
      if is_role SYSTEM message
      then Some "System messages must be at the beginning"
      else if is_role ASSISTANT message && is_role ASSISTANT prev
      then Some "Consecutive assistant messages are not allowed"
      else check_order message rest'
  end.

(** [ChatCompletionRequest.validate_messages]: the [ValueError] it raises,
    if any. *)
Definition validate_messages (v : list ChatMessage) : option string :=
  match v with
  | [] => Some "Messages list cannot be empty"
  | first :: rest => check_order first rest
  end.

(** [get_last_user_message]: the first user message of the reversed list. *)
Definition get_last_user_message (messages : list ChatMessage)
  : option ChatMessage :=
  List.find (is_role USER) (rev messages).

Definition get_system_message (messages : list ChatMessage)
  : option ChatMessage :=
  match messages with
  | first :: _ => if is_role SYSTEM first then Some first else None
  | [] => None
  end.

Definition get_conversation_history (messages : list ChatMessage)
  : list ChatMessage :=
  match messages with
  | first :: rest => if is_role SYSTEM first then rest else messages
  | [] => messages
  end.

(** One turn of the prompt: whatever is not a user message is labelled as
    the assistant's. *)
Definition turn (message : ChatMessage) : string :=
  (if is_role USER message then "Human" else "Assistant")
  ++ ": " ++ get_text_content message.

(** [to_claude_prompt]. *)
Definition to_claude_prompt (messages : list ChatMessage) : string :=
  let system_part :=
    match get_system_message messages with
    | Some system_msg => ["System: " ++ get_text_content system_msg]
    | None => []
    end in
  let conversation_history := get_conversation_history messages in
  let prompt_parts := (system_part ++ map turn conversation_history)%list in
  match prompt_parts with
  | [] => ""
  | _ =>
      let prompt_parts :=
        match List.last (map Some conversation_history) None with
        | Some last_message =>
            if negb (is_role USER last_message)
            then (prompt_parts ++ ["Human: "])%list
            else prompt_parts
        | None => prompt_parts
        end in
      join (nl ++ nl) prompt_parts
  end.

(** A message under the name of its own role. *)
Definition labelled (message : ChatMessage) : string :=
  match role message with
  | SYSTEM => "System"
  | USER => "Human"
  | ASSISTANT => "Assistant"
  end ++ ": " ++ get_text_content message.

(** The open turn that invites the answer, after a conversation whose last
    message is not the user's. *)
Definition cue (conversation_history : list ChatMessage) : list string :=
  match List.last (map Some conversation_history) None with
  | Some last_message =>
      if is_role USER last_message then [] else ["Human: "]
  | None => []
  end.

(** Two assistant messages in a row. *)
Definition consecutive_assistants (v : list ChatMessage) : Prop :=
  exists before a b after,
    v = (before ++ a :: b :: after)%list /\
    is_role ASSISTANT a = true /\ is_role ASSISTANT b = true.

(** A conversation that opens with a system message and ends with the
    assistant's answer. *)
Definition message (r : MessageRole) (text : string) : ChatMessage :=
  {| role := r; content := Str text; name := None; function_call := None |}.

Definition example_conversation : list ChatMessage :=
  [ message SYSTEM "Be brief"; message USER "Hello";
    message ASSISTANT "Hi" ].

End Messages.

(** ** services/session_manager.py: the messages of a session *)

Module SessionMessages.
Import PyStr Json Sessions Messages.

(** A row of the [session_messages] table, without the [id] and the
    [timestamp] that SQLite assigns. *)
Record message_row : Type := {
  row_session_id : string;
  row_role : string;
  row_content : string;
  row_claude_session_id : option string
}.

(** [MessageRole.value]. *)
Definition role_value (r : MessageRole) : string :=
  match r with
  | SYSTEM => "system"
  | USER => "user"
  | ASSISTANT => "assistant"
  end.

(** [DatabaseManager.add_message_to_session]: the INSERT; a content that is
    not a string cannot be bound to the statement, the error is logged and
    [False] returned.  The connection never turns [foreign_keys] on, so
    SQLite does not ask for a row of the session. *)
Definition db_add_message (session_id : string) (message : ChatMessage)
    (claude_session_id : option string) (rows : list message_row)
  : bool * list message_row :=
  match content message with
  | Str text =>
      (true,
       (rows ++ [{| row_session_id := session_id;
                    row_role := role_value (role message);
                    row_content := text;
                    row_claude_session_id := claude_session_id |}])%list)
  | Parts _ => (false, rows)
  end.

Section Manager.

Variable clock : nat -> Z.

(** [SessionManager.add_message_to_session].  The session is the object the
    memory holds, so what is set on it is set in the memory.  The first
    [update_session] of the store is called and never awaited: its argument
    is built, which reads the clock, and nothing is written. *)
Definition add_message_to_session (session_id : string)
    (message : ChatMessage) (claude_session_id : option string)
    (hex : string) (st : manager * list message_row)
  : result Session * (manager * list message_row) :=
  let '(m, rows) := st in
  match get_or_create_session clock (Some session_id) no_kwargs hex m with
  | (Raise e, m1) => (Raise e, (m1, rows))
  | (Ok session, m1) =>
      let held_under :=
        if truthy session_id then session_id
        else Sessions.session_id session in
      let given := match claude_session_id with
                   | Some c => truthy c
                   | None => false
                   end in
      let session :=
        if given then with_claude_session_id session claude_session_id
        else session in
      let tick := if given then S (ticks m1) else ticks m1 in
      let session := update_activity session (clock tick) in
      let m2 :=
        {| sessions := <[held_under := session]> (sessions m1);
           db := db_update_session session_id
                   (only_last_activity (last_activity session)) (db m1);
           total_sessions_created := total_sessions_created m1;
           ticks := S tick |} in
      (Ok session,
       (m2, snd (db_add_message session_id message claude_session_id rows)))
  end.

End Manager.

End SessionMessages.

(** ** services/stream_service.py: the shape of a stream *)

Module StreamShape.
Import PyStr Json ContentParser StreamService.

(** [line.strip()] is truthy. *)
Definition nonblank (line : string) : bool := negb (blank line).

Definition has_class (t : ContentType) (line : string) : bool :=
  match t, _classify_text_content line with
  | ERROR_HANDLING, ERROR_HANDLING | PLANNING, PLANNING
  | THINKING, THINKING | EXECUTION, EXECUTION | ANALYSIS, ANALYSIS
  | REGULAR_TEXT, REGULAR_TEXT => true
  | _, _ => false
  end.

(** The lines that get a chunk of their own: the non-blank lines that are
    not classified as analysis. *)
Definition shown (line : string) : bool :=
  nonblank line && negb (has_class ANALYSIS line).

(** The number of non-blank lines of a class. *)
Definition count_class (t : ContentType) (lines : list string) : nat :=
  length (List.filter (has_class t) (List.filter nonblank lines)).

End StreamShape.

(** ** services/claude_service.py: the lines of the output reader *)

Module ReaderLines.
Import ClaudeProcess.

Open Scope Z_scope.
Open Scope list_scope.

(** A byte that opens no UTF-8 sequence: a continuation byte, the lead
    bytes C0 and C1 of the overlong forms, and F5 to FF. *)
Definition invalid_start (b : Z) : Prop :=
  0x80 <= b < 0xC2 \/ 0xF4 < b.

(** No line feed in [l]. *)
Definition lf_free (l : list Z) : Prop := 10 ∉ l.

(** [ls] terminated by line feeds, followed by [remainder]. *)
Definition terminated (ls : list (list Z)) (remainder : list Z) : list Z :=
  flat_map (fun l => l ++ [10]) ls ++ remainder.

Close Scope list_scope.
Close Scope Z_scope.

End ReaderLines.

(** ** services/claude_service.py: looking processes up and counting them *)

Module ProcessLookup.
Import PyStr ClaudeService.

(** [get_process]. *)
Definition get_process (pid : string) (s : service) : option nat :=
  active_processes s !! pid.

(** [get_process_by_session]. *)
Definition get_process_by_session (sid : string) (s : service) : option nat :=
  session_processes s !! sid.

(** [get_active_process_count]. *)
Definition get_active_process_count (s : service) : nat :=
  size (active_processes s).

(** [get_session_process_count]. *)
Definition get_session_process_count (s : service) : nat :=
  size (session_processes s).

(** No process object is running. *)
Definition all_stopped (s : service) : Prop :=
  Forall (fun h => is_running h = false) (heap s).

End ProcessLookup.

(** * Properties *)

(** ** Strings *)

Module PyStrFacts.
Import PyStr.

Lemma app_cons (c : ascii) (a b : string) :
  String c a ++ b = String c (a ++ b).
Proof. reflexivity. Qed.

Lemma app_nil_l (s : string) : "" ++ s = s.
Proof. reflexivity. Qed.

Lemma app_nil_r (s : string) : s ++ "" = s.
Proof.
  induction s as [|c s IH]; [reflexivity |]. now rewrite app_cons, IH.
Qed.

Lemma app_assoc (a b c : string) : (a ++ b) ++ c = a ++ (b ++ c).
Proof.
  induction a as [|x a IH]; [reflexivity |]. now rewrite !app_cons, IH.
Qed.

Lemma prefix_app (kw rest : string) : String.prefix kw (kw ++ rest) = true.
Proof.
  induction kw as [|c kw IH]; [now destruct rest |].
  rewrite app_cons. simpl.
  destruct (ascii_dec c c) as [_|ne]; [exact IH | now destruct ne].
Qed.

Lemma prefix_inv (kw text : string) :
  String.prefix kw text = true -> exists rest, text = kw ++ rest.
Proof.
  revert text; induction kw as [|c kw IH]; intros text H.
  - now exists text.
  - destruct text as [|d text]; simpl in H; [discriminate |].
    destruct (ascii_dec c d) as [->|]; [| discriminate].
    destruct (IH _ H) as [rest ->]. now exists rest.
Qed.

Lemma contains_unfold (kw text : string) :
  contains kw text =
  String.prefix kw text ||
  match text with "" => false | String _ rest => contains kw rest end.
Proof. now destruct text. Qed.

Lemma contains_app_r (kw pre post : string) :
  contains kw post = true -> contains kw (pre ++ post) = true.
Proof.
  intros H. induction pre as [|c pre IH]; [exact H |].
  rewrite app_cons, contains_unfold, IH. apply orb_true_r.
Qed.

Lemma contains_prefix (kw post : string) : contains kw (kw ++ post) = true.
Proof. now rewrite contains_unfold, prefix_app. Qed.

(** [contains] is the substring relation. *)
Lemma contains_iff (kw text : string) :
  contains kw text = true <-> exists pre post, text = pre ++ kw ++ post.
Proof.
  split.
  - induction text as [|c text IH]; rewrite contains_unfold; intros H.
    + rewrite orb_false_r in H. destruct (prefix_inv _ _ H) as [rest ->].
      now exists "", rest.
    + apply orb_true_iff in H as [H|H].
      * destruct (prefix_inv _ _ H) as [rest ->]. now exists "", rest.
      * destruct (IH H) as (pre & post & ->). now exists (String c pre), post.
  - intros (pre & post & ->).
    apply contains_app_r, contains_prefix.
Qed.

Lemma contains_trans (a b c : string) :
  contains a b = true -> contains b c = true -> contains a c = true.
Proof.
  rewrite !contains_iff.
  intros (p1 & s1 & ->) (p2 & s2 & ->).
  exists (p2 ++ p1), (s1 ++ s2). now rewrite !app_assoc.
Qed.

Lemma lower_app (a b : string) : lower (a ++ b) = lower a ++ lower b.
Proof.
  induction a as [|c a IH]; [reflexivity |].
  rewrite app_cons. simpl. now rewrite app_cons, IH.
Qed.

(** A substring stays one when both sides are lowered. *)
Lemma contains_lower (kw text : string) :
  contains kw text = true -> contains (lower kw) (lower text) = true.
Proof.
  rewrite !contains_iff. intros (pre & post & ->).
  exists (lower pre), (lower post). now rewrite !lower_app.
Qed.

(** No capital letter survives [lower]. *)
Lemma lower_char_not_capital (c : ascii) :
  let n := N_of_ascii (lower_char c) in ((65 <=? n) && (n <=? 90))%N = false.
Proof.
  destruct c as [[] [] [] [] [] [] [] []]; reflexivity.
Qed.

(** A keyword that starts with a capital is found in no lowered text. *)
Lemma capital_never_in_lower (c : ascii) (kw text : string) :
  ((65 <=? N_of_ascii c) && (N_of_ascii c <=? 90))%N = true ->
  contains (String c kw) (lower text) = false.
Proof.
  intros Hc. induction text as [|d text IH]; [reflexivity |].
  cbn [lower]. rewrite contains_unfold, IH, orb_false_r. simpl.
  destruct (ascii_dec c (lower_char d)) as [->|]; [| reflexivity].
  pose proof (lower_char_not_capital d) as H. simpl in H. congruence.
Qed.

End PyStrFacts.

(** ** The content parser and the task board *)

Module ContentParserFacts.
Import PyStr Json ContentParser ClaudeProcess TaskList PyStrFacts.

Lemma matches_true (kws : list string) (kw text_lower : string) :
  In kw kws -> contains kw text_lower = true -> matches kws text_lower = true.
Proof.
  intros Hin Hc. unfold matches, any. apply existsb_exists. now exists kw.
Qed.

(** Every error keyword, lowered, still holds an error keyword. *)
Lemma error_keyword_lowered (kw : string) :
  In kw error_keywords ->
  exists kw', In kw' error_keywords /\ contains kw' (lower kw) = true.
Proof.
  intros Hin.
  assert (forallb (fun k => existsb (fun k' => contains k' (lower k))
                              error_keywords) error_keywords = true) as Hall
    by (vm_compute; reflexivity).
  rewrite forallb_forall in Hall. specialize (Hall kw Hin).
  apply existsb_exists in Hall as (kw' & Hin' & Hc). now exists kw'.
Qed.

(** A text that holds an error keyword is classified as error handling,
    whatever else it holds: the error table is tested first. *)
Lemma error_outranks (text kw : string) :
  In kw error_keywords -> contains kw text = true ->
  _classify_text_content text = ERROR_HANDLING.
Proof.
  intros Hin Hc. unfold _classify_text_content.
  destruct (error_keyword_lowered kw Hin) as (kw' & Hin' & Hsub).
  rewrite (matches_true error_keywords kw'); [reflexivity | exact Hin' |].
  eapply contains_trans; [exact Hsub |]. now apply contains_lower.
Qed.

(** The tables are tested in the order error, planning, thinking,
    execution, analysis; the first that matches decides. *)
Lemma classification_order (text : string) :
  let t := lower text in
  (matches error_keywords t = true ->
   _classify_text_content text = ERROR_HANDLING) /\
  (matches error_keywords t = false -> matches planning_keywords t = true ->
   _classify_text_content text = PLANNING) /\
  (matches error_keywords t = false -> matches planning_keywords t = false ->
   matches thinking_keywords t = true ->
   _classify_text_content text = THINKING) /\
  (matches error_keywords t = false -> matches planning_keywords t = false ->
   matches thinking_keywords t = false -> matches execution_keywords t = true ->
   _classify_text_content text = EXECUTION) /\
  (matches error_keywords t = false -> matches planning_keywords t = false ->
   matches thinking_keywords t = false -> matches execution_keywords t = false ->
   matches analysis_keywords t = true ->
   _classify_text_content text = ANALYSIS) /\
  (matches error_keywords t = false -> matches planning_keywords t = false ->
   matches thinking_keywords t = false -> matches execution_keywords t = false ->
   matches analysis_keywords t = false ->
   _classify_text_content text = REGULAR_TEXT).
Proof.
  unfold _classify_text_content. cbv zeta.
  repeat split; intros; repeat match goal with
  | H : matches _ _ = _ |- _ => rewrite H; clear H
  end; reflexivity.
Qed.

(** The text is lowered and the keyword is not: a keyword written with a
    capital first letter is found in no text at all. *)
Lemma TodoWrite_never_found (text : string) :
  contains "TodoWrite" (lower text) = false.
Proof. now apply capital_never_in_lower. Qed.

(** C7: on the line ["TodoWrite"], which holds the planning keyword
    [TodoWrite] and no error keyword, the classifier answers regular text
    and not planning. *)
Theorem classify_TodoWrite_regular_text :
  matches error_keywords "TodoWrite" = false /\
  In "TodoWrite" planning_keywords /\
  _classify_text_content "TodoWrite" = REGULAR_TEXT.
Proof.
  split; [reflexivity |]. split; [| reflexivity].
  unfold planning_keywords. simpl. tauto.
Qed.

(** *** The task board *)

Lemma count_status_filter (st : string) (todos : list todo) :
  count_status st todos = length (List.filter (has_status st) todos).
Proof.
  unfold count_status. induction todos as [|t ts IH]; [reflexivity |].
  rewrite filter_cons. simpl. unfold has_status at 1.
  destruct (status t) as [s|].
  - destruct (String.eqb_spec s st) as [->|ne].
    + rewrite decide_True by reflexivity. simpl. now rewrite IH.
    + rewrite decide_False by congruence. exact IH.
  - rewrite decide_False by discriminate. exact IH.
Qed.

Lemma some_filtered {A} (f : A -> bool) (l : list A) :
  (0 <? length (List.filter f l))%nat = existsb f l.
Proof.
  induction l as [|x l IH]; [reflexivity |].
  simpl. destruct (f x); simpl; [reflexivity | exact IH].
Qed.

Lemma filter_length_le {A} (f : A -> bool) (l : list A) :
  (length (List.filter f l) <= length l)%nat.
Proof.
  induction l as [|x l IH]; simpl; [lia |]. destruct (f x); simpl; lia.
Qed.

Lemma all_filtered {A} (f : A -> bool) (l : list A) :
  (length (List.filter f l) =? length l)%nat = forallb f l.
Proof.
  induction l as [|x l IH]; [reflexivity |].
  simpl. destruct (f x); simpl; [exact IH |].
  apply Nat.eqb_neq. pose proof (filter_length_le f l). lia.
Qed.

Lemma display_content_of (t : todo) : display_content t = display_of t.
Proof.
  unfold display_content, display_of, get, truthy.
  destruct (activeForm t) as [a|]; [| reflexivity].
  destruct a as [|c a]; [reflexivity |].
  simpl. now destruct (is_space c && blank a).
Qed.

Lemma shown_count_app (result label : string) (n : nat) :
  (if (0 <? n)%nat then result ++ label ++ pretty n ++ " 项"
   else result) = result ++ shown_count label n.
Proof.
  destruct n; simpl; [now rewrite app_nil_r | reflexivity].
Qed.

Lemma fold_item_lines (todos : list todo) (result : string) :
  fold_left
    (fun acc t =>
       acc ++ "  " ++ status_emoji (get (status t) "pending")
           ++ " " ++ display_content t ++ nl)
    todos result
  = result ++ concat_lines (map item_line todos).
Proof.
  revert result. induction todos as [|t ts IH]; intros result.
  - simpl. now rewrite app_nil_r.
  - simpl. rewrite IH. unfold item_line, emoji_of.
    rewrite display_content_of, !app_assoc. reflexivity.
Qed.

(** The process manager renders a non-empty todo list as the task list of
    the specification. *)
Lemma format_todo_write_display_spec (tool_input : json) :
  todos_of tool_input <> nil ->
  _format_todo_write_display tool_input
  = task_list_rendering (todos_of tool_input).
Proof.
  intros Hne. unfold _format_todo_write_display.
  destruct (todos_of tool_input) as [|t ts] eqn:E; [contradiction |].
  cbv beta iota zeta. rewrite !count_status_filter.
  rewrite !shown_count_app, fold_item_lines.
  unfold task_list_rendering, header, action_label, fence.
  rewrite some_filtered, all_filtered, !app_assoc. reflexivity.
Qed.

(** The content parser writes a non-empty todo list under its own title. *)
Lemma format_todo_content_spec (tool_input : json) :
  todos_of tool_input <> nil ->
  _format_todo_content tool_input = plain_task_list (todos_of tool_input).
Proof.
  intros Hne. unfold _format_todo_content.
  destruct (todos_of tool_input) as [|t ts] eqn:E; [contradiction |].
  reflexivity.
Qed.

(** The task list of the example: the label is the creating one and the
    second line shows the active form. *)
Lemma example_task_list :
  action_label (todos_of example_input) = "创建任务列表" /\
  map item_line (todos_of example_input) = ["  ⏳ A"; "  ✅ Doing B"]%list.
Proof. split; reflexivity. Qed.

(** C2, as stated, fails for the content parser: on the example of the
    specification the content it produces for the TodoWrite item is the
    plain list under the title, without an action label and with the
    content [B] where the task list shows the active form. *)
Lemma content_parser_rendering_counterexample :
  exists pc,
    _parse_assistant_content example_message None = Some pc /\
    content pc = "任务规划:" ++ nl ++ "⏳ A" ++ nl ++ "✅ B" /\
    contains "创建任务列表" (content pc) = false /\
    contains "  ✅ Doing B" (content pc) = false /\
    content pc <> task_list_rendering (todos_of example_input).
Proof.
  eexists. split; [reflexivity |].
  split; [reflexivity |]. split; [reflexivity |]. split; [reflexivity |].
  vm_compute. discriminate.
Qed.

(** C2, amended: for a TodoWrite item with a non-empty todo list, the
    process manager's display is the task-list rendering (action label,
    header with the counts, one line per item showing the active form when
    it is not blank and the content otherwise), and on the example its
    label is the creating one and the line of item B shows [Doing B]; the
    content parser classifies the item as planning and its content is the
    plain list under its title, the non-blank active forms going to the
    metadata. *)
Theorem todo_rendering_by_component (msg : assistant_message)
    (sid id : option string) (tool_input : json) (rest : list content_item) :
  todos_of tool_input <> nil ->
  message_content msg
  = (ToolUseItem id (Some "TodoWrite") (Some tool_input) :: rest)%list ->
  _format_todo_write_display tool_input
  = task_list_rendering (todos_of tool_input) /\
  (exists pc,
     _parse_assistant_content msg sid = Some pc /\
     content_type pc = PLANNING /\
     content pc = plain_task_list (todos_of tool_input) /\
     assoc "active_forms" (metadata pc)
     = Some (JList (map JStr (extract_active_forms tool_input)))) /\
  action_label (todos_of example_input) = "创建任务列表" /\
  nth_error (map item_line (todos_of example_input)) 1 = Some "  ✅ Doing B".
Proof.
  intros Hne Hitems. split; [now apply format_todo_write_display_spec |].
  split; [| split; reflexivity].
  unfold _parse_assistant_content. rewrite Hitems. simpl.
  eexists. split; [reflexivity |]. simpl.
  split; [reflexivity |]. split; [| reflexivity].
  now apply format_todo_content_spec.
Qed.

Lemma todo_rendering_by_component_witness :
  todos_of example_input <> nil /\
  _format_todo_write_display example_input
  = task_list_rendering (todos_of example_input).
Proof.
  assert (todos_of example_input <> nil) as Hne by (vm_compute; discriminate).
  split; [exact Hne |].
  exact (proj1 (todo_rendering_by_component example_message None
                  (Some "toolu_1") example_input [] Hne eq_refl)).
Defined.

End ContentParserFacts.

(** ** The output reader *)

Module ReaderFacts.
Import ClaudeProcess.

Open Scope Z_scope.
Open Scope list_scope.

(** Decide the comparisons of the goal from the hypotheses. *)
Ltac decide_cmp :=
  repeat match goal with
  | |- context [?a <=? ?b] =>
      first [ rewrite (proj2 (Z.leb_le a b)) by lia
            | rewrite (proj2 (Z.leb_gt a b)) by lia ]
  | |- context [?a <? ?b] =>
      first [ rewrite (proj2 (Z.ltb_lt a b)) by lia
            | rewrite (proj2 (Z.ltb_ge a b)) by lia ]
  | |- context [?a =? ?b] =>
      first [ rewrite (proj2 (Z.eqb_eq a b)) by lia
            | rewrite (proj2 (Z.eqb_neq a b)) by lia ]
  end.

Lemma cont_true (b : Z) : 0x80 <= b <= 0xBF -> cont b = true.
Proof. intros H. unfold cont. now decide_cmp. Qed.

(** *** The decoder on one well-formed sequence and on its prefixes *)

Lemma decode_1 (b : Z) : 0 <= b < 0x80 -> utf8_decode [b] = Some [b].
Proof. intros H. simpl. now decide_cmp. Qed.

Lemma decode_2 (b0 b1 : Z) :
  0xC2 <= b0 <= 0xDF -> cont b1 = true ->
  utf8_decode [b0; b1] = Some [(b0 - 0xC0) * 64 + (b1 - 0x80)].
Proof. intros H0 H1. simpl. decide_cmp. simpl. now rewrite H1. Qed.

Lemma decode_3 (b0 b1 b2 : Z) :
  0xE0 <= b0 <= 0xEF -> second3 b0 b1 = true -> cont b2 = true ->
  utf8_decode [b0; b1; b2]
  = Some [(b0 - 0xE0) * 4096 + (b1 - 0x80) * 64 + (b2 - 0x80)].
Proof. intros H0 H1 H2. simpl. decide_cmp. simpl. now rewrite H1, H2. Qed.

Lemma decode_4 (b0 b1 b2 b3 : Z) :
  0xF0 <= b0 <= 0xF4 -> second4 b0 b1 = true -> cont b2 = true ->
  cont b3 = true ->
  utf8_decode [b0; b1; b2; b3]
  = Some [(b0 - 0xF0) * 262144 + (b1 - 0x80) * 4096
          + (b2 - 0x80) * 64 + (b3 - 0x80)].
Proof.
  intros H0 H1 H2 H3. simpl. decide_cmp. simpl. now rewrite H1, H2, H3.
Qed.

(** A lead byte alone, or followed by too few bytes, does not decode. *)
Lemma decode_short_1 (b0 : Z) : 0x80 <= b0 -> utf8_decode [b0] = None.
Proof.
  intros H. simpl. decide_cmp. rewrite andb_false_r.
  repeat match goal with
  | |- (if ?c then _ else _) = None => destruct c; try reflexivity
  end.
Qed.

Lemma decode_short_2 (b0 b1 : Z) : 0xE0 <= b0 -> utf8_decode [b0; b1] = None.
Proof.
  intros H. simpl. decide_cmp. rewrite !andb_false_r.
  repeat match goal with
  | |- (if ?c then _ else _) = None => destruct c; try reflexivity
  end.
Qed.

Lemma decode_short_3 (b0 b1 b2 : Z) :
  0xF0 <= b0 -> utf8_decode [b0; b1; b2] = None.
Proof.
  intros H. simpl. decide_cmp. rewrite !andb_false_r.
  repeat match goal with
  | |- (if ?c then _ else _) = None => destruct c; try reflexivity
  end.
Qed.

(** *** The encoding of a scalar value *)

Inductive encoded (c : Z) : list Z -> Prop :=
| enc1 : 0 <= c < 0x80 -> encoded c [c]
| enc2 b0 b1 :
    0xC2 <= b0 <= 0xDF -> cont b1 = true ->
    (b0 - 0xC0) * 64 + (b1 - 0x80) = c -> encoded c [b0; b1]
| enc3 b0 b1 b2 :
    0xE0 <= b0 <= 0xEF -> second3 b0 b1 = true -> cont b2 = true ->
    (b0 - 0xE0) * 4096 + (b1 - 0x80) * 64 + (b2 - 0x80) = c ->
    encoded c [b0; b1; b2]
| enc4 b0 b1 b2 b3 :
    0xF0 <= b0 <= 0xF4 -> second4 b0 b1 = true -> cont b2 = true ->
    cont b3 = true ->
    (b0 - 0xF0) * 262144 + (b1 - 0x80) * 4096 + (b2 - 0x80) * 64
    + (b3 - 0x80) = c ->
    encoded c [b0; b1; b2; b3].

Lemma encode_char_encoded (c : Z) : scalar c -> encoded c (utf8_encode_char c).
Proof.
  intros [Hr Hs]. unfold utf8_encode_char.
  destruct (Z.ltb_spec c 0x80); [apply enc1; lia |].
  destruct (Z.ltb_spec c 0x800).
  { apply enc2; [| apply cont_true |]; Z.div_mod_to_equations; lia. }
  destruct (Z.ltb_spec c 0x10000).
  { apply enc3; [| | apply cont_true |].
    - Z.div_mod_to_equations; lia.
    - unfold second3.
      destruct (Z.eqb_spec (0xE0 + c / 4096) 0xE0);
        [| destruct (Z.eqb_spec (0xE0 + c / 4096) 0xED);
           [| apply cont_true]];
        decide_cmp; try reflexivity; Z.div_mod_to_equations; lia.
    - Z.div_mod_to_equations; lia.
    - Z.div_mod_to_equations; lia. }
  apply enc4; [| | apply cont_true | apply cont_true |].
  - Z.div_mod_to_equations; lia.
  - unfold second4.
    destruct (Z.eqb_spec (0xF0 + c / 262144) 0xF0);
      [| destruct (Z.eqb_spec (0xF0 + c / 262144) 0xF4);
         [| apply cont_true]];
      decide_cmp; try reflexivity; Z.div_mod_to_equations; lia.
  - Z.div_mod_to_equations; lia.
  - Z.div_mod_to_equations; lia.
  - Z.div_mod_to_equations; lia.
Qed.

(** *** The loop *)

(** Cutting the lines off loses nothing and doubles nothing. *)
Lemma split_lines_text (text : list Z) :
  flat_map (fun l => l ++ [10]) (fst (split_lines text))
  ++ snd (split_lines text) = text.
Proof.
  induction text as [|c text IH]; [reflexivity |].
  simpl. destruct (split_lines text) as [ls remainder]. simpl in IH.
  destruct (Z.eqb_spec c 10) as [->|ne].
  - simpl. now rewrite IH.
  - destruct ls as [|l ls]; simpl in *; now rewrite IH.
Qed.

(** The lines of a text that is continued: the lines there were, then the
    lines that the continuation completes. *)
Lemma split_lines_app (a b : list Z) :
  split_lines (a ++ b)
  = (fst (split_lines a) ++ fst (split_lines (snd (split_lines a) ++ b)),
     snd (split_lines (snd (split_lines a) ++ b))).
Proof.
  induction a as [|c a IH].
  - cbn. now destruct (split_lines b).
  - cbn [app split_lines]. rewrite IH.
    destruct (split_lines a) as [[|l ls] r]; cbn [fst snd app].
    + destruct (Z.eqb_spec c 10) as [->|ne]; cbn [fst snd app].
      * reflexivity.
      * cbn [split_lines]. destruct (split_lines (r ++ b)) as [ls' r'].
        cbn [fst snd]. destruct (Z.eqb_spec c 10); [contradiction |].
        now destruct ls'.
    + now destruct (c =? 10).
Qed.

Section Reader.

Variable stage_raises : list Z -> bool.

(** Handling the lines cut off loses no text either, raise or not. *)
Lemma hand_over_text (ls : list (list Z)) (remainder : list Z) :
  flat_map (fun l => l ++ [10]) (fst (fst (hand_over stage_raises ls remainder)))
  ++ snd (fst (hand_over stage_raises ls remainder))
  = flat_map (fun l => l ++ [10]) ls ++ remainder.
Proof.
  induction ls as [|l ls IH]; [reflexivity |].
  cbn [hand_over]. destruct (stage_raises l).
  - cbn. now rewrite <- !app_assoc.
  - destruct (hand_over stage_raises ls remainder) as [[handed kept] r].
    cbn in *. now rewrite <- !app_assoc, IH.
Qed.

Lemma hand_over_quiet (ls : list (list Z)) (remainder : list Z) :
  quiet stage_raises ls -> hand_over stage_raises ls remainder = (ls, remainder, false).
Proof.
  induction 1 as [|l ls Hl _ IH]; [reflexivity |].
  cbn [hand_over]. now rewrite Hl, IH.
Qed.

(** The first line that raises is the last one handled. *)
Lemma hand_over_first (before after : list (list Z)) (l remainder : list Z) :
  quiet stage_raises before -> stage_raises l = true ->
  hand_over stage_raises (before ++ l :: after) remainder
  = (before ++ [l], flat_map (fun l => l ++ [10]) after ++ remainder, true).
Proof.
  induction 1 as [|l0 before Hl0 _ IH]; intros Hl.
  - cbn [app hand_over]. now rewrite Hl.
  - cbn [app hand_over]. now rewrite Hl0, (IH Hl).
Qed.


(** What is delivered is added once to the text, and the byte buffer is
    empty afterwards. *)
Lemma deliver_text (st : reader) (decoded : list Z) :
  text_of (deliver stage_raises st decoded) = text_of st ++ decoded /\
  byte_buffer (deliver stage_raises st decoded) = [].
Proof.
  unfold deliver.
  pose proof (split_lines_text (line_buffer st ++ decoded)) as Hs.
  destruct (split_lines (line_buffer st ++ decoded)) as [ls remainder].
  pose proof (hand_over_text ls remainder) as Hh.
  destruct (hand_over stage_raises ls remainder) as [[handed kept] r].
  cbn [fst snd] in *. unfold text_of. cbn [lines line_buffer byte_buffer].
  split; [| reflexivity].
  rewrite flat_map_app, <- !app_assoc, Hh, Hs. reflexivity.
Qed.

Lemma deliver_quiet (st : reader) (decoded : list Z) :
  quiet stage_raises (fst (split_lines (line_buffer st ++ decoded))) ->
  deliver stage_raises st decoded
  = {| line_buffer := snd (split_lines (line_buffer st ++ decoded));
       byte_buffer := [];
       lines := lines st ++ fst (split_lines (line_buffer st ++ decoded));
       raised := false |}.
Proof.
  intros H. unfold deliver.
  destruct (split_lines (line_buffer st ++ decoded)) as [ls remainder].
  cbn [fst snd] in *. now rewrite (hand_over_quiet ls remainder H).
Qed.


(** Delivering does not look at the byte buffer. *)
Lemma deliver_bytes (lb bb : list Z) (ls : list (list Z)) (r : bool)
    (decoded : list Z) :
  deliver stage_raises
    {| line_buffer := lb; byte_buffer := bb; lines := ls; raised := r |}
    decoded
  = deliver stage_raises
      {| line_buffer := lb; byte_buffer := []; lines := ls; raised := false |}
      decoded.
Proof. reflexivity. Qed.

(** Once the loop has been left nothing changes any more. *)
Lemma feed_all_raised (st : reader) (bs : list Z) :
  raised st = true -> feed_all stage_raises st bs = st.
Proof.
  intros H. induction bs as [|b bs IH]; [reflexivity |].
  unfold feed_all in *. cbn [fold_left]. unfold feed at 2. now rewrite H.
Qed.

(** A byte that completes a decodable buffer. *)
Lemma feed_decoded (st : reader) (b : Z) (decoded : list Z) :
  raised st = false ->
  utf8_decode (byte_buffer st ++ [b]) = Some decoded ->
  feed stage_raises st b = deliver stage_raises st decoded.
Proof. intros Hr H. unfold feed. now rewrite Hr, H. Qed.

(** A byte that leaves the buffer undecodable and at most four bytes long:
    the buffer is kept and nothing is delivered. *)
Lemma feed_pending (st : reader) (b : Z) :
  raised st = false ->
  utf8_decode (byte_buffer st ++ [b]) = None ->
  (length (byte_buffer st ++ [b]) <= 4)%nat ->
  feed stage_raises st b
  = {| line_buffer := line_buffer st; byte_buffer := byte_buffer st ++ [b];
       lines := lines st; raised := false |}.
Proof.
  intros Hr H Hlen. unfold feed. rewrite Hr, H.
  destruct (Nat.ltb_spec 4 (length (byte_buffer st ++ [b]))); [lia |].
  reflexivity.
Qed.

(** The byte buffer never holds more than four bytes. *)
Lemma byte_buffer_bounded (st : reader) (b : Z) :
  (length (byte_buffer st) <= 4)%nat ->
  (length (byte_buffer (feed stage_raises st b)) <= 4)%nat.
Proof.
  intros Hst. unfold feed. destruct (raised st); [exact Hst |].
  destruct (utf8_decode (byte_buffer st ++ [b])).
  - rewrite (proj2 (deliver_text st l)). simpl. lia.
  - destruct (Nat.ltb_spec 4 (length (byte_buffer st ++ [b]))); simpl; lia.
Qed.

(** One character, read byte by byte from an empty byte buffer, is
    delivered whole with its last byte. *)
Lemma feed_character (st : reader) (c : Z) :
  raised st = false -> byte_buffer st = [] -> scalar c ->
  feed_all stage_raises st (utf8_encode_char c) = deliver stage_raises st [c].
Proof.
  intros Hr Hbb Hc. destruct st as [lb bb ls r]. cbn in Hr, Hbb. subst r bb.
  destruct (encode_char_encoded c Hc)
    as [H | b0 b1 H0 H1 E | b0 b1 b2 H0 H1 H2 E
        | b0 b1 b2 b3 H0 H1 H2 H3 E]; unfold feed_all; cbn [fold_left].
  - apply feed_decoded; [reflexivity |]. now apply decode_1.
  - rewrite (feed_pending _ b0);
      [| reflexivity | apply decode_short_1; lia | cbn; lia].
    cbn [line_buffer byte_buffer lines app].
    rewrite (feed_decoded _ b1 [c]); [apply deliver_bytes | reflexivity |].
    cbn [byte_buffer app]. rewrite <- E. now apply decode_2.
  - rewrite (feed_pending _ b0);
      [| reflexivity | apply decode_short_1; lia | cbn; lia].
    cbn [line_buffer byte_buffer lines app].
    rewrite (feed_pending _ b1);
      [| reflexivity | apply decode_short_2; lia | cbn; lia].
    cbn [line_buffer byte_buffer lines app].
    rewrite (feed_decoded _ b2 [c]); [apply deliver_bytes | reflexivity |].
    cbn [byte_buffer app]. rewrite <- E. now apply decode_3.
  - rewrite (feed_pending _ b0);
      [| reflexivity | apply decode_short_1; lia | cbn; lia].
    cbn [line_buffer byte_buffer lines app].
    rewrite (feed_pending _ b1);
      [| reflexivity | apply decode_short_2; lia | cbn; lia].
    cbn [line_buffer byte_buffer lines app].
    rewrite (feed_pending _ b2);
      [| reflexivity | apply decode_short_3; lia | cbn; lia].
    cbn [line_buffer byte_buffer lines app].
    rewrite (feed_decoded _ b3 [c]); [apply deliver_bytes | reflexivity |].
    cbn [byte_buffer app]. rewrite <- E. now apply decode_4.
Qed.

Lemma feed_all_app (st : reader) (xs ys : list Z) :
  feed_all stage_raises st (xs ++ ys)
  = feed_all stage_raises (feed_all stage_raises st xs) ys.
Proof. unfold feed_all. apply fold_left_app. Qed.





End Reader.



Close Scope list_scope.
Close Scope Z_scope.

End ReaderFacts.

(** ** The JSON encoder *)

Module JsonFacts.
Import PyStr Json Sse PyStrFacts.

Lemma count_char_app (c : ascii) (a b : string) :
  count_char c (a ++ b) = count_char c a + count_char c b.
Proof.
  induction a as [|d a IH]; [reflexivity |].
  rewrite app_cons. simpl. rewrite IH. lia.
Qed.

Lemma one_line_app (a b : string) :
  one_line a -> one_line b -> one_line (a ++ b).
Proof. unfold one_line. intros Ha Hb. rewrite count_char_app. lia. Qed.

Lemma escape_char_one_line (c : ascii) : one_line (escape_char c).
Proof. destruct c as [[] [] [] [] [] [] [] []]; reflexivity. Qed.

(** A line feed inside a string is written as the two characters of its
    escape. *)
Lemma escape_one_line (s : string) : one_line (escape s).
Proof.
  induction s as [|c s IH]; [reflexivity |].
  simpl. apply one_line_app; [apply escape_char_one_line | exact IH].
Qed.

Lemma quote_one_line (s : string) : one_line (quote s).
Proof.
  unfold quote. apply one_line_app; [reflexivity |].
  apply one_line_app; [apply escape_one_line | reflexivity].
Qed.

Lemma pretty_N_char_not_LF (n : N) : Ascii.eqb LF (pretty_N_char n) = false.
Proof. unfold pretty_N_char. repeat case_match; reflexivity. Qed.

Lemma pretty_N_go_one_line (x : N) (s : string) :
  one_line s -> one_line (pretty_N_go x s).
Proof.
  revert s. induction (N.lt_wf_0 x) as [x _ IH]; intros s Hs.
  destruct (N.eq_dec x 0%N) as [->|Hx].
  - now rewrite pretty_N_go_0.
  - rewrite pretty_N_go_step by lia. apply IH.
    + apply N.div_lt; lia.
    + unfold one_line in *. cbn [count_char].
      now rewrite pretty_N_char_not_LF, Hs.
Qed.

Lemma pretty_N_one_line (x : N) : one_line (pretty x).
Proof.
  unfold pretty, pretty_N. case_decide; [reflexivity |].
  now apply pretty_N_go_one_line.
Qed.

Lemma pretty_Z_one_line (z : Z) : one_line (pretty z).
Proof.
  destruct z as [|p|p]; [reflexivity | apply pretty_N_one_line |].
  change (one_line ("-" ++ pretty (Npos p))).
  apply one_line_app; [reflexivity | apply pretty_N_one_line].
Qed.

Lemma join_one_line (sep : string) (parts : list string) :
  one_line sep -> Forall one_line parts -> one_line (join sep parts).
Proof.
  intros Hsep Hparts. induction Hparts as [|p rest Hp _ IH]; [reflexivity |].
  destruct rest as [|q rest]; [exact Hp |].
  change (one_line (p ++ sep ++ join sep (q :: rest))).
  apply one_line_app; [exact Hp |]. apply one_line_app; assumption.
Qed.

(** The encoder writes everything on one line. *)
Lemma dumps_one_line : forall (v : json) (s : string),
  dumps v = Some s -> one_line s.
Proof.
  fix IH 1. intros v s H. destruct v as [|b|z|t|items|fields|].
  - injection H as <-. reflexivity.
  - destruct b; injection H as <-; reflexivity.
  - injection H as <-. apply pretty_Z_one_line.
  - injection H as <-. apply quote_one_line.
  - simpl in H.
    match type of H with
    | match ?g items with _ => _ end = _ => set (go := g) in *
    end.
    assert (forall l parts, go l = Some parts -> Forall one_line parts) as Hgo.
    { induction l as [|x l IHl]; intros parts Hl; simpl in Hl.
      - injection Hl as <-. constructor.
      - destruct (dumps x) as [sx|] eqn:Ex; [| discriminate].
        destruct (go l) as [t'|] eqn:El; [| discriminate].
        injection Hl as <-. constructor; [exact (IH x sx Ex) | now apply IHl]. }
    destruct (go items) as [parts|] eqn:E; [| discriminate].
    injection H as <-.
    apply one_line_app; [reflexivity |].
    apply one_line_app; [| reflexivity].
    apply join_one_line; [reflexivity | exact (Hgo _ _ E)].
  - simpl in H.
    match type of H with
    | match ?g fields with _ => _ end = _ => set (go := g) in *
    end.
    assert (forall l parts, go l = Some parts -> Forall one_line parts) as Hgo.
    { induction l as [|[k x] l IHl]; intros parts Hl; simpl in Hl.
      - injection Hl as <-. constructor.
      - destruct (dumps x) as [sx|] eqn:Ex; [| discriminate].
        destruct (go l) as [t'|] eqn:El; [| discriminate].
        injection Hl as <-. constructor; [| now apply IHl].
        apply one_line_app; [apply quote_one_line |].
        apply one_line_app; [reflexivity | exact (IH x sx Ex)]. }
    destruct (go fields) as [parts|] eqn:E; [| discriminate].
    injection H as <-.
    apply one_line_app; [reflexivity |].
    apply one_line_app; [| reflexivity].
    apply join_one_line; [reflexivity | exact (Hgo _ _ E)].
  - discriminate.
Qed.

End JsonFacts.

(** ** The streaming translator *)

Module StreamFacts.
Import PyStr Json ContentParser StreamService Sse PyStrFacts JsonFacts.

(** [_format_sse_data] returns a frame for every value, serialisable or
    not. *)
Lemma format_sse_data_well_formed (data : json) :
  well_formed_frame (_format_sse_data data).
Proof.
  unfold _format_sse_data. destruct (dumps data) as [json_data|] eqn:E.
  - exists json_data. split; [reflexivity | exact (dumps_one_line _ _ E)].
  - exists ("{" ++ quote "error" ++ ": "
            ++ quote "Failed to format response" ++ "}").
    split; reflexivity.
Qed.

Lemma done_frame_well_formed : well_formed_frame done_frame.
Proof. exists "[DONE]". split; reflexivity. Qed.

(** A dict is written with its first key first. *)
Lemma dumps_dict_head (k : string) (v : json) (rest : list (string * json))
    (s : string) :
  dumps (JDict ((k, v) :: rest)) = Some s ->
  exists tail, s = "{" ++ quote k ++ tail.
Proof.
  simpl. destruct (dumps v) as [sv|]; [| discriminate].
  match goal with
  | |- context [match ?g rest with _ => _ end] => destruct (g rest) as [t|]
  end; [| discriminate].
  intros [= <-]. destruct t as [|q t].
  - exists (": " ++ sv ++ "}"). cbn [join]. now rewrite !app_assoc.
  - exists (": " ++ sv ++ ", " ++ join ", " (q :: t) ++ "}").
    change (join ", " ((quote k ++ ": " ++ sv) :: q :: t))
      with ((quote k ++ ": " ++ sv) ++ ", " ++ join ", " (q :: t)).
    now rewrite !app_assoc.
Qed.

(** The frames of the chunks: their dict starts with the response id. *)
Definition chunk_frame (f : string) : Prop :=
  f = fallback_frame \/ exists tail, f = "data: {" ++ quote "id" ++ tail.

Lemma id_frame (rid : string) (fields : list (string * json)) :
  chunk_frame (_format_sse_data (JDict (("id", JStr rid) :: fields))).
Proof.
  unfold chunk_frame, _format_sse_data.
  destruct (dumps _) as [s|] eqn:E; [right | now left].
  destruct (dumps_dict_head _ _ _ _ E) as [tail ->].
  exists (tail ++ nl ++ nl). now rewrite !app_assoc.
Qed.

Lemma chunk_frame_not_done (f : string) : chunk_frame f -> f <> done_frame.
Proof.
  intros [->|[tail ->]] H.
  - discriminate H.
  - apply (f_equal (String.get 6)) in H. discriminate H.
Qed.

Lemma error_frame_char_8 (m : string) :
  String.get 8 (error_frame m) = Some "e"%char /\
  String.get 16 (error_frame m) = Some "{"%char.
Proof. split; reflexivity. Qed.

Lemma chunk_frame_not_error (f m : string) :
  chunk_frame f -> f <> error_frame m.
Proof.
  intros [->|[tail ->]] H.
  - apply (f_equal (String.get 16)) in H.
    rewrite (proj2 (error_frame_char_8 m)) in H. discriminate H.
  - apply (f_equal (String.get 8)) in H.
    rewrite (proj1 (error_frame_char_8 m)) in H. discriminate H.
Qed.

Lemma error_frame_not_done (m : string) : error_frame m <> done_frame.
Proof.
  intros H. apply (f_equal (String.get 6)) in H. discriminate H.
Qed.

(** A frame formatted from a dict whose first key is the response id. *)
Definition id_dict_frame (f : string) : Prop :=
  exists rid fields, f = _format_sse_data (JDict (("id", JStr rid) :: fields)).

Lemma id_dict_frame_chunk (f : string) : id_dict_frame f -> chunk_frame f.
Proof. intros (rid & fields & ->). apply id_frame. Qed.

Lemma id_dict_frame_well_formed (f : string) :
  id_dict_frame f -> well_formed_frame f.
Proof. intros (rid & fields & ->). apply format_sse_data_well_formed. Qed.

Lemma structured_response_frame (rid model : string) (pc : ParsedContent)
    (created : Z) (data : json) :
  _create_structured_response rid pc model created = Some data ->
  id_dict_frame (_format_sse_data data).
Proof.
  unfold _create_structured_response, chunk, stream_response, id_dict_frame.
  destruct (content_type pc); intros [= <-]; eauto.
Qed.

Section Stream.

Variable clock : nat -> Z.

Variables response_id model : string.

Lemma consume_frames (lines : list string)
    (parsed_contents : list ParsedContent) (tick : nat) :
  Forall id_dict_frame
    (fst (fst (consume clock response_id model lines parsed_contents tick))).
Proof.
  revert parsed_contents tick.
  induction lines as [|line rest IH]; intros pcs tick; [constructor |].
  cbn [consume]. destruct (negb (blank line)); [| apply IH].
  destruct (_create_structured_response _ _ _ _) as [data|] eqn:E;
    [| apply IH].
  specialize (IH (pcs ++ [parse_text_content line])%list (S tick)).
  destruct (consume _ _ _ _ _ _) as [[frames pcs'] t]. simpl in *.
  constructor; [| exact IH]. exact (structured_response_frame _ _ _ _ _ E).
Qed.

Lemma first_frame_id : id_dict_frame (first_frame clock response_id model).
Proof. unfold first_frame, stream_response, id_dict_frame. eauto. Qed.

Lemma finish_frame_id (created : Z) :
  id_dict_frame (finish_frame response_id model created).
Proof. unfold finish_frame, stream_response, id_dict_frame. eauto. Qed.

Lemma summary_frame_id (si : structured_info) (created : Z) :
  id_dict_frame
    (_format_sse_data (_create_summary_response response_id si model created)).
Proof. unfold _create_summary_response, id_dict_frame. eauto. Qed.

(** The finish frame, written out: its choice carries an empty delta and
    the finish reason [stop]. *)
Lemma finish_frame_text (created : Z) :
  finish_frame response_id model created
  = "data: {" ++ quote "id" ++ ": " ++ quote response_id ++ ", "
    ++ quote "object" ++ ": " ++ quote "chat.completion.chunk" ++ ", "
    ++ quote "created" ++ ": " ++ pretty created ++ ", "
    ++ quote "model" ++ ": " ++ quote model ++ ", "
    ++ quote "choices" ++ ": [{" ++ quote "index" ++ ": 0, "
    ++ quote "delta" ++ ": {}, "
    ++ quote "finish_reason" ++ ": " ++ quote "stop" ++ "}]}" ++ nl ++ nl.
Proof.
  unfold finish_frame, _format_sse_data, stream_response.
  cbn [dumps field fmap option_fmap option_map app join].
  rewrite !app_assoc. reflexivity.
Qed.

(** The error frame, written out. *)
Lemma error_frame_text (message : string) :
  error_frame message
  = "data: {" ++ quote "error" ++ ": {"
    ++ quote "message" ++ ": " ++ quote message ++ ", "
    ++ quote "type" ++ ": " ++ quote "streaming_error" ++ ", "
    ++ quote "code" ++ ": " ++ quote "stream_interrupted" ++ "}}"
    ++ nl ++ nl.
Proof.
  unfold error_frame, _format_sse_data. cbn [dumps join].
  rewrite !app_assoc. reflexivity.
Qed.

(** The last frames the generator yields, for either ending. *)
Lemma last_frames (lines : list string) :
  (exists prefix created,
     create_claude_stream clock response_id model lines Exhausted
     = (prefix ++ [finish_frame response_id model created; done_frame])%list) /\
  (forall message,
     exists prefix,
       create_claude_stream clock response_id model lines (Raises message)
       = (prefix ++ [error_frame message])%list /\
       (forall f m, In f prefix -> f <> error_frame m) /\
       ~ In done_frame
           (create_claude_stream clock response_id model lines
              (Raises message))).
Proof.
  unfold create_claude_stream.
  pose proof (consume_frames lines [] 1) as Hframes.
  destruct (consume clock response_id model lines [] 1)
    as [[frames pcs] tick]. simpl in Hframes.
  split.
  - destruct pcs as [|pc pcs].
    + exists (first_frame clock response_id model :: frames)%list,
        (clock tick).
      reflexivity.
    + eexists (first_frame clock response_id model :: frames ++ [_])%list,
        (clock (S tick)).
      simpl. rewrite <- List.app_assoc. reflexivity.
  - intros message.
    exists (first_frame clock response_id model :: frames)%list.
    assert (Forall id_dict_frame
              (first_frame clock response_id model :: frames)) as Hall
      by (constructor; [apply first_frame_id | exact Hframes]).
    rewrite Forall_forall in Hall.
    split; [reflexivity |]. split.
    + intros f m Hin. apply chunk_frame_not_error, id_dict_frame_chunk.
      apply Hall. now apply list_elem_of_In.
    + change (~ In done_frame
                ((first_frame clock response_id model :: frames)
                 ++ [error_frame message])).
      rewrite in_app_iff. intros [Hin | [Heq | []]].
      * apply list_elem_of_In, Hall, id_dict_frame_chunk in Hin.
        now apply chunk_frame_not_done in Hin.
      * now apply error_frame_not_done in Heq.
Qed.

(** C3: when the backend line stream is exhausted the output ends with the
    chunk whose only choice has an empty delta and the finish reason
    [stop], followed by the literal frame [data: [DONE]]; when a step of
    the line stream raises, the output ends with the frame of the dict
    [error] holding the message of the exception, the type
    [streaming_error] and the code [stream_interrupted], no earlier frame
    is such a frame and the [DONE] frame is nowhere in the output.  The
    frames are given as the text that goes over the wire. *)
Theorem stream_ending (lines : list string) :
  let stop_chunk (created : Z) :=
    "data: {" ++ quote "id" ++ ": " ++ quote response_id ++ ", "
    ++ quote "object" ++ ": " ++ quote "chat.completion.chunk" ++ ", "
    ++ quote "created" ++ ": " ++ pretty created ++ ", "
    ++ quote "model" ++ ": " ++ quote model ++ ", "
    ++ quote "choices" ++ ": [{" ++ quote "index" ++ ": 0, "
    ++ quote "delta" ++ ": {}, "
    ++ quote "finish_reason" ++ ": " ++ quote "stop" ++ "}]}" ++ nl ++ nl in
  let error_chunk (message : string) :=
    "data: {" ++ quote "error" ++ ": {"
    ++ quote "message" ++ ": " ++ quote message ++ ", "
    ++ quote "type" ++ ": " ++ quote "streaming_error" ++ ", "
    ++ quote "code" ++ ": " ++ quote "stream_interrupted" ++ "}}"
    ++ nl ++ nl in
  let done_chunk := "data: [DONE]" ++ nl ++ nl in
  (exists prefix created,
     create_claude_stream clock response_id model lines Exhausted
     = (prefix ++ [stop_chunk created; done_chunk])%list) /\
  (forall message,
     exists prefix,
       create_claude_stream clock response_id model lines (Raises message)
       = (prefix ++ [error_chunk message])%list /\
       (forall f m, In f prefix -> f <> error_chunk m) /\
       ~ In done_chunk
           (create_claude_stream clock response_id model lines
              (Raises message))).
Proof.
  intros stop_chunk error_chunk done_chunk.
  assert (forall created,
            stop_chunk created = finish_frame response_id model created)
    as Hstop by (intros created; symmetry; apply finish_frame_text).
  assert (forall message, error_chunk message = error_frame message)
    as Herr by (intros message; symmetry; apply error_frame_text).
  change done_chunk with done_frame.
  destruct (last_frames lines) as [(prefix & created & E) Hraise]. split.
  - exists prefix, created. now rewrite Hstop.
  - intros message. destruct (Hraise message) as (p & E' & Hno & Hdone).
    exists p. rewrite Herr. split; [exact E' |]. split; [| exact Hdone].
    intros f m Hin. rewrite Herr. now apply Hno.
Qed.

(** C9: every element the generator yields is one well-formed frame, the
    field [data: ], a payload without a line feed and the empty line, for
    either ending of the line stream; and the frame formatter returns such
    a frame for every value, the fixed error frame when the value cannot be
    serialised. *)
Theorem frames_well_formed (lines : list string) (e : ending) :
  Forall well_formed_frame
    (create_claude_stream clock response_id model lines e) /\
  (forall data, well_formed_frame (_format_sse_data data)) /\
  (forall data, dumps data = None -> _format_sse_data data = fallback_frame).
Proof.
  split; [| split; [apply format_sse_data_well_formed |]].
  - unfold create_claude_stream.
    pose proof (consume_frames lines [] 1) as Hframes.
    destruct (consume clock response_id model lines [] 1)
      as [[frames pcs] tick]. simpl in Hframes.
    assert (Forall well_formed_frame frames) as Hwf.
    { eapply Forall_impl; [exact Hframes |].
      apply id_dict_frame_well_formed. }
    destruct e as [|message].
    + destruct pcs as [|pc pcs]; cbn beta iota.
      * constructor; [apply format_sse_data_well_formed |].
        apply Forall_app. split; [exact Hwf |].
        repeat constructor;
          [apply format_sse_data_well_formed | apply done_frame_well_formed].
      * constructor; [apply format_sse_data_well_formed |].
        apply Forall_app. split; [exact Hwf |].
        repeat constructor;
          [apply format_sse_data_well_formed
          | apply format_sse_data_well_formed
          | apply done_frame_well_formed].
    + constructor; [apply format_sse_data_well_formed |].
      apply Forall_app. split; [exact Hwf |].
      repeat constructor. apply format_sse_data_well_formed.
  - intros data H. unfold _format_sse_data. now rewrite H.
Qed.

End Stream.

End StreamFacts.

(** ** The process registries *)

Module RegistryFacts.
Import PyStr ClaudeService.

(** The process id carried by the object a reference points to. *)
Definition pid_at (s : service) (l : nat) : option string :=
  process_id <$> heap s !! l.

(** The invariant that carries [registered] through the calls: besides it,
    an object sits under at most one conversation id, and never under the
    empty one. *)
Record inv (s : service) : Prop := {
  inv_registered :
    forall sid l, session_processes s !! sid = Some l ->
    exists pid, pid_at s l = Some pid /\ active_processes s !! pid = Some l;
  inv_single :
    forall sid1 sid2 l,
      session_processes s !! sid1 = Some l ->
      session_processes s !! sid2 = Some l -> sid1 = sid2;
  inv_truthy : session_processes s !! "" = None
}.

Lemma inv_is_registered (s : service) : inv s -> registered s.
Proof.
  intros [H _ _] sid l Hl. destruct (H sid l Hl) as (pid & Hp & Ha).
  unfold pid_at in Hp. destruct (heap s !! l) as [h|]; [| discriminate].
  injection Hp as <-. now exists h.
Qed.

Lemma inv_empty : inv empty_service.
Proof.
  split; simpl.
  - intros sid l H. now rewrite lookup_empty in H.
  - intros sid1 sid2 l H. now rewrite lookup_empty in H.
  - apply lookup_empty.
Qed.

Lemma truthy_nonempty (sid : string) : truthy sid = true -> sid <> "".
Proof. intros H ->. discriminate H. Qed.

Lemma not_truthy (sid : string) : truthy sid = false -> sid = "".
Proof.
  unfold truthy. destruct (String.eqb_spec sid ""); [easy | discriminate].
Qed.

(** Stopping an object changes neither the registries nor its id. *)
Lemma stop_registries (l : nat) (s : service) :
  active_processes (stop l s) = active_processes s /\
  session_processes (stop l s) = session_processes s.
Proof.
  unfold stop. destruct (heap s !! l) as [h|]; [| easy].
  now destruct (is_running h).
Qed.

Lemma stop_pid_at (l l' : nat) (s : service) :
  pid_at (stop l s) l' = pid_at s l'.
Proof.
  unfold stop, pid_at. destruct (heap s !! l) as [h|] eqn:E; [| reflexivity].
  destruct (is_running h); [| reflexivity]. simpl.
  destruct (decide (l = l')) as [<-|ne].
  - rewrite list_lookup_insert_eq by (eapply lookup_lt_Some; exact E).
    now rewrite E.
  - now rewrite list_lookup_insert_ne.
Qed.

Lemma stop_inv (l : nat) (s : service) : inv s -> inv (stop l s).
Proof.
  intros [H1 H2 H3]. destruct (stop_registries l s) as [Ea Es].
  split; rewrite ?Es; [| exact H2 | exact H3].
  intros sid l' Hl. rewrite stop_pid_at, Ea. exact (H1 sid l' Hl).
Qed.

(** Dropping a cached object from both registries. *)
Lemma drop_inv (s : service) (sid : string) (l : nat) (h : handle) :
  inv s -> session_processes s !! sid = Some l -> heap s !! l = Some h ->
  inv {| heap := heap s;
         active_processes := delete (process_id h) (active_processes s);
         session_processes := delete sid (session_processes s) |}.
Proof.
  intros [H1 H2 H3] Hl Hh. split; simpl.
  - intros sid' l' Hl'. apply lookup_delete_Some in Hl' as [ne Hl'].
    destruct (H1 _ _ Hl') as (pid' & Hp' & Ha'). exists pid'.
    split; [exact Hp' |]. rewrite lookup_delete_ne; [exact Ha' |].
    intros <-. destruct (H1 _ _ Hl) as (pid & Hp & Ha).
    unfold pid_at in Hp. rewrite Hh in Hp. injection Hp as <-.
    rewrite Ha in Ha'. injection Ha' as <-. exact (ne (H2 _ _ _ Hl Hl')).
  - intros sid1 sid2 l' Ha Hb.
    apply lookup_delete_Some in Ha as [_ Ha].
    apply lookup_delete_Some in Hb as [_ Hb]. exact (H2 _ _ _ Ha Hb).
  - destruct (decide (sid = "")) as [->|ne];
      [apply lookup_delete_eq | now rewrite lookup_delete_ne].
Qed.

Lemma pid_at_app (s : service) (l : nat) (pid : string) (h : handle)
    (ap sp : gmap string nat) :
  pid_at s l = Some pid ->
  pid_at {| heap := heap s ++ [h]; active_processes := ap;
            session_processes := sp |} l = Some pid.
Proof.
  unfold pid_at. simpl. intros H.
  destruct (heap s !! l) as [h0|] eqn:E; [| discriminate].
  now rewrite (lookup_app_l_Some _ _ _ _ E).
Qed.

Lemma pid_at_fresh (s : service) (l : nat) (pid uuid : string) :
  fresh_id uuid s -> pid_at s l = Some pid -> pid <> uuid.
Proof.
  unfold pid_at. intros Hf H.
  destruct (heap s !! l) as [h|] eqn:E; [| discriminate].
  injection H as <-. apply Hf. eapply list_elem_of_lookup_2. exact E.
Qed.

Lemma pid_at_in_heap (s : service) (l : nat) (pid : string) :
  pid_at s l = Some pid -> l < length (heap s).
Proof.
  unfold pid_at. intros H.
  destruct (heap s !! l) as [h|] eqn:E; [| discriminate].
  eapply lookup_lt_Some. exact E.
Qed.

(** Building and registering a new object under a fresh id. *)
Lemma create_new_inv (cwd session_id working_dir : option string)
    (continue_session : bool) (uuid : string) (start_ok : bool)
    (s : service) :
  inv s -> fresh_id uuid s ->
  inv (snd (create_new cwd session_id working_dir continue_session uuid
              start_ok s)).
Proof.
  intros [H1 H2 H3] Hf. unfold create_new.
  destruct start_ok; simpl.
  - set (l := length (heap s)).
    set (h := set_running true _).
    assert (forall sid' l', session_processes s !! sid' = Some l' ->
              exists pid,
                pid_at {| heap := heap s ++ [h];
                          active_processes := <[uuid := l]> (active_processes s);
                          session_processes := session_processes s |} l'
                = Some pid /\
                <[uuid := l]> (active_processes s) !! pid = Some l') as Hold.
    { intros sid' l' Hl'. destruct (H1 _ _ Hl') as (pid & Hp & Ha).
      exists pid. split; [now apply pid_at_app |].
      rewrite lookup_insert_ne; [exact Ha |].
      intros <-. exact (pid_at_fresh _ _ _ _ Hf Hp eq_refl). }
    assert (forall sid' l', session_processes s !! sid' = Some l' -> l' <> l)
      as Hlt.
    { intros sid' l' Hl'. destruct (H1 _ _ Hl') as (pid & Hp & _).
      apply pid_at_in_heap in Hp. unfold l. lia. }
    destruct session_id as [sid|]; [destruct (truthy sid) eqn:Et |].
    + split; simpl.
      * intros sid' l' Hl'. apply lookup_insert_Some in Hl' as [[<- <-]|[ne Hl']].
        -- exists uuid. split; [| apply lookup_insert_eq].
           unfold pid_at. simpl. unfold l.
           now rewrite lookup_app_r, Nat.sub_diag by lia.
        -- destruct (Hold _ _ Hl') as (pid & Hp & Ha). now exists pid.
      * intros sid1 sid2 l' Ha Hb.
        apply lookup_insert_Some in Ha as [[<- <-]|[na Ha]];
          apply lookup_insert_Some in Hb as [[<- Hb]|[nb Hb]]; try easy.
        -- now destruct (Hlt _ _ Hb).
        -- subst l'. now destruct (Hlt _ _ Ha).
        -- exact (H2 _ _ _ Ha Hb).
      * rewrite lookup_insert_ne; [exact H3 |].
        now apply truthy_nonempty.
    + split; simpl; [exact Hold | exact H2 | exact H3].
    + split; simpl; [exact Hold | exact H2 | exact H3].
  - split; simpl; [| exact H2 | exact H3].
    intros sid' l' Hl'. destruct (H1 _ _ Hl') as (pid & Hp & Ha).
    exists pid. split; [now apply pid_at_app | exact Ha].
Qed.

Lemma get_or_create_process_inv (cwd session_id working_dir : option string)
    (continue_session : bool) (uuid : string) (start_ok : bool)
    (s : service) :
  inv s -> fresh_id uuid s ->
  inv (snd (get_or_create_process cwd session_id working_dir
              continue_session uuid start_ok s)).
Proof.
  intros Hinv Hf. unfold get_or_create_process.
  destruct session_id as [sid|]; [| now apply create_new_inv].
  destruct (truthy sid); [| now apply create_new_inv].
  destruct (session_processes s !! sid) as [l|] eqn:El;
    [| now apply create_new_inv].
  destruct (heap s !! l) as [existing|] eqn:Eh; [| exact Hinv].
  destruct (is_running existing); [exact Hinv |].
  apply create_new_inv; [now apply (drop_inv s sid l) | exact Hf].
Qed.

(** The search of [remove_process] finds the key of an object carrying the
    id whenever there is one. *)
Lemma session_of_found (pid : string) (s : service) (sid : string) (l : nat) :
  session_processes s !! sid = Some l -> pid_at s l = Some pid ->
  exists sid0 l0,
    session_of pid s = Some sid0 /\
    session_processes s !! sid0 = Some l0 /\ pid_at s l0 = Some pid.
Proof.
  intros Hl Hp. unfold session_of.
  destruct (List.find _ _) as [[sid0 l0]|] eqn:E.
  - apply List.find_some in E as [Hin Hq].
    apply list_elem_of_In, elem_of_map_to_list in Hin.
    exists sid0, l0. split; [reflexivity |]. split; [exact Hin |].
    unfold pid_at. destruct (heap s !! l0) as [h|]; [| discriminate].
    simpl. f_equal. now apply String.eqb_eq.
  - exfalso.
    assert (In (sid, l) (map_to_list (session_processes s))) as Hin
      by now apply list_elem_of_In, elem_of_map_to_list.
    apply (List.find_none _ _ E) in Hin.
    unfold pid_at in Hp. destruct (heap s !! l) as [h|]; [| discriminate].
    injection Hp as <-. now rewrite String.eqb_refl in Hin.
Qed.

Lemma remove_process_inv (pid : string) (s : service) :
  inv s -> inv (remove_process pid s).
Proof.
  intros Hinv. pose proof Hinv as [H1 H2 H3]. unfold remove_process.
  destruct (active_processes s !! pid) as [l|] eqn:Ea; [| exact Hinv].
  apply stop_inv. split; simpl.
  - intros sid' l' Hl'.
    assert (session_processes s !! sid' = Some l') as Hs.
    { destruct (session_of pid s) as [sid0|]; [| exact Hl'].
      destruct (truthy sid0); [| exact Hl'].
      now apply lookup_delete_Some in Hl' as [_ Hl']. }
    destruct (H1 _ _ Hs) as (pid' & Hp' & Ha'). exists pid'.
    split; [exact Hp' |]. rewrite lookup_delete_ne; [exact Ha' |].
    intros <-.
    destruct (session_of_found pid s sid' l' Hs Hp')
      as (sid0 & l0 & E0 & Hs0 & Hp0).
    destruct (H1 _ _ Hs0) as (pid0 & Hp0' & Ha0).
    rewrite Hp0 in Hp0'. injection Hp0' as <-.
    rewrite Ha' in Ha0. injection Ha0 as <-.
    pose proof (H2 _ _ _ Hs Hs0) as <-.
    rewrite E0 in Hl'. destruct (truthy sid') eqn:Et.
    + now rewrite lookup_delete_eq in Hl'.
    + apply not_truthy in Et. subst sid'. congruence.
  - intros sid1 sid2 l' Hx Hy.
    assert (forall sid' l'',
              match session_of pid s with
              | Some sid0 =>
                  if truthy sid0 then delete sid0 (session_processes s)
                  else session_processes s
              | None => session_processes s
              end !! sid' = Some l'' ->
              session_processes s !! sid' = Some l'') as Hsub.
    { intros sid' l'' Hl'.
      destruct (session_of pid s) as [sid0|]; [| exact Hl'].
      destruct (truthy sid0); [| exact Hl'].
      now apply lookup_delete_Some in Hl' as [_ Hl']. }
    exact (H2 _ _ _ (Hsub _ _ Hx) (Hsub _ _ Hy)).
  - destruct (session_of pid s) as [sid0|]; [| exact H3].
    destruct (truthy sid0); [| exact H3].
    destruct (decide (sid0 = "")) as [->|ne];
      [apply lookup_delete_eq | now rewrite lookup_delete_ne].
Qed.

Lemma remove_session_process_inv (sid : string) (s : service) :
  inv s -> inv (remove_session_process sid s).
Proof.
  intros Hinv. unfold remove_session_process.
  destruct (session_processes s !! sid) as [l|] eqn:El; [| exact Hinv].
  destruct (heap s !! l) as [h|] eqn:Eh; [| exact Hinv].
  apply stop_inv. now apply (drop_inv s sid l).
Qed.

Lemma cleanup_all_processes_inv (s : service) : inv (cleanup_all_processes s).
Proof.
  unfold cleanup_all_processes. split; simpl.
  - intros sid l H. now rewrite lookup_empty in H.
  - intros sid1 sid2 l H. now rewrite lookup_empty in H.
  - apply lookup_empty.
Qed.

Lemma step_inv (cwd : option string) (s : service) (c : call) :
  inv s ->
  match c with
  | GetOrCreate _ _ _ uuid _ => fresh_id uuid s
  | _ => True
  end ->
  inv (step cwd s c).
Proof.
  intros Hinv Hf. destruct c; simpl.
  - now apply get_or_create_process_inv.
  - now apply remove_process_inv.
  - now apply remove_session_process_inv.
  - apply cleanup_all_processes_inv.
  - now apply stop_inv.
Qed.

Lemma run_inv (cwd : option string) (calls : list call) (s : service) :
  inv s -> fresh_ids cwd s calls -> inv (run cwd s calls).
Proof.
  revert s. induction calls as [|c calls IH]; intros s Hinv Hf; [exact Hinv |].
  destruct Hf as [Hc Hrest]. simpl. apply IH; [| exact Hrest].
  now apply step_inv.
Qed.

(** C10: after any sequence of calls to the service, every object the
    conversation registry holds is registered in the main registry under
    its own process id, the ids drawn for new objects being fresh. *)
Theorem registries_consistent (cwd : option string) (calls : list call) :
  fresh_ids cwd empty_service calls ->
  registered (run cwd empty_service calls).
Proof.
  intros Hf. apply inv_is_registered, run_inv; [apply inv_empty | exact Hf].
Qed.

Lemma fresh_id_check (uuid : string) (s : service) :
  forallb (fun h => negb (String.eqb (process_id h) uuid)) (heap s) = true ->
  fresh_id uuid s.
Proof.
  intros H h Hin. rewrite forallb_forall in H.
  apply list_elem_of_In, H in Hin.
  now apply negb_true_iff, String.eqb_neq in Hin.
Qed.

Lemma registries_consistent_witness :
  fresh_ids None empty_service example_calls /\
  registered (run None empty_service example_calls).
Proof.
  assert (fresh_ids None empty_service example_calls) as Hf.
  { repeat (split;
            [first [ exact I
                   | apply fresh_id_check; vm_compute; reflexivity ] |]).
    exact I. }
  split; [exact Hf | exact (registries_consistent None example_calls Hf)].
Defined.

(** The invariant also holds at every step on the way, from any consistent
    state. *)
Lemma registries_consistent_from (cwd : option string) (s : service)
    (calls : list call) :
  inv s -> fresh_ids cwd s calls -> registered (run cwd s calls).
Proof. intros Hinv Hf. now apply inv_is_registered, run_inv. Qed.

End RegistryFacts.

(** ** The calendar *)

Module DatetimeFacts.
Import Datetime.

Open Scope Z_scope.

(** Decide the comparisons of the goal one after the other. *)
Ltac cmp_cases :=
  repeat match goal with
  | |- context [?a <? ?b] => destruct (Z.ltb_spec a b); simpl; try lia
  | |- context [?a <=? ?b] => destruct (Z.leb_spec a b); simpl; try lia
  | |- context [?a =? ?b] => destruct (Z.eqb_spec a b); simpl; try lia
  end.

Lemma days_in_month_bounds (y m : Z) : 28 <= days_in_month y m <= 31.
Proof.
  unfold days_in_month.
  destruct (m =? 2); [destruct (is_leap y); lia |].
  destruct ((m =? 4) || (m =? 6) || (m =? 9) || (m =? 11)); lia.
Qed.

(** A year has 365 days, and one more when it is a leap year. *)
Lemma days_before_next_year (y : Z) :
  days_before_year (y + 1)
  = days_before_year y + 365 + (if is_leap y then 1 else 0).
Proof.
  unfold days_before_year, is_leap. cbv zeta.
  replace (y + 1 - 1) with y by lia.
  destruct (Z.eqb_spec (y mod 4) 0); simpl;
    [destruct (Z.eqb_spec (y mod 100) 0); simpl;
       [destruct (Z.eqb_spec (y mod 400) 0); simpl |] |];
    Z.div_mod_to_equations; lia.
Qed.

(** The months add up. *)
Lemma days_before_next_month (y m : Z) :
  1 <= m < 12 ->
  days_before_month y (m + 1) = days_before_month y m + days_in_month y m.
Proof.
  intros Hm.
  assert (m = 1 \/ m = 2 \/ m = 3 \/ m = 4 \/ m = 5 \/ m = 6 \/ m = 7 \/
          m = 8 \/ m = 9 \/ m = 10 \/ m = 11) as Hcases by lia.
  unfold days_before_month, days_in_month, DAYS_BEFORE_MONTH.
  repeat (destruct Hcases as [-> | Hcases]; [destruct (is_leap y); reflexivity |]).
  subst m. destruct (is_leap y); reflexivity.
Qed.

Lemma days_before_december (y : Z) :
  days_before_month y 12 + 31 = 365 + (if is_leap y then 1 else 0).
Proof. unfold days_before_month. simpl. destruct (is_leap y); reflexivity. Qed.

(** [add_one_day] is the successor on the ordinal count and keeps the time
    of day; it is defined up to the last day of [MAXYEAR]. *)
Lemma add_one_day_ordinal (t t' : datetime) :
  valid t -> add_one_day t = Some t' ->
  toordinal t' = toordinal t + 1 /\
  hour t' = hour t /\ minute t' = minute t /\ second t' = second t /\
  microsecond t' = microsecond t /\ valid t'.
Proof.
  intros (Hy & Hm & Hd & Hh & Hmi & Hs & Hus). unfold add_one_day.
  pose proof (days_in_month_bounds (year t) (month t)) as Hb.
  destruct (Z.ltb_spec (day t) (days_in_month (year t) (month t))).
  { intros [= <-]. unfold toordinal, ymd2ord, valid. simpl.
    repeat split; lia. }
  destruct (Z.ltb_spec (month t) 12).
  { intros [= <-]. unfold toordinal, ymd2ord, valid. simpl.
    rewrite days_before_next_month by lia.
    pose proof (days_in_month_bounds (year t) (month t + 1)).
    repeat split; lia. }
  destruct (Z.ltb_spec (year t) MAXYEAR); [| discriminate].
  intros [= <-]. unfold toordinal, ymd2ord, valid. simpl.
  assert (month t = 12) as Em by lia. rewrite Em in *.
  assert (days_in_month (year t) 12 = 31) as E31 by reflexivity.
  assert (days_in_month (year t + 1) 1 = 31) as E31' by reflexivity.
  assert (days_before_month (year t + 1) 1 = 0) as E0 by reflexivity.
  pose proof (days_before_december (year t)) as Hdec.
  pose proof (days_before_next_year (year t)) as Hnext.
  rewrite E0, E31'. unfold MAXYEAR in *. repeat split; lia.
Qed.

Lemma add_one_day_defined (t : datetime) :
  valid t -> year t < MAXYEAR -> exists t', add_one_day t = Some t'.
Proof.
  intros _ Hy. unfold add_one_day.
  destruct (day t <? _); [eauto |]. destruct (month t <? 12); [eauto |].
  destruct (Z.ltb_spec (year t) MAXYEAR); [eauto | lia].
Qed.

Lemma midnight_valid (t : datetime) : valid t -> valid (midnight t).
Proof. unfold valid, midnight. simpl. intuition lia. Qed.

(** The midnight that starts the day is not after any time of that day. *)
Lemma midnight_le (t : datetime) : valid t -> leb (midnight t) t = true.
Proof.
  intros (Hy & Hm & Hd & Hh & Hmi & Hs & Hus).
  unfold leb, gtb, fields, midnight, lex_ltb. simpl.
  rewrite !Z.ltb_irrefl, !Z.eqb_refl. simpl.
  apply negb_true_iff. cmp_cases.
Qed.

(** A midnight of a later ordinal day is after every time of the day. *)
Lemma later_day_gt (t e : datetime) :
  valid t -> add_one_day (midnight t) = Some e -> gtb e t = true.
Proof.
  intros Hv. unfold add_one_day, midnight. simpl.
  destruct Hv as (Hy & Hm & Hd & Hh & Hmi & Hs & Hus).
  destruct (Z.ltb_spec (day t) (days_in_month (year t) (month t))).
  { intros [= <-]. unfold gtb, fields, lex_ltb. simpl.
    rewrite !Z.ltb_irrefl, !Z.eqb_refl. simpl. cmp_cases. }
  destruct (Z.ltb_spec (month t) 12).
  { intros [= <-]. unfold gtb, fields, lex_ltb. simpl.
    rewrite !Z.ltb_irrefl, !Z.eqb_refl. simpl. cmp_cases. }
  destruct (Z.ltb_spec (year t) MAXYEAR); [| discriminate].
  intros [= <-]. unfold gtb, fields, lex_ltb. simpl. cmp_cases.
Qed.

Close Scope Z_scope.

End DatetimeFacts.

(** ** The key and quota service *)

Module ApiKeyFacts.
Import PyStr Datetime ApiKey DatetimeFacts.

#[local] Arguments period_bounds : simpl never.
#[local] Arguments gtb : simpl never.
#[local] Arguments whole_seconds_between : simpl never.
#[local] Arguments rate_limit_exceeded : simpl never.

(** Equality of worlds up to arithmetic on the counters. *)
Ltac world_eq :=
  unfold world_after, counted_usage, record_request;
  cbn [ticks _usage_storage current_period_requests period_start period_end
       api_key last_used];
  rewrite ?insert_insert_eq;
  repeat (first [reflexivity | lia | progress f_equal]).

(** Run the monadic steps that do not depend on the state. *)
Ltac run_steps :=
  repeat (progress
            (cbv beta delta [bind storage is_period_expired
                             _calculate_period_bounds now ret raise store];
             simpl)).

Lemma get_api_key_config_key (keys : list APIKeyConfig) (k : string)
    (cfg : APIKeyConfig) :
  get_api_key_config keys k = Some cfg -> key cfg = k.
Proof.
  induction keys as [|c keys IH]; simpl; [discriminate |].
  destruct (String.eqb_spec (key c) k) as [E|_]; [| exact IH].
  now intros [= <-].
Qed.

Section Service.

Variable clock : nat -> datetime.

Variable config : Config.

(** The three ways through [_get_or_create_usage]. *)
Lemma get_or_create_new (cfg : APIKeyConfig) (w : world) (ps pe : datetime) :
  _usage_storage w !! key cfg = None ->
  period_bounds (period cfg) (clock (ticks w)) = Some (ps, pe) ->
  let usage := {| api_key := key cfg; current_period_requests := 0;
                  period_start := ps; period_end := pe;
                  last_used := None |} in
  _get_or_create_usage clock cfg w
  = (Some usage,
     {| _usage_storage := <[key cfg := usage]> (_usage_storage w);
        ticks := S (ticks w) |}).
Proof.
  intros Hk Hb.
  unfold _get_or_create_usage. run_steps. rewrite Hk. run_steps.
  rewrite Hb. reflexivity.
Qed.

Lemma get_or_create_live (cfg : APIKeyConfig) (w : world) (u : APIKeyUsage) :
  _usage_storage w !! key cfg = Some u ->
  gtb (clock (ticks w)) (period_end u) = false ->
  _get_or_create_usage clock cfg w
  = (Some u, {| _usage_storage := _usage_storage w; ticks := S (ticks w) |}).
Proof.
  intros Hk Hlive.
  unfold _get_or_create_usage. run_steps. rewrite Hk. run_steps.
  rewrite Hlive. reflexivity.
Qed.

Lemma get_or_create_expired (cfg : APIKeyConfig) (w : world)
    (u : APIKeyUsage) (ps pe : datetime) :
  _usage_storage w !! key cfg = Some u ->
  gtb (clock (ticks w)) (period_end u) = true ->
  period_bounds (period cfg) (clock (S (ticks w))) = Some (ps, pe) ->
  _get_or_create_usage clock cfg w
  = (Some (reset_period u ps pe),
     {| _usage_storage := <[key cfg := reset_period u ps pe]> (_usage_storage w);
        ticks := S (S (ticks w)) |}).
Proof.
  intros Hk Hexp Hb.
  unfold _get_or_create_usage. run_steps. rewrite Hk. run_steps.
  rewrite Hexp. run_steps. rewrite Hb. reflexivity.
Qed.

(** The two answers of [validate_api_key] once the usage record is at
    hand. *)
Lemma validate_success (cfg : APIKeyConfig) (k : string) (w w1 : world)
    (usage : APIKeyUsage) :
  api_key_enabled config = true ->
  get_api_key_config (api_keys config) k = Some cfg ->
  _get_or_create_usage clock cfg w = (Some usage, w1) ->
  (current_period_requests usage < max_requests cfg)%Z ->
  validate_api_key clock config k w
  = ((true, None),
     {| _usage_storage :=
          <[k := record_request usage (clock (ticks w1))]> (_usage_storage w1);
        ticks := S (ticks w1) |}).
Proof.
  intros He Hc Hu Hlt. pose proof (get_api_key_config_key _ _ _ Hc) as Hk.
  unfold validate_api_key, validate_body. rewrite He, Hc. simpl.
  unfold bind at 1. rewrite Hu. unfold can_make_request.
  rewrite (proj2 (Z.ltb_lt _ _) Hlt). run_steps. now rewrite Hk.
Qed.

Lemma validate_limited (cfg : APIKeyConfig) (k : string) (w w1 : world)
    (usage : APIKeyUsage) :
  api_key_enabled config = true ->
  get_api_key_config (api_keys config) k = Some cfg ->
  _get_or_create_usage clock cfg w = (Some usage, w1) ->
  (max_requests cfg <= current_period_requests usage)%Z ->
  validate_api_key clock config k w
  = ((false,
      Some (rate_limit_exceeded
              (Some (whole_seconds_between (period_end usage)
                       (clock (ticks w1)))))),
     {| _usage_storage := _usage_storage w1; ticks := S (ticks w1) |}).
Proof.
  intros He Hc Hu Hge.
  unfold validate_api_key, validate_body. rewrite He, Hc. simpl.
  unfold bind at 1. rewrite Hu. unfold can_make_request.
  rewrite (proj2 (Z.ltb_ge _ _) Hge). run_steps. reflexivity.
Qed.

Lemma validate_times_snoc (n : nat) (k : string) (w : world) :
  validate_times clock config (S n) k w
  = let '(rs, w') := validate_times clock config n k w in
    let '(r, w'') := validate_api_key clock config k w' in
    ((rs ++ [r])%list, w'').
Proof.
  revert w. induction n as [|n IH]; intros w.
  - simpl. now destruct (validate_api_key clock config k w).
  - change (validate_times clock config (S (S n)) k w)
      with (let '(r, w') := validate_api_key clock config k w in
            let '(rs, w'') := validate_times clock config (S n) k w' in
            (r :: rs, w'')).
    destruct (validate_api_key clock config k w) as [r w1] eqn:E1.
    rewrite IH. simpl. rewrite E1.
    destruct (validate_times clock config n k w1) as [rs w2].
    now destruct (validate_api_key clock config k w2).
Qed.

Section Period.

Variables (cfg : APIKeyConfig) (k : string) (w : world) (ps pe : datetime).

Variable N : nat.

Hypothesis enabled : api_key_enabled config = true.

Hypothesis configured : get_api_key_config (api_keys config) k = Some cfg.

Hypothesis quota : max_requests cfg = Z.of_nat N.

Hypothesis first_use : _usage_storage w !! k = None.

Hypothesis bounds : period_bounds (period cfg) (clock (ticks w)) = Some (ps, pe).

(** Every reading of the clock during the calls falls within the period. *)
Hypothesis within :
  forall i, i <= 2 * N + 1 -> gtb (clock (ticks w + i)) pe = false.

Lemma first_call :
  0 < N ->
  validate_api_key clock config k w
  = ((true, None), world_after clock k ps pe w 1).
Proof.
  intros HN. pose proof (get_api_key_config_key _ _ _ configured) as Hk.
  rewrite (validate_success cfg k w _ _ enabled configured
             (get_or_create_new cfg w ps pe
                ltac:(now rewrite Hk) bounds)) by (simpl; lia).
  rewrite Hk. world_eq.
Qed.

Lemma next_call (j : nat) :
  1 <= j < N ->
  validate_api_key clock config k (world_after clock k ps pe w j)
  = ((true, None), world_after clock k ps pe w (S j)).
Proof.
  intros Hj. pose proof (get_api_key_config_key _ _ _ configured) as Hk.
  assert (_get_or_create_usage clock cfg (world_after clock k ps pe w j)
          = (Some (counted_usage k ps pe j (clock (ticks w + 2 * j - 1))),
             {| _usage_storage :=
                  _usage_storage (world_after clock k ps pe w j);
                ticks := S (ticks (world_after clock k ps pe w j)) |}))
    as Hu.
  { apply get_or_create_live.
    - rewrite Hk. apply lookup_insert_eq.
    - cbn [world_after ticks _usage_storage counted_usage period_end].
      apply within. lia. }
  rewrite (validate_success cfg k _ _ _ enabled configured Hu)
    by (cbn [counted_usage current_period_requests]; lia).
  world_eq.
Qed.

Lemma limit_call :
  0 < N ->
  validate_api_key clock config k (world_after clock k ps pe w N)
  = ((false,
      Some (rate_limit_exceeded
              (Some (whole_seconds_between pe
                       (clock (ticks w + 2 * N + 1)))))),
     {| _usage_storage := _usage_storage (world_after clock k ps pe w N);
        ticks := ticks w + 2 * N + 2 |}).
Proof.
  intros HN. pose proof (get_api_key_config_key _ _ _ configured) as Hk.
  assert (_get_or_create_usage clock cfg (world_after clock k ps pe w N)
          = (Some (counted_usage k ps pe N (clock (ticks w + 2 * N - 1))),
             {| _usage_storage :=
                  _usage_storage (world_after clock k ps pe w N);
                ticks := S (ticks (world_after clock k ps pe w N)) |}))
    as Hu.
  { apply get_or_create_live.
    - rewrite Hk. apply lookup_insert_eq.
    - cbn [world_after ticks _usage_storage counted_usage period_end].
      apply within. lia. }
  rewrite (validate_limited cfg k _ _ _ enabled configured Hu)
    by (cbn [counted_usage current_period_requests]; lia).
  world_eq.
Qed.

Lemma calls_within (j : nat) :
  1 <= j <= N ->
  validate_times clock config j k w
  = (repeat (true, None) j, world_after clock k ps pe w j).
Proof.
  induction j as [|j IH]; [lia |]. intros Hj.
  destruct j as [|j].
  - simpl. rewrite first_call by lia. reflexivity.
  - rewrite validate_times_snoc, IH by lia.
    rewrite next_call by lia.
    change (repeat (true, None) (S (S j)))
      with ((true, @None OpenAIErrorResponse) :: repeat (true, None) (S j)).
    rewrite repeat_cons. reflexivity.
Qed.

End Period.

(** The bounds of the period around a clock reading [t]: the day from its
    midnight to the midnight of the next day, the month from its first day
    to the first day of the next month, the year rolling after December;
    the reading lies within them. *)
Lemma period_bounds_spec (p : RateLimitPeriod) (t : datetime) :
  valid t -> (year t < MAXYEAR)%Z ->
  exists ps pe,
    period_bounds p t = Some (ps, pe) /\
    (p = DAY ->
     ps = midnight t /\ toordinal pe = (toordinal t + 1)%Z /\
     hour pe = 0%Z /\ minute pe = 0%Z /\ second pe = 0%Z /\
     microsecond pe = 0%Z) /\
    (p = MONTH ->
     ps = {| year := year t; month := month t; day := 1; hour := 0;
             minute := 0; second := 0; microsecond := 0 |} /\
     pe = if (month t =? 12)%Z
          then {| year := year t + 1; month := 1; day := 1; hour := 0;
                  minute := 0; second := 0; microsecond := 0 |}
          else {| year := year t; month := month t + 1; day := 1; hour := 0;
                  minute := 0; second := 0; microsecond := 0 |}) /\
    leb ps t = true /\ gtb pe t = true.
Proof.
  intros Hv Hy. destruct p; unfold period_bounds.
  - destruct (add_one_day_defined (midnight t) (midnight_valid t Hv) Hy)
      as [e He].
    rewrite He. exists (midnight t), e. split; [reflexivity |].
    destruct (add_one_day_ordinal _ _ (midnight_valid t Hv) He)
      as (Ho & Hh & Hm & Hs & Hus & _).
    split; [intros _; repeat split; assumption |].
    split; [discriminate |].
    split; [now apply midnight_le | now apply later_day_gt].
  - destruct Hv as (Hyr & Hm & Hd & Hh & Hmi & Hs & Hus).
    unfold first_of_month, MAXYEAR in *.
    rewrite (proj2 (Z.leb_le 1 (year t))) by lia.
    rewrite (proj2 (Z.leb_le (year t) 9999)) by lia. simpl.
    destruct (Z.eqb_spec (month t) 12) as [E12|N12].
    + rewrite (proj2 (Z.leb_le 1 (year t + 1))) by lia.
      rewrite (proj2 (Z.leb_le (year t + 1) 9999)) by lia. simpl.
      eexists _, _. split; [reflexivity |].
      split; [discriminate |]. split; [intros _; split; reflexivity |].
      unfold leb, gtb, fields, lex_ltb. simpl. split.
      * apply negb_true_iff. cmp_cases.
      * cmp_cases.
    + eexists _, _. split; [reflexivity |].
      split; [discriminate |]. split; [intros _; split; reflexivity |].
      unfold leb, gtb, fields, lex_ltb. simpl. split.
      * apply negb_true_iff. cmp_cases.
      * cmp_cases.
Qed.

(** C1, amended: for a configured key with [max_requests = N] and key
    authentication enabled, while every reading of the clock falls within
    the period opened by the first call, the first [N] validations succeed,
    the [j]-th leaving the counter at [j] and [last_used] at its own clock
    reading, and the next one fails with the error [rate_limit_exceeded];
    the error carries [retry_after], the whole number of seconds left
    until [period_end], when that number is not zero, and has no
    [retry_after] when less than a second is left. *)
Theorem quota_within_period (cfg : APIKeyConfig) (k : string) (w : world)
    (ps pe : datetime) (N : nat) :
  api_key_enabled config = true ->
  get_api_key_config (api_keys config) k = Some cfg ->
  max_requests cfg = Z.of_nat N -> 0 < N ->
  _usage_storage w !! k = None ->
  period_bounds (period cfg) (clock (ticks w)) = Some (ps, pe) ->
  (forall i, i <= 2 * N + 1 -> gtb (clock (ticks w + i)) pe = false) ->
  (forall j, 1 <= j <= N ->
     validate_times clock config j k w
     = (repeat (true, None) j, world_after clock k ps pe w j)) /\
  (let r := whole_seconds_between pe (clock (ticks w + 2 * N + 1)) in
   exists err w',
     validate_times clock config (S N) k w
     = ((repeat (true, None) N ++ [(false, Some err)])%list, w') /\
     _usage_storage w' = _usage_storage (world_after clock k ps pe w N) /\
     type err = "rate_limit_exceeded" /\
     code err = "rate_limit_exceeded" /\
     retry_after err = if (r =? 0)%Z then None else Some r).
Proof.
  intros He Hc Hq HN Hfirst Hb Hwithin.
  assert (forall j, 1 <= j <= N ->
            validate_times clock config j k w
            = (repeat (true, None) j, world_after clock k ps pe w j)) as Hcalls
    by (intros j Hj; eapply calls_within; eassumption).
  split; [exact Hcalls |].
  cbv zeta. eexists _, _.
  rewrite validate_times_snoc, Hcalls by lia.
  erewrite limit_call by eassumption.
  split; [reflexivity |]. split; [reflexivity |].
  split; [reflexivity |]. split; reflexivity.
Qed.

(** C5: a usage record whose [period_end] is behind the clock at a
    validation call is reset, its counter to 0 and its bounds to those of
    the period around the next clock reading (the day from midnight to the
    next midnight, the month from its first day to the first day of the
    next month, the year rolling after December); the call then succeeds
    and counts its own request in the fresh period. *)
Theorem period_rollover (cfg : APIKeyConfig) (k : string) (w : world)
    (u : APIKeyUsage) :
  api_key_enabled config = true ->
  get_api_key_config (api_keys config) k = Some cfg ->
  (0 < max_requests cfg)%Z ->
  _usage_storage w !! k = Some u ->
  gtb (clock (ticks w)) (period_end u) = true ->
  valid (clock (S (ticks w))) -> (year (clock (S (ticks w))) < MAXYEAR)%Z ->
  let t := clock (S (ticks w)) in
  exists ps pe,
    period_bounds (period cfg) t = Some (ps, pe) /\
    _get_or_create_usage clock cfg w
    = (Some (reset_period u ps pe),
       {| _usage_storage := <[k := reset_period u ps pe]> (_usage_storage w);
          ticks := S (S (ticks w)) |}) /\
    current_period_requests (reset_period u ps pe) = 0%Z /\
    period_start (reset_period u ps pe) = ps /\
    period_end (reset_period u ps pe) = pe /\
    (period cfg = DAY ->
     ps = midnight t /\ toordinal pe = (toordinal t + 1)%Z /\
     hour pe = 0%Z /\ minute pe = 0%Z /\ second pe = 0%Z /\
     microsecond pe = 0%Z) /\
    (period cfg = MONTH ->
     ps = {| year := year t; month := month t; day := 1; hour := 0;
             minute := 0; second := 0; microsecond := 0 |} /\
     pe = if (month t =? 12)%Z
          then {| year := year t + 1; month := 1; day := 1; hour := 0;
                  minute := 0; second := 0; microsecond := 0 |}
          else {| year := year t; month := month t + 1; day := 1; hour := 0;
                  minute := 0; second := 0; microsecond := 0 |}) /\
    leb ps t = true /\ gtb pe t = true /\
    validate_api_key clock config k w
    = ((true, None),
       {| _usage_storage :=
            <[k := record_request (reset_period u ps pe)
                     (clock (S (S (ticks w))))]> (_usage_storage w);
          ticks := S (S (S (ticks w))) |}).
Proof.
  intros He Hc Hmax Hu Hexp Hv Hy t.
  pose proof (get_api_key_config_key _ _ _ Hc) as Hk.
  destruct (period_bounds_spec (period cfg) t Hv Hy)
    as (ps & pe & Hb & Hday & Hmonth & Hle & Hgt).
  exists ps, pe.
  assert (_get_or_create_usage clock cfg w
          = (Some (reset_period u ps pe),
             {| _usage_storage :=
                  <[k := reset_period u ps pe]> (_usage_storage w);
                ticks := S (S (ticks w)) |})) as Hget.
  { rewrite <- Hk. apply get_or_create_expired; rewrite ?Hk; assumption. }
  repeat (split; [first [assumption | reflexivity] |]).
  rewrite (validate_success cfg k w _ _ He Hc Hget) by (simpl; lia).
  cbn [ticks _usage_storage]. now rewrite insert_insert_eq.
Qed.

End Service.

(** C1, as stated, fails in the last second of the period: the key allows
    three requests, the clock stands half a second before midnight, the
    fourth validation is refused as [rate_limit_exceeded], zero whole
    seconds are left until [period_end], and the error does not carry a
    [retry_after] equal to that number: it carries none. *)
Lemma retry_after_counterexample :
  exists err usage,
    fst (validate_times example_clock example_config 4 "sk-test-0001"
           empty_world)
    = [(true, None); (true, None); (true, None); (false, Some err)] /\
    _usage_storage
      (snd (validate_times example_clock example_config 4 "sk-test-0001"
              empty_world)) !! "sk-test-0001" = Some usage /\
    type err = "rate_limit_exceeded" /\
    whole_seconds_between (period_end usage) (example_clock 7) = 0%Z /\
    retry_after err = None /\
    retry_after err
    <> Some (whole_seconds_between (period_end usage) (example_clock 7)).
Proof.
  eexists _, _. split; [vm_compute; reflexivity |].
  split; [vm_compute; reflexivity |].
  split; [reflexivity |]. split; [reflexivity |].
  split; [reflexivity | discriminate].
Qed.

Lemma morning_clock_valid (n : nat) :
  valid (morning_clock n) /\ (year (morning_clock n) < MAXYEAR)%Z.
Proof.
  unfold valid, morning_clock, MAXYEAR. cbn.
  pose proof (Nat.mod_upper_bound n 60). lia.
Qed.

Lemma quota_within_period_witness :
  validate_times morning_clock example_config 3 "sk-test-0001" empty_world
  = (repeat (true, None) 3,
     world_after morning_clock "sk-test-0001" example_day_start
       example_day_end empty_world 3).
Proof.
  refine (proj1 (quota_within_period morning_clock example_config
                   example_key_config "sk-test-0001" empty_world
                   example_day_start example_day_end 3
                   eq_refl eq_refl eq_refl _ _ eq_refl _) 3 _).
  - lia.
  - apply lookup_empty.
  - intros i _. reflexivity.
  - lia.
Defined.

Lemma period_rollover_witness :
  exists ps pe,
    period_bounds DAY (morning_clock 1) = Some (ps, pe) /\
    ps = example_day_start /\ pe = example_day_end /\
    fst (_get_or_create_usage morning_clock example_key_config stale_world)
    = Some (reset_period stale_usage ps pe).
Proof.
  destruct (period_rollover morning_clock example_config example_key_config
              "sk-test-0001" stale_world stale_usage
              eq_refl eq_refl eq_refl eq_refl eq_refl
              (proj1 (morning_clock_valid 1)) (proj2 (morning_clock_valid 1)))
    as (ps & pe & Hb & Hget & _).
  exists ps, pe. split; [exact Hb |].
  assert (Some (ps, pe) = Some (example_day_start, example_day_end)) as E
    by (rewrite <- Hb; reflexivity).
  injection E as -> ->. split; [reflexivity |]. split; [reflexivity |].
  now rewrite Hget.
Defined.

End ApiKeyFacts.

(** ** The session manager *)

Module SessionsFacts.
Import PyStr Json Sessions.

(** Run the monadic steps that do not depend on the state. *)
Ltac run_steps :=
  repeat (progress
            (cbv beta delta [bind get_state modify ret raise now];
             simpl)).

Lemma is_expired_iff (s : Session) (t : Z) :
  is_expired s t = true <->
  (last_activity s + minutes (timeout_minutes s) < t)%Z.
Proof. unfold is_expired. apply Z.ltb_lt. Qed.

Section Manager.

Variable clock : nat -> Z.

(** Removing a cached session drops it from the memory and from the
    store. *)
Lemma remove_cached (sid : string) (m : manager) (s : Session) :
  sessions m !! sid = Some s ->
  remove_session clock sid m
  = (Ok true,
     {| sessions := delete sid (sessions m);
        db := db_delete_session sid (db m);
        total_sessions_created := total_sessions_created m;
        ticks := S (ticks m) |}).
Proof.
  intros Hs. unfold remove_session. run_steps. rewrite Hs. run_steps.
  reflexivity.
Qed.

Lemma get_session_absent (sid : string) (m : manager) :
  sessions m !! sid = None -> get_session clock sid m = (Ok None, m).
Proof.
  intros Hs. unfold get_session. run_steps. now rewrite Hs.
Qed.

Lemma get_session_expired (sid : string) (m : manager) (s : Session) :
  sessions m !! sid = Some s -> is_expired s (clock (ticks m)) = true ->
  get_session clock sid m
  = (Ok None,
     {| sessions := delete sid (sessions m);
        db := db_delete_session sid (db m);
        total_sessions_created := total_sessions_created m;
        ticks := S (S (ticks m)) |}).
Proof.
  intros Hs He. unfold get_session. run_steps. rewrite Hs. run_steps.
  rewrite He.
  rewrite (remove_cached sid _ s) by exact Hs. reflexivity.
Qed.

Lemma get_session_live (sid : string) (m : manager) (s : Session) :
  sessions m !! sid = Some s -> is_expired s (clock (ticks m)) = false ->
  get_session clock sid m
  = (Ok (Some s),
     {| sessions := sessions m; db := db m;
        total_sessions_created := total_sessions_created m;
        ticks := S (ticks m) |}).
Proof.
  intros Hs He. unfold get_session. run_steps. rewrite Hs. run_steps.
  now rewrite He.
Qed.

(** C4: a session is expired exactly when the clock is strictly later than
    its last activity plus its timeout in minutes; [get_session] answers
    absent for an id that is not cached; for a cached session that is
    expired it removes the session from the memory cache and from the
    durable store, leaving the other sessions as they are, and answers
    absent; otherwise it answers the cached session. *)
Theorem get_session_spec (sid : string) (m : manager) :
  (forall s t,
     is_expired s t = true <->
     (last_activity s + minutes (timeout_minutes s) < t)%Z) /\
  (sessions m !! sid = None -> get_session clock sid m = (Ok None, m)) /\
  (forall s,
     sessions m !! sid = Some s ->
     (last_activity s + minutes (timeout_minutes s) < clock (ticks m))%Z ->
     exists m',
       get_session clock sid m = (Ok None, m') /\
       sessions m' !! sid = None /\ db m' !! sid = None /\
       (forall sid', sid' <> sid ->
          sessions m' !! sid' = sessions m !! sid' /\
          db m' !! sid' = db m !! sid')) /\
  (forall s,
     sessions m !! sid = Some s ->
     ~ (last_activity s + minutes (timeout_minutes s) < clock (ticks m))%Z ->
     exists m',
       get_session clock sid m = (Ok (Some s), m') /\
       sessions m' = sessions m /\ db m' = db m).
Proof.
  split; [apply is_expired_iff |]. split; [apply get_session_absent |].
  split.
  - intros s Hs He. apply is_expired_iff in He.
    rewrite (get_session_expired sid m s Hs He).
    eexists. split; [reflexivity |]. simpl. unfold db_delete_session.
    split; [apply lookup_delete_eq |]. split; [apply lookup_delete_eq |].
    intros sid' ne. now rewrite !lookup_delete_ne.
  - intros s Hs He.
    assert (is_expired s (clock (ticks m)) = false) as Hf.
    { destruct (is_expired s (clock (ticks m))) eqn:E; [| reflexivity].
      apply is_expired_iff in E. contradiction. }
    rewrite (get_session_live sid m s Hs Hf).
    eexists. split; [reflexivity |]. split; reflexivity.
Qed.

(** The row a lookup of the store hands over holds [datetime] objects. *)
Lemma parsed_last_activity (r dbs : row) :
  parse_timestamps r = Some dbs ->
  fromisoformat (r_last_activity dbs) = None.
Proof.
  unfold parse_timestamps.
  destruct (fromisoformat (r_created_at r)); [| discriminate].
  destruct (fromisoformat (r_last_activity r)); [| discriminate].
  now intros [= <-].
Qed.

(** A session that is in the store and not in the memory is never brought
    back: the rehydration branch parses a timestamp that the store has
    parsed already, and raises. *)
Lemma cold_lookup_raises (id : string) (kw : kwargs) (hex : string)
    (m : manager) (dbs : row) :
  truthy id = true -> sessions m !! id = None ->
  db_get_session id (db m) = Some dbs ->
  exists m',
    get_or_create_session clock (Some id) kw hex m = (Raise TypeError, m') /\
    sessions m' = sessions m /\ db m' = db m /\
    total_sessions_created m' = total_sessions_created m.
Proof.
  intros Ht Hs Hdb. unfold get_or_create_session. rewrite Ht.
  unfold bind at 1. rewrite (get_session_absent id m Hs).
  run_steps. rewrite Hdb. unfold rehydrate.
  destruct (kw_claude_working_dir kw).
  - eexists. split; [reflexivity |]. repeat split.
  - run_steps.
    unfold db_get_session in Hdb. destruct (db m !! id) as [r|]; [| discriminate].
    rewrite (parsed_last_activity r dbs Hdb).
    eexists. split; [reflexivity |]. repeat split.
Qed.

End Manager.

(** C4 on the idle session: one microsecond past its timeout it is gone
    from both places. *)
Lemma get_session_spec_witness :
  exists m',
    get_session late_clock "abc123" idle_manager = (Ok None, m') /\
    sessions m' !! "abc123" = None /\ db m' !! "abc123" = None.
Proof.
  destruct (proj1 (proj2 (proj2 (get_session_spec late_clock "abc123"
                                   idle_manager)))
              idle_session eq_refl eq_refl)
    as (m' & Hget & Hs & Hd & _).
  now exists m'.
Defined.

(** C8 on its round trip: the session was created and persisted with its
    backend conversation id, it is gone from the memory and still in the
    store, it is not expired, and asking for it again raises [TypeError]
    instead of returning the rehydrated session; the memory stays without
    it. *)
Theorem rehydration_raises :
  sessions evicted_manager !! "abc123" = None /\
  (exists r, db evicted_manager !! "abc123" = Some r /\
             r_claude_session_id r = Some "conv-1" /\
             r_message_count r = 0%Z) /\
  (exists s, sessions persisted_manager !! "abc123" = Some s /\
             claude_session_id s = Some "conv-1" /\
             message_count s = 1%Z /\
             is_expired s (seconds_clock (ticks evicted_manager)) = false) /\
  fst asked_again = Raise TypeError /\
  sessions (snd asked_again) !! "abc123" = None.
Proof.
  split; [vm_compute; reflexivity |].
  split; [eexists; split; [vm_compute; reflexivity | split; reflexivity] |].
  split; [eexists; split; [vm_compute; reflexivity | repeat split] |].
  split; vm_compute; reflexivity.
Qed.

End SessionsFacts.

(** ** The items of an assistant message *)

Module AssistantContentFacts.
Import PyStr Json ContentParser.

(** X1: of the content items of an assistant message only the first text
    or tool_use item counts: the items of other types before it are skipped,
    whatever follows it is never looked at, and the message yields nothing
    exactly when it has no text and no tool_use item. *)
Theorem first_item_decides (msg : assistant_message) (sid : option string)
    (items : list content_item) :
  (first_item msg sid items = None <->
   Forall (fun i => i = OtherItem) items) /\
  (forall skipped item rest,
     items = (skipped ++ item :: rest)%list ->
     Forall (fun i => i = OtherItem) skipped -> item <> OtherItem ->
     first_item msg sid items = first_item msg sid [item] /\
     is_Some (first_item msg sid items)).
Proof.
  split.
  - induction items as [|i items IH]; cbn [first_item].
    + split; [constructor | reflexivity].
    + destruct i as [text|id name input|].
      * split; [discriminate | intros H; inversion H; discriminate].
      * split; [destruct (String.eqb _ _); discriminate
               | intros H; inversion H; discriminate].
      * rewrite IH. split; [now constructor | intros H; now inversion H].
  - intros skipped item rest -> Hskipped Hitem.
    induction Hskipped as [|i skipped -> _ IH]; [| exact IH].
    cbn [app]. destruct item as [text|id name input|]; [| | contradiction].
    + cbn. split; [reflexivity | eauto].
    + cbn. destruct (String.eqb _ _); split; (reflexivity || eauto).
Qed.

Lemma first_item_decides_witness :
  first_item TaskList.example_message None
    [OtherItem; TextItem (Some "plan"); TextItem (Some "error")]
  = first_item TaskList.example_message None [TextItem (Some "plan")].
Proof.
  apply (proj2 (first_item_decides TaskList.example_message None _)
           [OtherItem] (TextItem (Some "plan")) [TextItem (Some "error")]
           eq_refl).
  - repeat constructor.
  - discriminate.
Defined.

End AssistantContentFacts.

(** ** The lines of the output reader *)

Module ReaderLineFacts.
Import ClaudeProcess ReaderLines ReaderFacts.

Open Scope Z_scope.
Open Scope list_scope.

Lemma decode_invalid_start (b : Z) (rest : list Z) :
  invalid_start b -> utf8_decode (b :: rest) = None.
Proof.
  intros H. unfold invalid_start in H. cbn [utf8_decode].
  destruct H as [H|H]; decide_cmp; rewrite ?andb_false_r, ?andb_false_l;
    reflexivity.
Qed.

(** *** The lines of a text *)

Lemma split_lines_lf_free (text : list Z) :
  Forall lf_free (split_lines text).1 /\ lf_free (split_lines text).2.
Proof.
  induction text as [|c text [IH1 IH2]]; cbn.
  - split; [constructor | apply not_elem_of_nil].
  - destruct (split_lines text) as [ls remainder]. cbn in *.
    destruct (Z.eqb_spec c 10) as [->|ne]; cbn.
    + split; [| exact IH2]. constructor; [apply not_elem_of_nil | exact IH1].
    + destruct ls as [|l ls]; cbn.
      * split; [constructor |]. unfold lf_free in *.
        rewrite elem_of_cons. intros [E|H]; [congruence | contradiction].
      * inversion IH1 as [|? ? Hl Hls]; subst. split; [| exact IH2].
        constructor; [| exact Hls]. unfold lf_free in *.
        rewrite elem_of_cons. intros [E|H]; [congruence | contradiction].
Qed.

(** The first line feed of a text is where it is. *)
Lemma first_line_unique (l l' r r' : list Z) :
  lf_free l -> lf_free l' -> l ++ 10 :: r = l' ++ 10 :: r' ->
  l = l' /\ r = r'.
Proof.
  unfold lf_free. revert l'. induction l as [|c l IH]; intros l' Hl Hl' E.
  - destruct l' as [|c' l']; [now injection E as <- |].
    injection E as <- _. exfalso. apply Hl'. apply list_elem_of_here.
  - destruct l' as [|c' l'].
    + injection E as -> _. exfalso. apply Hl. apply list_elem_of_here.
    + injection E as <- E. destruct (IH l') as [<- <-]; try easy.
      * intros H. apply Hl. now apply elem_of_cons; right.
      * intros H. apply Hl'. now apply elem_of_cons; right.
Qed.

Lemma terminated_unique (ls ls' : list (list Z)) (r r' : list Z) :
  Forall lf_free ls -> lf_free r -> Forall lf_free ls' -> lf_free r' ->
  terminated ls r = terminated ls' r' -> ls = ls' /\ r = r'.
Proof.
  unfold terminated. revert ls'.
  induction ls as [|l ls IH]; intros ls' Hls Hr Hls' Hr' E.
  - destruct ls' as [|l' ls']; [now split |].
    cbn in E. exfalso. apply Hr. rewrite E, <- !List.app_assoc.
    apply elem_of_app. right. apply list_elem_of_here.
  - destruct ls' as [|l' ls'].
    + cbn in E. exfalso. apply Hr'. rewrite <- E, <- !List.app_assoc.
      apply elem_of_app. right. apply list_elem_of_here.
    + cbn in E. rewrite <- !List.app_assoc in E. cbn in E.
      inversion Hls as [|? ? Hl Hls1]; subst.
      inversion Hls' as [|? ? Hl' Hls1']; subst.
      apply first_line_unique in E as [<- E]; try assumption.
      destruct (IH ls' Hls1 Hr Hls1' Hr' E) as [<- <-]. now split.
Qed.

(** The loop cuts a text into the lines it is made of. *)
Lemma split_lines_terminated (ls : list (list Z)) (remainder : list Z) :
  Forall lf_free ls -> lf_free remainder ->
  split_lines (terminated ls remainder) = (ls, remainder).
Proof.
  intros Hls Hr.
  pose proof (split_lines_text (terminated ls remainder)) as Ht.
  pose proof (split_lines_lf_free (terminated ls remainder)) as [H1 H2].
  destruct (split_lines (terminated ls remainder)) as [ls' r']. cbn in *.
  destruct (terminated_unique ls' ls r' remainder H1 H2 Hls Hr Ht)
    as [-> ->].
  reflexivity.
Qed.

Lemma split_lines_no_line (l : list Z) :
  lf_free l -> split_lines l = ([], l).
Proof. intros H. exact (split_lines_terminated [] l (Forall_nil_2 _) H). Qed.

Lemma terminated_app (before after : list (list Z)) (l remainder : list Z) :
  terminated (before ++ l :: after) remainder
  = terminated before l ++ 10 :: terminated after remainder.
Proof.
  unfold terminated. rewrite flat_map_app. cbn [flat_map].
  rewrite <- !List.app_assoc. reflexivity.
Qed.

Lemma terminated_scalar (ls : list (list Z)) (remainder : list Z) :
  Forall (Forall scalar) ls -> Forall scalar remainder ->
  Forall scalar (terminated ls remainder).
Proof.
  intros Hs Hr. unfold terminated. apply Forall_app. split; [| exact Hr].
  induction Hs as [|l ls Hl _ IH]; [constructor |].
  cbn. rewrite <- List.app_assoc. apply Forall_app. split; [exact Hl |].
  constructor; [| exact IH]. unfold scalar. lia.
Qed.

Lemma utf8_encode_app (a b : list Z) :
  utf8_encode (a ++ b) = utf8_encode a ++ utf8_encode b.
Proof. unfold utf8_encode. apply flat_map_app. Qed.

Section Reader.

Variable stage_raises : list Z -> bool.

Lemma feed_invalid (lb bb : list Z) (b start : Z) (ls' : list (list Z)) :
  invalid_start start -> (length bb <= 2)%nat ->
  feed stage_raises
    {| line_buffer := lb; byte_buffer := start :: bb; lines := ls';
       raised := false |} b
  = {| line_buffer := lb; byte_buffer := start :: bb ++ [b]; lines := ls';
       raised := false |}.
Proof.
  intros Hs Hlen. unfold feed.
  cbn [raised byte_buffer line_buffer lines app].
  rewrite (decode_invalid_start start _ Hs).
  destruct (Nat.ltb_spec 4 (length (start :: bb ++ [b]))) as [H|H];
    [| reflexivity].
  cbn in H. rewrite length_app in H. cbn in H. lia.
Qed.

(** X2: a byte that cannot start a UTF-8 sequence is not skipped alone:
    it stays in the byte buffer, nothing decodes until the buffer holds
    five bytes, and then all five are thrown away.  The four bytes after
    the bad one are lost, whatever they are, line feeds included. *)
Theorem invalid_byte_swallows_four (st : reader) (b0 b1 b2 b3 b4 : Z) :
  byte_buffer st = [] -> invalid_start b0 ->
  feed_all stage_raises st [b0; b1; b2; b3; b4] = st.
Proof.
  intros Hbb H0. destruct st as [lb bb ls r]. cbn in Hbb. subst bb.
  destruct r; [now apply feed_all_raised |].
  unfold feed_all. cbn [fold_left].
  assert (feed stage_raises
            {| line_buffer := lb; byte_buffer := []; lines := ls;
               raised := false |} b0
          = {| line_buffer := lb; byte_buffer := [b0]; lines := ls;
               raised := false |}) as ->.
  { unfold feed. cbn [raised byte_buffer line_buffer lines app].
    now rewrite (decode_invalid_start b0 [] H0). }
  rewrite (feed_invalid lb [] b1 b0 ls H0) by (cbn; lia). cbn [app].
  rewrite (feed_invalid lb [b1] b2 b0 ls H0) by (cbn; lia). cbn [app].
  rewrite (feed_invalid lb [b1; b2] b3 b0 ls H0) by (cbn; lia). cbn [app].
  unfold feed. cbn [raised byte_buffer line_buffer lines app].
  now rewrite (decode_invalid_start b0 _ H0).
Qed.

(** *** The end of the stream *)

Lemma feed_buffer (st : reader) (b : Z) :
  byte_buffer st = [] \/ utf8_decode (byte_buffer st) = None ->
  byte_buffer (feed stage_raises st b) = [] \/
  utf8_decode (byte_buffer (feed stage_raises st b)) = None.
Proof.
  intros Hst. unfold feed. destruct (raised st); [exact Hst |].
  destruct (utf8_decode (byte_buffer st ++ [b])) eqn:E.
  - left. apply deliver_text.
  - destruct (4 <? length (byte_buffer st ++ [b]))%nat; [now left |].
    right. exact E.
Qed.

Lemma feed_all_buffer (st : reader) (bs : list Z) :
  byte_buffer st = [] \/ utf8_decode (byte_buffer st) = None ->
  byte_buffer (feed_all stage_raises st bs) = [] \/
  utf8_decode (byte_buffer (feed_all stage_raises st bs)) = None.
Proof.
  revert st. induction bs as [|b bs IH]; intros st H; [exact H |].
  apply (IH (feed stage_raises st b)), feed_buffer, H.
Qed.

Lemma read_stream_feed_all (bs : list Z) :
  read_stream stage_raises bs = feed_all stage_raises reader_init bs.
Proof.
  unfold read_stream, at_eof.
  destruct (raised (feed_all stage_raises reader_init bs)); [reflexivity |].
  destruct (feed_all_buffer reader_init bs (or_introl eq_refl)) as [E|E].
  - now rewrite E.
  - destruct (byte_buffer (feed_all stage_raises reader_init bs));
      [reflexivity |].
    now rewrite E.
Qed.

(** X3: whatever bytes the backend has written, at the end of the stream
    the byte buffer is empty or does not decode: the decoding attempted at
    the end of the stream never adds text, and what was read is what the
    loop had delivered before. *)
Theorem eof_adds_nothing (bs : list Z) :
  (byte_buffer (feed_all stage_raises reader_init bs) = [] \/
   utf8_decode (byte_buffer (feed_all stage_raises reader_init bs)) = None) /\
  read_stream stage_raises bs = feed_all stage_raises reader_init bs.
Proof.
  split; [| apply read_stream_feed_all].
  apply feed_all_buffer. now left.
Qed.

(** *** The lines cut off *)

(** As long as no line raises, the reader holds the lines of what it has
    read and the unfinished line after them. *)
Lemma feed_all_lines (st : reader) (text : list Z) :
  raised st = false -> byte_buffer st = [] -> lf_free (line_buffer st) ->
  Forall scalar text ->
  quiet stage_raises (split_lines (line_buffer st ++ text)).1 ->
  feed_all stage_raises st (utf8_encode text)
  = {| line_buffer := (split_lines (line_buffer st ++ text)).2;
       byte_buffer := [];
       lines := lines st ++ (split_lines (line_buffer st ++ text)).1;
       raised := false |}.
Proof.
  intros Hr Hbb Hlf Htext. revert st Hr Hbb Hlf.
  induction Htext as [|c text Hc _ IH]; intros st Hr Hbb Hlf Hq.
  - rewrite List.app_nil_r, (split_lines_no_line _ Hlf).
    destruct st as [lb bb ls r]. cbn in *. subst.
    now rewrite List.app_nil_r.
  - unfold utf8_encode. cbn [flat_map]. fold (utf8_encode text).
    rewrite feed_all_app, (feed_character stage_raises st c Hr Hbb Hc).
    change (c :: text) with ([c] ++ text) in *.
    rewrite List.app_assoc, split_lines_app in *. cbn [fst snd] in *.
    apply Forall_app in Hq as [Hq1 Hq2].
    rewrite (deliver_quiet stage_raises st [c] Hq1).
    set (st1 := {| line_buffer := (split_lines (line_buffer st ++ [c])).2;
                   byte_buffer := [];
                   lines := lines st ++ (split_lines (line_buffer st ++ [c])).1;
                   raised := false |}).
    rewrite (IH st1 eq_refl eq_refl
               (proj2 (split_lines_lf_free (line_buffer st ++ [c]))) Hq2).
    cbn [line_buffer lines]. now rewrite List.app_assoc.
Qed.

(** X4: of a text that arrives in UTF-8, one byte at a time, the lines the
    loop cuts off are the lines that a line feed ends, in order and
    unchanged, up to the first line whose handling raises.  When no line
    raises they are all the lines, and what follows the last line feed
    stays in the line buffer, also when the stream ends, and is never
    handled.  When a line raises it is the last line cut off: the stream is
    given up there and the lines after it are never cut off. *)
Theorem lines_delivered (ls : list (list Z)) (remainder : list Z) :
  Forall (Forall scalar) ls -> Forall scalar remainder ->
  Forall lf_free ls -> lf_free remainder ->
  let st := read_stream stage_raises (utf8_encode (terminated ls remainder)) in
  (quiet stage_raises ls ->
   lines st = ls /\ line_buffer st = remainder /\ raised st = false) /\
  (forall before l after,
     ls = before ++ l :: after ->
     quiet stage_raises before -> stage_raises l = true ->
     lines st = before ++ [l] /\ line_buffer st = [] /\ raised st = true).
Proof.
  intros Hs Hr Hl Hlr st. unfold st. rewrite read_stream_feed_all. split.
  - intros Hq.
    pose proof (feed_all_lines reader_init (terminated ls remainder)
                  eq_refl eq_refl (not_elem_of_nil 10)
                  (terminated_scalar ls remainder Hs Hr)) as E.
    cbn [reader_init line_buffer lines app] in E.
    rewrite (split_lines_terminated ls remainder Hl Hlr) in E.
    cbn [fst snd] in E. rewrite (E Hq). now cbn.
  - intros before l after -> Hq Hraise.
    apply Forall_app in Hs as [Hsb Hsa]. apply Forall_app in Hl as [Hlb Hla].
    inversion Hsa as [|? ? Hsl Hsa']; subst.
    inversion Hla as [|? ? Hll Hla']; subst.
    rewrite terminated_app, utf8_encode_app, feed_all_app.
    pose proof (feed_all_lines reader_init (terminated before l)
                  eq_refl eq_refl (not_elem_of_nil 10)
                  (terminated_scalar before l Hsb Hsl)) as E.
    cbn [reader_init line_buffer lines app] in E.
    rewrite (split_lines_terminated before l Hlb Hll) in E.
    cbn [fst snd] in E. rewrite (E Hq). clear E.
    change (utf8_encode (10 :: terminated after remainder))
      with (utf8_encode_char 10 ++ utf8_encode (terminated after remainder)).
    rewrite feed_all_app, feed_character;
      [| reflexivity | reflexivity | unfold scalar; lia].
    assert (deliver stage_raises
              {| line_buffer := l; byte_buffer := []; lines := before;
                 raised := false |} [10]
            = {| line_buffer := []; byte_buffer := [];
                 lines := before ++ [l]; raised := true |}) as ->.
    { unfold deliver. cbn [line_buffer lines].
      replace (l ++ [10]) with (terminated [l] [])
        by (unfold terminated; cbn; now rewrite !List.app_nil_r).
      rewrite (split_lines_terminated [l] []);
        [| now repeat constructor | apply not_elem_of_nil].
      cbn [hand_over]. now rewrite Hraise. }
    now rewrite feed_all_raised.
Qed.

End Reader.

(** A stray continuation byte before the text [ab], a line feed and [c]:
    the reader is where it started. *)
Lemma invalid_byte_swallows_four_witness :
  feed_all example_stage reader_init [0x80; 0x61; 0x62; 0x0A; 0x63]
  = reader_init.
Proof.
  apply invalid_byte_swallows_four; [reflexivity |].
  unfold invalid_start. lia.
Defined.

(** The line [[1]], whose handling raises, before the line [{}]: the first
    is the only line cut off. *)
Lemma lines_delivered_witness :
  lines (read_stream example_stage
           (utf8_encode [0x5B; 0x31; 0x5D; 10; 0x7B; 0x7D; 10]))
  = [[0x5B; 0x31; 0x5D]] /\
  raised (read_stream example_stage
            (utf8_encode [0x5B; 0x31; 0x5D; 10; 0x7B; 0x7D; 10])) = true.
Proof.
  assert (Forall (Forall scalar) [[0x5B; 0x31; 0x5D]; [0x7B; 0x7D]]) as Hs
    by (repeat constructor; unfold scalar; lia).
  assert (Forall lf_free [[0x5B; 0x31; 0x5D]; [0x7B; 0x7D]]) as Hl.
  { repeat constructor; unfold lf_free;
      rewrite ?elem_of_cons, elem_of_nil; lia. }
  destruct (proj2 (lines_delivered example_stage
                     [[0x5B; 0x31; 0x5D]; [0x7B; 0x7D]] []
                     Hs (Forall_nil_2 _) Hl (not_elem_of_nil _))
              [] [0x5B; 0x31; 0x5D] [[0x7B; 0x7D]]
              eq_refl (Forall_nil_2 _) eq_refl)
    as (Hlines & _ & Hraised).
  split; [exact Hlines | exact Hraised].
Defined.

End ReaderLineFacts.

(** ** The shape of a stream *)

Module StreamShapeFacts.
Import PyStr Json ContentParser StreamService StreamShape.

Lemma nonblank_truthy (line : string) :
  nonblank line = true -> negb (truthy line) || blank line = false.
Proof.
  unfold nonblank. destruct line; [discriminate |].
  intros H. apply negb_true_iff in H. now rewrite H.
Qed.

Lemma parse_nonblank (line : string) :
  nonblank line = true ->
  content_type (parse_text_content line) = _classify_text_content line /\
  content (parse_text_content line) = line /\
  tool_info (parse_text_content line) = None /\
  session_id (parse_text_content line) = None.
Proof.
  intros H. unfold parse_text_content. rewrite (nonblank_truthy line H).
  repeat split.
Qed.

Lemma classes (text : string) :
  let c := _classify_text_content text in
  c = ERROR_HANDLING \/ c = PLANNING \/ c = THINKING \/ c = EXECUTION \/
  c = ANALYSIS \/ c = REGULAR_TEXT.
Proof.
  unfold _classify_text_content. cbv zeta.
  repeat match goal with
         | |- context [if ?b then _ else _] => destruct b
         end; tauto.
Qed.

Section Stream.

Variable clock : nat -> Z.

Variables response_id model : string.

Lemma structured_response_shown (line : string) (created : Z) :
  nonblank line = true ->
  is_Some (_create_structured_response response_id
             (parse_text_content line) model created)
  <-> shown line = true.
Proof.
  intros Hn. unfold shown, has_class. rewrite Hn. cbn [andb].
  destruct (parse_nonblank line Hn) as (Hc & _).
  unfold _create_structured_response. rewrite Hc.
  destruct (classes line) as [E|[E|[E|[E|[E|E]]]]]; rewrite E; cbn;
    split; intros H; try reflexivity; try discriminate;
    try (now eexists); now destruct H.
Qed.

(** What the loop over the lines leaves: one frame per shown line, the
    parsed contents of the non-blank lines, one clock reading per frame. *)
Lemma consume_shape (lines : list string) (pcs : list ParsedContent)
    (tick : nat) :
  let r := consume clock response_id model lines pcs tick in
  length r.1.1 = length (List.filter shown lines) /\
  r.1.2 = (pcs ++ map parse_text_content (List.filter nonblank lines))%list /\
  r.2 = tick + length (List.filter shown lines).
Proof.
  revert pcs tick. induction lines as [|line rest IH]; intros pcs tick.
  - cbn. rewrite List.app_nil_r. repeat split. lia.
  - cbn [consume List.filter]. fold (nonblank line).
    destruct (nonblank line) eqn:Hn; cbn [andb negb].
    2: { assert (shown line = false) as -> by (unfold shown; now rewrite Hn).
         apply IH. }
    pose proof (structured_response_shown line (clock tick) Hn) as Hs.
    destruct (_create_structured_response _ _ _ _) as [data|].
    + rewrite (proj1 Hs) by eauto.
      specialize (IH (pcs ++ [parse_text_content line])%list (S tick)).
      destruct (consume _ _ _ _ _ _) as [[frames pcs'] t].
      cbn in *. destruct IH as (H1 & H2 & H3).
      rewrite H1, H2, H3, <- List.app_assoc. repeat split. lia.
    + destruct (shown line) eqn:Ha;
        [destruct (proj2 Hs eq_refl); discriminate |].
      specialize (IH (pcs ++ [parse_text_content line])%list tick).
      destruct (consume _ _ _ _ _ _) as [[frames pcs'] t].
      cbn in *. destruct IH as (H1 & H2 & H3).
      rewrite H1, H2, H3, <- List.app_assoc. repeat split.
Qed.

Lemma consume_nonblank (lines : list string) (pcs : list ParsedContent)
    (tick : nat) :
  consume clock response_id model (List.filter nonblank lines) pcs tick
  = consume clock response_id model lines pcs tick.
Proof.
  revert pcs tick. induction lines as [|line rest IH]; intros pcs tick;
    [reflexivity |].
  cbn [List.filter]. destruct (nonblank line) eqn:Hn.
  - cbn [consume]. fold (nonblank line). rewrite Hn.
    destruct (_create_structured_response _ _ _ _); now rewrite IH.
  - cbn [consume]. fold (nonblank line). now rewrite Hn.
Qed.

(** X5: blank lines of the backend leave no trace in the stream: with or
    without them, the generator yields the same frames. *)
Theorem blank_lines_ignored (lines : list string) (e : ending) :
  create_claude_stream clock response_id model
    (List.filter nonblank lines) e
  = create_claude_stream clock response_id model lines e.
Proof. unfold create_claude_stream. now rewrite consume_nonblank. Qed.

(** X6: the number of frames of a stream: the opening frame, one chunk per
    non-blank line that is not classified as analysis, then, when the line
    stream is exhausted, a summary frame if there was a non-blank line, the
    closing chunk and the [DONE] frame; when it raises, the error frame
    alone. *)
Theorem frame_count (lines : list string) :
  length (create_claude_stream clock response_id model lines Exhausted)
  = 3 + length (List.filter shown lines)
    + (if existsb nonblank lines then 1 else 0) /\
  forall message,
    length (create_claude_stream clock response_id model lines
              (Raises message))
    = 2 + length (List.filter shown lines).
Proof.
  unfold create_claude_stream.
  pose proof (consume_shape lines [] 1) as (H1 & H2 & _).
  destruct (consume clock response_id model lines [] 1) as [[frames pcs] t].
  cbn [fst snd app] in *. split.
  - assert (pcs = [] <-> existsb nonblank lines = false) as Hpcs.
    { rewrite H2. clear. induction lines as [|l lines IH]; [easy |].
      cbn. destruct (nonblank l); cbn; [easy | exact IH]. }
    destruct pcs as [|pc pcs].
    + rewrite (proj1 Hpcs eq_refl). cbn. rewrite length_app. cbn. lia.
    + destruct (existsb nonblank lines);
        [| discriminate (proj2 Hpcs eq_refl)].
      cbn. rewrite !length_app. cbn. lia.
  - intros message. cbn. rewrite length_app. cbn. lia.
Qed.

Lemma filter_nonblank (lines : list string) :
  Forall (fun l => nonblank l = true) (List.filter nonblank lines).
Proof.
  apply Forall_forall. intros l Hin.
  apply list_elem_of_In, filter_In in Hin. tauto.
Qed.

Lemma of_type_has_class (t : ContentType) (line : string) :
  nonblank line = true ->
  t = THINKING \/ t = PLANNING \/ t = EXECUTION \/ t = ERROR_HANDLING \/
  t = ANALYSIS ->
  of_type t (parse_text_content line) = has_class t line.
Proof.
  intros Hn Ht. unfold of_type, has_class.
  rewrite (proj1 (parse_nonblank line Hn)).
  destruct Ht as [->|[->|[->|[->| ->]]]];
    now destruct (_classify_text_content line).
Qed.

Lemma bucket_length (t : ContentType) (ls : list string) :
  Forall (fun l => nonblank l = true) ls ->
  t = THINKING \/ t = PLANNING \/ t = EXECUTION \/ t = ERROR_HANDLING \/
  t = ANALYSIS ->
  length (filter (of_type t) (map parse_text_content ls))
  = length (List.filter (has_class t) ls).
Proof.
  intros Hall Ht. induction Hall as [|l ls Hn _ IH]; [reflexivity |].
  cbn [map List.filter]. rewrite filter_cons.
  rewrite <- (of_type_has_class t l Hn Ht).
  destruct (of_type t (parse_text_content l)) eqn:E.
  - rewrite decide_True by exact I. cbn. now rewrite IH.
  - rewrite decide_False by (intros []). exact IH.
Qed.

Lemma no_tool_use (ls : list string) :
  Forall (fun l => nonblank l = true) ls ->
  filter (of_type TOOL_USE) (map parse_text_content ls) = [] /\
  session_info_of (map parse_text_content ls) = [].
Proof.
  induction 1 as [|l ls Hn _ [IH1 IH2]]; [split; reflexivity |].
  cbn [map]. rewrite filter_cons.
  destruct (parse_nonblank l Hn) as (Hc & _ & _ & Hsid).
  assert (of_type TOOL_USE (parse_text_content l) = false) as E.
  { unfold of_type. rewrite Hc.
    destruct (classes l) as [E|[E|[E|[E|[E|E]]]]]; now rewrite E. }
  rewrite decide_False by (now rewrite E). split; [exact IH1 |].
  unfold session_info_of in *. cbn [List.find]. rewrite Hsid. exact IH2.
Qed.

(** X7: when the backend is exhausted after at least one non-blank line,
    the stream carries the summary of the lines: it counts the non-blank
    lines of each class, and, the lines being classified as free text, it
    never names a tool and never carries session information. *)
Theorem summary_of_stream (lines : list string) :
  existsb nonblank lines = true ->
  let si := extract_structured_info
              (map parse_text_content (List.filter nonblank lines)) in
  In (_format_sse_data
        (_create_summary_response response_id si model
           (clock (1 + length (List.filter shown lines)))))
     (create_claude_stream clock response_id model lines Exhausted) /\
  length (thinking_process si) = count_class THINKING lines /\
  length (planning_steps si) = count_class PLANNING lines /\
  length (execution_flow si) = count_class EXECUTION lines /\
  length (error_handling si) = count_class ERROR_HANDLING lines /\
  length (analysis_results si) = count_class ANALYSIS lines /\
  tool_usage si = [] /\ session_info si = [].
Proof.
  intros Hex si. split.
  - unfold create_claude_stream.
    pose proof (consume_shape lines [] 1) as (_ & H2 & H3).
    destruct (consume clock response_id model lines [] 1)
      as [[frames pcs] t].
    cbn [fst snd app] in *. subst pcs t.
    destruct (map parse_text_content (List.filter nonblank lines))
      as [|pc pcs] eqn:E.
    + exfalso. clear -Hex E. induction lines as [|l lines IH];
        [discriminate |].
      cbn in *. destruct (nonblank l); [discriminate | now apply IH].
    + right. apply in_or_app. right. apply in_or_app. left.
      left. reflexivity.
  - pose proof (filter_nonblank lines) as Hall.
    unfold si, extract_structured_info, count_class.
    cbn [thinking_process planning_steps execution_flow error_handling
         analysis_results tool_usage session_info].
    rewrite !length_map, !bucket_length by (assumption || tauto).
    destruct (no_tool_use _ Hall) as [-> ->]. repeat split.
Qed.

End Stream.

(** A planning line, a blank line and a greeting: one planning step is
    counted and no tool is named. *)
Lemma summary_of_stream_witness :
  let si := extract_structured_info
              (map parse_text_content
                 (List.filter nonblank ["plan the steps"; "  "; "hello"])) in
  length (planning_steps si) = 1%nat /\ tool_usage si = [].
Proof.
  destruct (summary_of_stream (fun n => Z.of_nat n) "chatcmpl-1" "gpt-5"
              ["plan the steps"; "  "; "hello"] eq_refl)
    as (_ & _ & Hplan & _ & _ & _ & Htools & _).
  split; [exact Hplan | exact Htools].
Defined.

End StreamShapeFacts.

(** ** Looking processes up *)

Module ProcessLookupFacts.
Import PyStr ClaudeService ProcessLookup RegistryFacts.

Lemma create_new_cached (cwd : option string) (sid : string)
    (wd : option string) (cont : bool) (uuid : string) (ok : bool)
    (s s1 : service) (l : nat) :
  truthy sid = true ->
  create_new cwd (Some sid) wd cont uuid ok s = (Some l, s1) ->
  session_processes s1 !! sid = Some l /\
  exists h, heap s1 !! l = Some h /\ is_running h = true /\
            process_id h = uuid.
Proof.
  intros Ht. unfold create_new. rewrite Ht.
  destruct ok; [| discriminate]. intros [= <- <-]. cbn.
  split; [apply lookup_insert_eq |].
  eexists. split.
  - rewrite lookup_app_r by lia. rewrite Nat.sub_diag. reflexivity.
  - split; reflexivity.
Qed.

(** X8: a process handed out for a conversation id is running and cached
    under that id, and the next request for the same id reuses it: the same
    object is returned, no new process is created and the registries stay as
    they are, whatever the other arguments of the call. *)
Theorem process_reused (cwd : option string) (sid : string)
    (wd : option string) (cont : bool) (uuid : string) (ok : bool)
    (s s1 : service) (l : nat) :
  truthy sid = true ->
  get_or_create_process cwd (Some sid) wd cont uuid ok s = (Some l, s1) ->
  get_process_by_session sid s1 = Some l /\
  (exists h, heap s1 !! l = Some h /\ is_running h = true) /\
  forall wd' cont' uuid' ok',
    get_or_create_process cwd (Some sid) wd' cont' uuid' ok' s1
    = (Some l, s1).
Proof.
  intros Ht Hcall.
  assert (session_processes s1 !! sid = Some l /\
          exists h, heap s1 !! l = Some h /\ is_running h = true)
    as [Hs (h & Hh & Hr)].
  { revert Hcall. unfold get_or_create_process. rewrite Ht.
    destruct (session_processes s !! sid) as [l0|] eqn:El.
    - destruct (heap s !! l0) as [existing|] eqn:Eh; [| discriminate].
      destruct (is_running existing) eqn:Er.
      + intros [= <- <-]. eauto.
      + intros Hnew. apply create_new_cached in Hnew as [? (h & ? & ? & _)];
          eauto.
    - intros Hnew. apply create_new_cached in Hnew as [? (h & ? & ? & _)];
        eauto. }
  split; [exact Hs |]. split; [eauto |].
  intros wd' cont' uuid' ok'. unfold get_or_create_process.
  now rewrite Ht, Hs, Hh, Hr.
Qed.

Lemma process_reused_witness :
  let s1 := snd (get_or_create_process None (Some "conv-1") None false
                   "p1" true empty_service) in
  get_or_create_process None (Some "conv-1") None true "p2" true s1
  = (Some 0, s1).
Proof.
  exact (proj2 (proj2 (process_reused None "conv-1" None false "p1" true
                         empty_service _ 0 eq_refl eq_refl))
           None true "p2" true).
Defined.

(** A map whose values are pairwise distinct and all occur among the values
    of another map is not the larger one. *)
Lemma size_le_by_values (sp ap : gmap string nat) :
  (forall sid l, sp !! sid = Some l -> exists pid, ap !! pid = Some l) ->
  (forall sid1 sid2 l, sp !! sid1 = Some l -> sp !! sid2 = Some l ->
                       sid1 = sid2) ->
  size sp <= size ap.
Proof.
  revert ap. induction sp as [|sid l sp Hnone IH] using map_ind;
    intros ap Hin Hinj.
  - rewrite map_size_empty. lia.
  - destruct (Hin sid l (lookup_insert_eq _ _ _)) as [pid Hpid].
    rewrite map_size_insert_None by exact Hnone.
    assert (size (delete pid ap) = pred (size ap)) as Hdel
      by (apply map_size_delete_Some; eauto).
    assert (size ap <> 0) by (apply (map_size_ne_0_lookup_2 _ pid); eauto).
    enough (size sp <= size (delete pid ap)) by lia.
    apply IH.
    + intros sid' l' Hl'.
      assert (sid' <> sid) as ne by (intros ->; congruence).
      destruct (Hin sid' l') as [pid' Hpid'];
        [now rewrite lookup_insert_ne |].
      exists pid'. rewrite lookup_delete_ne; [exact Hpid' |].
      intros <-. rewrite Hpid in Hpid'. injection Hpid' as <-.
      apply ne. apply (Hinj sid' sid l).
      * now rewrite lookup_insert_ne.
      * apply lookup_insert_eq.
    + intros sid1 sid2 l' H1 H2.
      assert (sid1 <> sid) by (intros ->; congruence).
      assert (sid2 <> sid) by (intros ->; congruence).
      apply (Hinj sid1 sid2 l'); now rewrite lookup_insert_ne.
Qed.

(** X9: after any sequence of calls to the service, there are never more
    processes cached under a conversation id than processes registered:
    [get_session_process_count] is at most [get_active_process_count]. *)
Theorem session_count_le_active (cwd : option string) (calls : list call) :
  fresh_ids cwd empty_service calls ->
  get_session_process_count (run cwd empty_service calls)
  <= get_active_process_count (run cwd empty_service calls).
Proof.
  intros Hf. destruct (run_inv cwd calls empty_service inv_empty Hf)
    as [H1 H2 _].
  apply size_le_by_values; [| exact H2].
  intros sid l Hl. destruct (H1 sid l Hl) as (pid & _ & Ha). eauto.
Qed.

Lemma example_calls_fresh : fresh_ids None empty_service example_calls.
Proof.
  repeat (split;
          [first [ exact I
                 | apply fresh_id_check; vm_compute; reflexivity ] |]).
  exact I.
Qed.

Lemma session_count_le_active_witness :
  get_session_process_count (run None empty_service example_calls)
  <= get_active_process_count (run None empty_service example_calls).
Proof. exact (session_count_le_active None example_calls example_calls_fresh). Defined.

(** *** Stopping everything *)

(** What the main registry holds carries the id it is held under, and every
    running object is held by the main registry. *)
Record wf (s : service) : Prop := {
  wf_active :
    forall pid l, active_processes s !! pid = Some l ->
                  pid_at s l = Some pid;
  wf_running :
    forall l h, heap s !! l = Some h -> is_running h = true ->
                active_processes s !! process_id h = Some l
}.

Lemma wf_empty : wf empty_service.
Proof.
  split; cbn.
  - intros pid l H. now rewrite lookup_empty in H.
  - intros l h H. now rewrite lookup_nil in H.
Qed.

(** The object a reference points to after a [stop]. *)
Lemma stop_lookup (l l' : nat) (s : service) (h' : handle) :
  heap (stop l s) !! l' = Some h' ->
  (l' <> l /\ heap s !! l' = Some h') \/
  (l' = l /\ is_running h' = false /\
   exists h, heap s !! l = Some h /\ process_id h' = process_id h).
Proof.
  unfold stop. destruct (heap s !! l) as [h|] eqn:E.
  - destruct (is_running h) eqn:Er.
    + cbn [heap]. destruct (decide (l' = l)) as [->|ne].
      * rewrite list_lookup_insert_eq by (eapply lookup_lt_Some; exact E).
        intros [= <-]. right. repeat split. eauto.
      * rewrite list_lookup_insert_ne by congruence. now left.
    + intros H. destruct (decide (l' = l)) as [->|ne]; [| now left].
      right. rewrite E in H. injection H as <-. repeat split; eauto.
  - intros H. left. split; [| exact H]. intros ->. congruence.
Qed.

Lemma stop_wf (l : nat) (s : service) : wf s -> wf (stop l s).
Proof.
  intros [H1 H2]. destruct (stop_registries l s) as [Ea _]. split.
  - intros pid l' H. rewrite stop_pid_at. apply H1. now rewrite <- Ea.
  - intros l' h' Hh Hr. rewrite Ea.
    apply stop_lookup in Hh as [[_ Hh] | (_ & Hstopped & _)];
      [now apply H2 | congruence].
Qed.

(** Dropping the entry of an object from the main registry and stopping the
    object. *)
Lemma unregister_stop_wf (s : service) (pid : string) (l : nat)
    (sp : gmap string nat) :
  wf s -> active_processes s !! pid = Some l ->
  wf (stop l {| heap := heap s;
                active_processes := delete pid (active_processes s);
                session_processes := sp |}).
Proof.
  intros [H1 H2] Ha.
  set (s' := {| heap := heap s;
                active_processes := delete pid (active_processes s);
                session_processes := sp |}).
  destruct (stop_registries l s') as [Ea _]. split.
  - intros pid' l' H. rewrite stop_pid_at. rewrite Ea in H. cbn in H.
    apply lookup_delete_Some in H as [_ H]. exact (H1 pid' l' H).
  - intros l' h' Hh Hr. rewrite Ea. cbn.
    apply stop_lookup in Hh as [[ne Hh] | (_ & Hstopped & _)];
      [| congruence].
    cbn in Hh. pose proof (H2 l' h' Hh Hr) as Hreg.
    rewrite lookup_delete_ne; [exact Hreg |].
    intros E. rewrite <- E, Ha in Hreg. injection Hreg as <-. now apply ne.
Qed.

Lemma remove_process_wf (pid : string) (s : service) :
  wf s -> wf (remove_process pid s).
Proof.
  intros Hwf. unfold remove_process.
  destruct (active_processes s !! pid) as [l|] eqn:Ea; [| exact Hwf].
  now apply unregister_stop_wf.
Qed.

Lemma remove_session_process_wf (sid : string) (s : service) :
  inv s -> wf s -> wf (remove_session_process sid s).
Proof.
  intros [I1 _ _] Hwf. unfold remove_session_process.
  destruct (session_processes s !! sid) as [l|] eqn:El; [| exact Hwf].
  destruct (heap s !! l) as [h|] eqn:Eh; [| exact Hwf].
  apply unregister_stop_wf; [exact Hwf |].
  destruct (I1 sid l El) as (pid & Hp & Ha).
  unfold pid_at in Hp. rewrite Eh in Hp. now injection Hp as <-.
Qed.

Lemma create_new_wf (cwd session_id working_dir : option string)
    (continue_session : bool) (uuid : string) (start_ok : bool)
    (s : service) :
  wf s -> fresh_id uuid s ->
  wf (snd (create_new cwd session_id working_dir continue_session uuid
             start_ok s)).
Proof.
  intros [H1 H2] Hf. unfold create_new. destruct start_ok; cbn [snd].
  - split; cbn [heap active_processes].
    + intros pid l H. apply lookup_insert_Some in H as [[<- <-] | [ne H]].
      * unfold pid_at. cbn [heap].
        now rewrite lookup_app_r, Nat.sub_diag by lia.
      * now apply pid_at_app, H1.
    + intros l h Hh Hr. apply lookup_app_Some in Hh as [Hh | [Hge Hh]].
      * rewrite lookup_insert_ne; [now apply H2 |].
        intros E. apply (Hf h); [| now rewrite E].
        eapply list_elem_of_lookup_2. exact Hh.
      * destruct (l - length (heap s)) as [|n] eqn:En; [| discriminate].
        injection Hh as <-. cbn [process_id set_running].
        replace l with (length (heap s)) by lia. apply lookup_insert_eq.
  - split; cbn [heap active_processes].
    + intros pid l H. now apply pid_at_app, H1.
    + intros l h Hh Hr. apply lookup_app_Some in Hh as [Hh | [Hge Hh]];
        [now apply H2 |].
      destruct (l - length (heap s)) as [|n]; [| discriminate].
      injection Hh as <-. discriminate Hr.
Qed.

Lemma get_or_create_process_wf (cwd session_id working_dir : option string)
    (continue_session : bool) (uuid : string) (start_ok : bool)
    (s : service) :
  inv s -> wf s -> fresh_id uuid s ->
  wf (snd (get_or_create_process cwd session_id working_dir
             continue_session uuid start_ok s)).
Proof.
  intros Hinv Hwf Hf. unfold get_or_create_process.
  destruct session_id as [sid|]; [| now apply create_new_wf].
  destruct (truthy sid); [| now apply create_new_wf].
  destruct (session_processes s !! sid) as [l|] eqn:El;
    [| now apply create_new_wf].
  destruct (heap s !! l) as [existing|] eqn:Eh; [| exact Hwf].
  destruct (is_running existing) eqn:Er; [exact Hwf |].
  apply create_new_wf; [| exact Hf].
  destruct Hinv as [I1 _ _], Hwf as [H1 H2]. split; cbn.
  - intros pid l' H. apply lookup_delete_Some in H as [_ H].
    exact (H1 pid l' H).
  - intros l' h' Hh Hr. pose proof (H2 l' h' Hh Hr) as Hreg.
    rewrite lookup_delete_ne; [exact Hreg |].
    intros E. destruct (I1 sid l El) as (pid & Hp & Ha).
    unfold pid_at in Hp. rewrite Eh in Hp. injection Hp as <-.
    rewrite E, Hreg in Ha. injection Ha as ->.
    rewrite Eh in Hh. injection Hh as <-. congruence.
Qed.

(** The loop of [cleanup_all_processes]: the ids it goes through leave the
    main registry, and nothing else does. *)
Lemma remove_each_active (pids : list string) (s : service) :
  wf s ->
  let s' := fold_left (fun acc pid => remove_process pid acc) pids s in
  wf s' /\
  forall pid, active_processes s' !! pid
              = if decide (pid ∈ pids) then None
                else active_processes s !! pid.
Proof.
  revert s. induction pids as [|pid pids IH]; intros s Hwf; cbn [fold_left].
  - split; [exact Hwf |]. intros pid.
    rewrite decide_False; [reflexivity | apply not_elem_of_nil].
  - destruct (IH (remove_process pid s) (remove_process_wf pid s Hwf))
      as [Hwf' Hact].
    split; [exact Hwf' |]. intros k. rewrite Hact.
    assert (active_processes (remove_process pid s)
            = delete pid (active_processes s)) as ->.
    { unfold remove_process.
      destruct (active_processes s !! pid) eqn:Ea.
      - now rewrite (proj1 (stop_registries _ _)).
      - symmetry. now apply delete_id. }
    destruct (decide (k ∈ pids)) as [Hin|Hin].
    + rewrite decide_True; [reflexivity | now apply elem_of_cons; right].
    + destruct (decide (k = pid)) as [->|ne].
      * rewrite lookup_delete_eq.
        rewrite decide_True; [reflexivity | apply list_elem_of_here].
      * rewrite lookup_delete_ne by congruence.
        rewrite decide_False; [reflexivity |].
        intros H. apply elem_of_cons in H as [?|?]; contradiction.
Qed.

Lemma cleanup_all_processes_wf (s : service) :
  wf s ->
  wf (cleanup_all_processes s) /\
  active_processes (cleanup_all_processes s) = ∅.
Proof.
  intros Hwf. unfold cleanup_all_processes.
  destruct (remove_each_active (map fst (map_to_list (active_processes s)))
              s Hwf) as [[H1 H2] Hact].
  cbv zeta in *.
  set (s' := fold_left _ _ s) in *.
  assert (active_processes s' = ∅) as Hempty.
  { apply map_eq. intros pid. rewrite Hact, lookup_empty.
    destruct (decide (pid ∈ map fst (map_to_list (active_processes s))))
      as [_|Hn]; [reflexivity |].
    destruct (active_processes s !! pid) as [l|] eqn:E; [| reflexivity].
    exfalso. apply Hn. apply list_elem_of_fmap. exists (pid, l).
    split; [reflexivity | now apply elem_of_map_to_list]. }
  split; [| exact Hempty]. split; cbn; [exact H1 | exact H2].
Qed.

Lemma step_wf (cwd : option string) (s : service) (c : call) :
  inv s -> wf s ->
  match c with
  | GetOrCreate _ _ _ uuid _ => fresh_id uuid s
  | _ => True
  end ->
  wf (step cwd s c).
Proof.
  intros Hinv Hwf Hf. destruct c; cbn [step].
  - now apply get_or_create_process_wf.
  - now apply remove_process_wf.
  - now apply remove_session_process_wf.
  - now apply cleanup_all_processes_wf.
  - now apply stop_wf.
Qed.

Lemma run_wf (cwd : option string) (calls : list call) (s : service) :
  inv s -> wf s -> fresh_ids cwd s calls -> wf (run cwd s calls).
Proof.
  revert s. induction calls as [|c calls IH]; intros s Hinv Hwf Hf;
    [exact Hwf |].
  destruct Hf as [Hc Hrest]. cbn. apply IH; [| | exact Hrest].
  - now apply step_inv.
  - now apply step_wf.
Qed.

(** X10: whatever calls came before, [cleanup_all_processes] leaves both
    registries empty and no process running: every process that was still
    running has been stopped. *)
Theorem cleanup_stops_everything (cwd : option string) (calls : list call) :
  fresh_ids cwd empty_service calls ->
  let s := cleanup_all_processes (run cwd empty_service calls) in
  get_active_process_count s = 0 /\ get_session_process_count s = 0 /\
  all_stopped s.
Proof.
  intros Hf s.
  pose proof (run_wf cwd calls empty_service inv_empty wf_empty Hf) as Hwf.
  destruct (cleanup_all_processes_wf _ Hwf) as [[_ H2] Hempty].
  fold s in H2, Hempty.
  unfold get_active_process_count, get_session_process_count, all_stopped.
  split; [rewrite Hempty; apply map_size_empty |].
  split; [apply map_size_empty |].
  apply Forall_forall. intros h Hin.
  apply list_elem_of_lookup in Hin as [l Hl].
  destruct (is_running h) eqn:Er; [| reflexivity].
  pose proof (H2 l h Hl Er) as Hreg. rewrite Hempty in Hreg.
  now rewrite lookup_empty in Hreg.
Qed.

Lemma cleanup_stops_everything_witness :
  all_stopped (cleanup_all_processes (run None empty_service example_calls)).
Proof.
  exact (proj2 (proj2 (cleanup_stops_everything None example_calls
                         example_calls_fresh))).
Defined.

End ProcessLookupFacts.

(** ** The quota periods *)

Module PeriodFacts.
Import Datetime ApiKey DatetimeFacts.

Open Scope Z_scope.

(** A midnight compared with a datetime: the dates decide. *)
Lemma midnight_leb_date (y m d : Z) (t : datetime) :
  leb {| year := y; month := m; day := d; hour := 0; minute := 0;
         second := 0; microsecond := 0 |} t = true ->
  y < year t \/ (y = year t /\ (m < month t \/ (m = month t /\ d <= day t))).
Proof.
  unfold leb, gtb, fields, lex_ltb. cbn [year month day hour minute second
                                         microsecond].
  intros H. apply negb_true_iff in H.
  destruct (Z.ltb_spec (year t) y); [discriminate |].
  destruct (Z.eqb_spec (year t) y); [| lia].
  destruct (Z.ltb_spec (month t) m); [discriminate |].
  destruct (Z.eqb_spec (month t) m); [| lia].
  destruct (Z.ltb_spec (day t) d); [discriminate |]. lia.
Qed.

Lemma midnight_gtb_date (y m d : Z) (t : datetime) :
  valid t ->
  gtb {| year := y; month := m; day := d; hour := 0; minute := 0;
         second := 0; microsecond := 0 |} t = true ->
  year t < y \/ (year t = y /\ (month t < m \/ (month t = m /\ day t < d))).
Proof.
  intros (Hy & Hm & Hd & Hh & Hmi & Hs & Hus).
  unfold gtb, fields, lex_ltb. cbn [year month day hour minute second
                                    microsecond].
  intros H.
  destruct (Z.ltb_spec (year t) y); [lia |].
  destruct (Z.eqb_spec (year t) y); [| discriminate].
  destruct (Z.ltb_spec (month t) m); [lia |].
  destruct (Z.eqb_spec (month t) m); [| discriminate].
  destruct (Z.ltb_spec (day t) d); [lia |].
  exfalso. revert H. cbn [orb andb]. cmp_cases; discriminate.
Qed.

#[local] Arguments lex_ltb : simpl never.

Lemma same_day (t t' e : datetime) :
  valid t -> valid t' ->
  add_one_day (midnight t) = Some e ->
  leb (midnight t) t' = true -> gtb e t' = true ->
  year t' = year t /\ month t' = month t /\ day t' = day t.
Proof.
  intros (Hy & Hm & Hd & _) Hv' Hadd Hle Hgt.
  apply midnight_leb_date in Hle.
  pose proof Hv' as (Hy' & Hm' & Hd' & _).
  revert Hadd. unfold add_one_day, midnight.
  cbn [year month day hour minute second microsecond].
  destruct (Z.ltb_spec (day t) (days_in_month (year t) (month t))).
  { intros [= <-]. apply (midnight_gtb_date _ _ _ t' Hv') in Hgt. lia. }
  destruct (Z.ltb_spec (month t) 12).
  { intros [= <-]. apply (midnight_gtb_date _ _ _ t' Hv') in Hgt.
    assert (year t' = year t /\ month t' = month t) as [Ey Em] by lia.
    rewrite Ey, Em in Hd'. lia. }
  destruct (Z.ltb_spec (year t) MAXYEAR); [| discriminate].
  intros [= <-]. apply (midnight_gtb_date _ _ _ t' Hv') in Hgt.
  assert (year t' = year t /\ month t' = month t) as [Ey Em] by lia.
  rewrite Ey, Em in Hd'. lia.
Qed.

Lemma same_month (t t' ps pe : datetime) :
  valid t -> valid t' ->
  period_bounds MONTH t = Some (ps, pe) ->
  leb ps t' = true -> gtb pe t' = true ->
  year t' = year t /\ month t' = month t.
Proof.
  intros (Hy & Hm & Hd & _) Hv'. pose proof Hv' as (Hy' & Hm' & Hd' & _).
  unfold period_bounds, first_of_month.
  destruct ((1 <=? year t) && (year t <=? MAXYEAR)); [| discriminate].
  destruct (Z.eqb_spec (month t) 12) as [E12|N12].
  - destruct ((1 <=? year t + 1) && (year t + 1 <=? MAXYEAR));
      [| discriminate].
    intros [= <- <-] Hle Hgt. apply midnight_leb_date in Hle.
    apply (midnight_gtb_date _ _ _ t' Hv') in Hgt. lia.
  - intros [= <- <-] Hle Hgt. apply midnight_leb_date in Hle.
    apply (midnight_gtb_date _ _ _ t' Hv') in Hgt. lia.
Qed.

(** X11: the bounds of a quota period do not depend on the instant they are
    computed at: every datetime from [period_start] up to, and not
    including, [period_end] computes the same two bounds. *)
Theorem same_period_same_bounds (p : RateLimitPeriod)
    (t t' ps pe : datetime) :
  valid t -> valid t' ->
  period_bounds p t = Some (ps, pe) ->
  leb ps t' = true -> gtb pe t' = true ->
  period_bounds p t' = Some (ps, pe).
Proof.
  intros Hv Hv' Hb Hle Hgt. destruct p.
  - revert Hb. unfold period_bounds.
    destruct (add_one_day (midnight t)) as [e|] eqn:Hadd; [| discriminate].
    intros [= <- <-].
    destruct (same_day t t' e Hv Hv' Hadd Hle Hgt) as (Ey & Em & Ed).
    assert (midnight t' = midnight t) as ->
      by (unfold midnight; now rewrite Ey, Em, Ed).
    now rewrite Hadd.
  - destruct (same_month t t' ps pe Hv Hv' Hb Hle Hgt) as (Ey & Em).
    revert Hb. unfold period_bounds. now rewrite Ey, Em.
Qed.

(** X12: the quota periods follow one another without a gap: computed at
    the end of a period, the bounds start at that very instant and end
    later. *)
Theorem periods_contiguous (p : RateLimitPeriod) (t ps pe : datetime) :
  valid t -> period_bounds p t = Some (ps, pe) -> year pe < MAXYEAR ->
  exists pe',
    period_bounds p pe = Some (pe, pe') /\ gtb pe' pe = true.
Proof.
  intros Hv Hb Hy. destruct p.
  - revert Hb. unfold period_bounds.
    destruct (add_one_day (midnight t)) as [e|] eqn:Hadd; [| discriminate].
    intros [= <- <-].
    destruct (add_one_day_ordinal _ _ (midnight_valid t Hv) Hadd)
      as (_ & Hh & Hm & Hs & Hus & Hve).
    assert (midnight e = e) as Eme.
    { destruct e. unfold midnight. cbn in *. congruence. }
    rewrite Eme.
    destruct (add_one_day_defined e Hve Hy) as [e' He']. rewrite He'.
    exists e'. split; [reflexivity |].
    rewrite <- Eme in He'. now apply (later_day_gt e e' Hve).
  - destruct Hv as (Hyr & Hm & _). unfold MAXYEAR in Hyr. revert Hb Hy.
    unfold period_bounds, first_of_month, MAXYEAR.
    destruct (Z.leb_spec 1 (year t)); [| lia].
    destruct (Z.leb_spec (year t) 9999); [| lia]. cbn [andb].
    destruct (Z.eqb_spec (month t) 12) as [E12|N12].
    + destruct (Z.leb_spec 1 (year t + 1)); [| lia].
      destruct (Z.leb_spec (year t + 1) 9999); [| discriminate].
      cbn [andb]. intros [= <- <-]. cbn [year month]. intros Hy.
      destruct (Z.leb_spec 1 (year t + 1)); [| lia].
      destruct (Z.leb_spec (year t + 1) 9999); [| lia]. cbn [andb].
      eexists. split; [reflexivity |].
      unfold gtb, fields. cbn. unfold lex_ltb. cmp_cases.
    + intros [= <- <-]. cbn [year month]. intros Hy.
      destruct (Z.leb_spec 1 (year t)); [| lia].
      destruct (Z.leb_spec (year t) 9999); [| lia]. cbn [andb].
      destruct (Z.eqb_spec (month t + 1) 12) as [E12|N12'].
      * destruct (Z.leb_spec 1 (year t + 1)); [| lia].
        destruct (Z.leb_spec (year t + 1) 9999); [| lia]. cbn [andb].
        eexists. split; [reflexivity |].
        unfold gtb, fields. cbn. unfold lex_ltb. cmp_cases.
      * eexists. split; [reflexivity |].
        unfold gtb, fields. cbn. unfold lex_ltb. cmp_cases.
Qed.

Lemma example_clock_valid : valid (example_clock 0).
Proof. unfold valid, example_clock, MAXYEAR. cbn. lia. Qed.

(** The morning and the last second of the same day. *)
Lemma same_period_same_bounds_witness :
  period_bounds DAY (example_clock 0)
  = Some (example_day_start, example_day_end).
Proof.
  apply (same_period_same_bounds DAY (morning_clock 0) (example_clock 0)
           example_day_start example_day_end
           (proj1 (ApiKeyFacts.morning_clock_valid 0)) example_clock_valid
           eq_refl eq_refl eq_refl).
Defined.

Lemma periods_contiguous_witness :
  exists pe',
    period_bounds MONTH
      {| year := 2026; month := 1; day := 1; hour := 0; minute := 0;
         second := 0; microsecond := 0 |}
    = Some ({| year := 2026; month := 1; day := 1; hour := 0; minute := 0;
               second := 0; microsecond := 0 |}, pe').
Proof.
  destruct (periods_contiguous MONTH (example_clock 0) _ _
              example_clock_valid eq_refl eq_refl) as (pe' & E & _).
  now exists pe'.
Defined.

End PeriodFacts.

(** ** Statistics and administration of the keys *)

Module ApiKeyAdminFacts.
Import PyStr Datetime ApiKey DatetimeFacts ApiKeyAdmin.
Import ApiKeyFacts.

#[local] Arguments period_bounds : simpl never.
#[local] Arguments gtb : simpl never.
#[local] Arguments whole_seconds_between : simpl never.
#[local] Arguments rate_limit_exceeded : simpl never.

Section Service.

Variable clock : nat -> datetime.

Variable config : Config.

(** What [_get_or_create_usage] does to the map: it hands over the record
    the map holds, or a record with counter 0 that it has just stored. *)
Lemma get_or_create_cases (cfg : APIKeyConfig) (w : world) :
  match _get_or_create_usage clock cfg w with
  | (None, w') => _usage_storage w' = _usage_storage w
  | (Some u, w') =>
      (_usage_storage w !! key cfg = Some u /\
       _usage_storage w' = _usage_storage w) \/
      (current_period_requests u = 0%Z /\
       _usage_storage w' = <[key cfg := u]> (_usage_storage w))
  end.
Proof.
  unfold _get_or_create_usage. run_steps.
  destruct (_usage_storage w !! key cfg) as [u|] eqn:Hk; run_steps.
  - destruct (gtb (clock (ticks w)) (period_end u)); run_steps.
    + destruct (period_bounds (period cfg) (clock (S (ticks w))));
        run_steps; [right; split; reflexivity | reflexivity].
    + left. split; reflexivity.
  - destruct (period_bounds (period cfg) (clock (ticks w)));
      run_steps; [right; split; reflexivity | reflexivity].
Qed.

(** The record handed over is the one the map then holds. *)
Lemma get_or_create_stored (cfg : APIKeyConfig) (w w' : world)
    (u : APIKeyUsage) :
  _get_or_create_usage clock cfg w = (Some u, w') ->
  _usage_storage w' !! key cfg = Some u.
Proof.
  intros E. pose proof (get_or_create_cases cfg w) as H. rewrite E in H.
  destruct H as [[Hk ->] | [_ ->]]; [exact Hk | apply lookup_insert_eq].
Qed.

Lemma get_or_create_defined (cfg : APIKeyConfig) (w : world) :
  sound_clock clock ->
  exists u w', _get_or_create_usage clock cfg w = (Some u, w').
Proof.
  intros Hclock. unfold _get_or_create_usage. run_steps.
  destruct (_usage_storage w !! key cfg) as [u|]; run_steps.
  - destruct (gtb (clock (ticks w)) (period_end u)); run_steps; [| eauto].
    destruct (Hclock (S (ticks w))) as [Hv Hy].
    destruct (period_bounds_spec (period cfg) _ Hv Hy) as (ps & pe & -> & _).
    run_steps. eauto.
  - destruct (Hclock (ticks w)) as [Hv Hy].
    destruct (period_bounds_spec (period cfg) _ Hv Hy) as (ps & pe & -> & _).
    run_steps. eauto.
Qed.

Lemma configured_positive (k : string) (cfg : APIKeyConfig) :
  positive_quotas config ->
  get_api_key_config (api_keys config) k = Some cfg ->
  (0 < max_requests cfg)%Z.
Proof.
  unfold positive_quotas. induction (api_keys config) as [|c keys IH]; simpl;
    [discriminate |].
  intros Hall. inversion Hall as [|? ? Hc Hrest]; subst.
  destruct (String.eqb (key c) k); [now intros [= <-] | now apply IH].
Qed.

Lemma within_quota_insert (cfg : APIKeyConfig) (k : string)
    (u : APIKeyUsage) (m : gmap string APIKeyUsage) (n n' : nat) :
  within_quota config {| _usage_storage := m; ticks := n |} ->
  get_api_key_config (api_keys config) k = Some cfg ->
  (0 <= current_period_requests u <= max_requests cfg)%Z ->
  within_quota config {| _usage_storage := <[k := u]> m; ticks := n' |}.
Proof.
  intros Hw Hc Hu k' u'. cbn [_usage_storage].
  destruct (decide (k' = k)) as [->|ne].
  - rewrite lookup_insert_eq. intros [= <-]. eauto.
  - rewrite lookup_insert_ne by congruence. apply (Hw k' u').
Qed.

Lemma within_quota_storage (w w' : world) :
  within_quota config w -> _usage_storage w' = _usage_storage w ->
  within_quota config w'.
Proof. intros Hw E k u. rewrite E. apply Hw. Qed.

(** [_get_or_create_usage] keeps the counters within the quotas. *)
Lemma get_or_create_within_quota (k : string) (cfg : APIKeyConfig)
    (w : world) :
  positive_quotas config -> within_quota config w ->
  get_api_key_config (api_keys config) k = Some cfg ->
  within_quota config (snd (_get_or_create_usage clock cfg w)) /\
  forall u, fst (_get_or_create_usage clock cfg w) = Some u ->
            (0 <= current_period_requests u <= max_requests cfg)%Z.
Proof.
  intros Hpos Hw Hc. pose proof (get_api_key_config_key _ _ _ Hc) as Hk.
  pose proof (configured_positive k cfg Hpos Hc) as Hmax.
  pose proof (get_or_create_cases cfg w) as H.
  destruct (_get_or_create_usage clock cfg w) as [[u|] w']; cbn [fst snd].
  - destruct H as [[Hu E] | [H0 E]].
    + split; [now apply (within_quota_storage w) |].
      intros u' [= <-]. rewrite Hk in Hu.
      destruct (Hw k u Hu) as (cfg' & Hc' & Hb). congruence.
    + split; [| intros u' [= <-]; lia].
      destruct w as [m n], w' as [m' n']. cbn [_usage_storage] in E.
      subst m'. rewrite Hk.
      apply (within_quota_insert cfg k u m n n' Hw Hc). lia.
  - split; [now apply (within_quota_storage w) | discriminate].
Qed.

Lemma validate_within_quota (k : string) (w : world) :
  positive_quotas config -> within_quota config w ->
  within_quota config (snd (validate_api_key clock config k w)).
Proof.
  intros Hpos Hw. unfold validate_api_key, validate_body.
  destruct (api_key_enabled config); cbn [negb]; [| exact Hw].
  destruct (get_api_key_config (api_keys config) k) as [cfg|] eqn:Hc;
    [| exact Hw].
  pose proof (get_api_key_config_key _ _ _ Hc) as Hk.
  destruct (get_or_create_within_quota k cfg w Hpos Hw Hc) as [Hw1 Hu].
  unfold bind at 1.
  destruct (_get_or_create_usage clock cfg w) as [[u|] w1];
    cbn [fst snd] in *; [| exact Hw1].
  specialize (Hu u eq_refl). unfold can_make_request.
  destruct (Z.ltb_spec (current_period_requests u) (max_requests cfg));
    run_steps.
  - destruct w1 as [m1 n1]. rewrite Hk.
    apply (within_quota_insert cfg k _ m1 n1 _ Hw1 Hc).
    cbn [record_request current_period_requests]. lia.
  - now apply (within_quota_storage w1).
Qed.

Lemma stats_within_quota (k : string) (w : world) :
  positive_quotas config -> within_quota config w ->
  within_quota config (snd (get_usage_stats clock config k w)).
Proof.
  intros Hpos Hw. unfold get_usage_stats.
  destruct (api_key_enabled config); cbn [negb]; [| exact Hw].
  destruct (get_api_key_config (api_keys config) k) as [cfg|] eqn:Hc;
    [| exact Hw].
  destruct (get_or_create_within_quota k cfg w Hpos Hw Hc) as [Hw1 _].
  unfold bind.
  destruct (_get_or_create_usage clock cfg w) as [[u|] w1];
    cbn [fst snd] in *; exact Hw1.
Qed.

Lemma reset_within_quota (k : string) (w : world) :
  within_quota config w -> within_quota config (snd (reset_usage k w)).
Proof.
  intros Hw. unfold reset_usage.
  destruct (_usage_storage w !! k); [| exact Hw].
  intros k' u'. cbn [snd _usage_storage]. intros H.
  apply lookup_delete_Some in H as [_ H]. now apply Hw.
Qed.

(** X13: whatever validations, statistics requests and resets are made, for
    whatever keys and at whatever times, the counter of every usage record
    stays between 0 and the quota of its key: a key is never counted beyond
    [max_requests]. *)
Theorem counters_within_quota (w : world) (calls : list call) :
  positive_quotas config -> within_quota config w ->
  within_quota config (run clock config w calls).
Proof.
  intros Hpos. revert w. unfold run.
  induction calls as [|c calls IH]; intros w Hw; [exact Hw |].
  cbn [fold_left]. apply IH. destruct c as [k|k|k]; cbn [step].
  - now apply validate_within_quota.
  - now apply stats_within_quota.
  - now apply reset_within_quota.
Qed.

(** X14: [validate_api_key] answers [invalid_api_key] for exactly the keys
    [Config.is_valid_api_key] rejects, and records nothing for them; a key
    the configuration knows is either accepted or refused with
    [rate_limit_exceeded], as long as the clock readings are datetimes the
    period arithmetic is defined on. *)
Theorem invalid_key_iff_unconfigured (k : string) (w : world) :
  sound_clock clock ->
  (is_valid_api_key config k = false ->
   validate_api_key clock config k w = ((false, Some invalid_key), w)) /\
  (is_valid_api_key config k = true ->
   fst (validate_api_key clock config k w) = (true, None) \/
   exists r,
     fst (validate_api_key clock config k w)
     = (false, Some (rate_limit_exceeded (Some r)))).
Proof.
  intros Hclock. unfold is_valid_api_key.
  destruct (api_key_enabled config) eqn:He; cbn [negb].
  - destruct (get_api_key_config (api_keys config) k) as [cfg|] eqn:Hc.
    + split; [discriminate |]. intros _.
      destruct (get_or_create_defined cfg w Hclock) as (u & w1 & E).
      destruct (Z.lt_ge_cases (current_period_requests u) (max_requests cfg)).
      * left. now rewrite (validate_success clock config cfg k w w1 u).
      * right. eexists.
        rewrite (validate_limited clock config cfg k w w1 u) by assumption.
        reflexivity.
    + split; [| discriminate]. intros _.
      unfold validate_api_key, validate_body. now rewrite He, Hc.
  - split; [discriminate |]. intros _. left.
    unfold validate_api_key, validate_body. now rewrite He.
Qed.

(** X15: [reset_usage] tells whether the key had a usage record, drops that
    record and touches no other; the next validation of a configured key
    then opens a fresh period around the clock reading and counts its own
    request as the first one, even when the key was at its limit before. *)
Theorem reset_then_validate (cfg : APIKeyConfig) (k : string) (w : world) :
  api_key_enabled config = true ->
  get_api_key_config (api_keys config) k = Some cfg ->
  (0 < max_requests cfg)%Z ->
  valid (clock (ticks w)) -> (year (clock (ticks w)) < MAXYEAR)%Z ->
  let w1 := snd (reset_usage k w) in
  (fst (reset_usage k w) = true <-> is_Some (_usage_storage w !! k)) /\
  _usage_storage w1 !! k = None /\
  (forall k', k' <> k ->
     _usage_storage w1 !! k' = _usage_storage w !! k') /\
  exists ps pe,
    period_bounds (period cfg) (clock (ticks w)) = Some (ps, pe) /\
    validate_api_key clock config k w1
    = ((true, None),
       {| _usage_storage :=
            <[k := {| api_key := k; current_period_requests := 1;
                      period_start := ps; period_end := pe;
                      last_used := Some (clock (S (ticks w))) |}]>
              (_usage_storage w1);
          ticks := S (S (ticks w)) |}).
Proof.
  intros He Hc Hmax Hv Hy w1.
  pose proof (get_api_key_config_key _ _ _ Hc) as Hk.
  assert (ticks w1 = ticks w) as Ht
    by (unfold w1, reset_usage; now destruct (_usage_storage w !! k)).
  assert (_usage_storage w1 !! k = None) as Hnone.
  { unfold w1, reset_usage.
    destruct (_usage_storage w !! k) eqn:E; cbn [snd _usage_storage];
      [apply lookup_delete_eq | exact E]. }
  split; [| split; [exact Hnone | split]].
  - unfold reset_usage. destruct (_usage_storage w !! k); cbn [fst].
    + split; [eauto | reflexivity].
    + split; [discriminate | now intros [? ?]].
  - intros k' ne. unfold w1, reset_usage.
    destruct (_usage_storage w !! k); cbn [snd _usage_storage];
      [now apply lookup_delete_ne | reflexivity].
  - destruct (period_bounds_spec (period cfg) _ Hv Hy)
      as (ps & pe & Hb & _).
    exists ps, pe. split; [exact Hb |].
    rewrite <- Ht in Hb. rewrite <- Hk in Hnone.
    rewrite (validate_success clock config cfg k w1 _ _ He Hc
               (get_or_create_new clock cfg w1 ps pe Hnone Hb))
      by (cbn [current_period_requests]; lia).
    cbn [ticks _usage_storage record_request current_period_requests
         api_key period_start period_end]. rewrite Hk, Ht.
    now rewrite insert_insert_eq.
Qed.

(** X16: the statistics of a key report the counter of its usage record and
    [max_requests] minus that counter as [remaining_requests]; when they
    report requests remaining, the next validation of the key succeeds, and
    when they report none and the period is not over at the next clock
    reading, the next validation is refused with [rate_limit_exceeded]. *)
Theorem stats_predict_validation (k : string) (w w1 : world)
    (st : usage_stats) :
  sound_clock clock -> positive_quotas config ->
  get_usage_stats clock config k w = (Some (Some st), w1) ->
  exists u,
    _usage_storage w1 !! k = Some u /\
    stats_current_period_requests st = current_period_requests u /\
    remaining_requests st
    = (stats_max_requests st - current_period_requests u)%Z /\
    ((0 < remaining_requests st)%Z ->
     fst (validate_api_key clock config k w1) = (true, None)) /\
    ((remaining_requests st <= 0)%Z ->
     gtb (clock (ticks w1)) (period_end u) = false ->
     exists r,
       fst (validate_api_key clock config k w1)
       = (false, Some (rate_limit_exceeded (Some r)))).
Proof.
  intros Hclock Hpos. unfold get_usage_stats.
  destruct (api_key_enabled config) eqn:He; cbn [negb]; [| discriminate].
  destruct (get_api_key_config (api_keys config) k) as [cfg|] eqn:Hc;
    [| discriminate].
  pose proof (get_api_key_config_key _ _ _ Hc) as Hk.
  pose proof (configured_positive k cfg Hpos Hc) as Hmax.
  unfold bind. destruct (_get_or_create_usage clock cfg w) as [[u|] w']
    eqn:E; [| discriminate].
  unfold ret. intros [= <- <-]. apply get_or_create_stored in E.
  exists u. rewrite <- Hk.
  cbn [stats_current_period_requests remaining_requests stats_max_requests].
  split; [exact E |]. split; [reflexivity |]. split; [reflexivity |].
  destruct (gtb (clock (ticks w')) (period_end u)) eqn:Hexp.
  - destruct (Hclock (S (ticks w'))) as [Hv Hy].
    destruct (period_bounds_spec (period cfg) _ Hv Hy)
      as (ps & pe & Hb & _).
    split; [| discriminate]. intros _.
    rewrite Hk.
    now rewrite (validate_success clock config cfg k w' _ _ He Hc
                   (get_or_create_expired clock cfg w' u ps pe E Hexp Hb)).
  - split.
    + intros Hrem. rewrite Hk.
      rewrite (validate_success clock config cfg k w' _ _ He Hc
                 (get_or_create_live clock cfg w' u E Hexp)) by lia.
      reflexivity.
    + intros Hrem _. eexists. rewrite Hk.
      rewrite (validate_limited clock config cfg k w' _ _ He Hc
                 (get_or_create_live clock cfg w' u E Hexp)) by lia.
      reflexivity.
Qed.

End Service.

Lemma example_quotas : positive_quotas example_config.
Proof. repeat constructor. Qed.

Lemma empty_within_quota (config : Config) : within_quota config empty_world.
Proof. intros k u H. cbn in H. now rewrite lookup_empty in H. Qed.

(** The example key is validated four times, asked for its statistics and
    reset in between. *)
Lemma counters_within_quota_witness :
  within_quota example_config
    (run morning_clock example_config empty_world
       [ Validate "sk-test-0001"; Validate "sk-test-0001";
         Stats "sk-test-0001"; Validate "sk-test-0001";
         Validate "sk-test-0001"; Reset "sk-test-0001";
         Validate "sk-other-0002" ]%list).
Proof.
  apply counters_within_quota;
    [exact example_quotas | apply empty_within_quota].
Defined.

Lemma invalid_key_iff_unconfigured_witness :
  validate_api_key morning_clock example_config "sk-other-0002" empty_world
  = ((false, Some invalid_key), empty_world).
Proof.
  apply (proj1 (invalid_key_iff_unconfigured morning_clock example_config
                  "sk-other-0002" empty_world morning_clock_valid)).
  reflexivity.
Defined.

(** The key is at its limit in [stale_world]; it is reset and validated. *)
Lemma reset_then_validate_witness :
  fst (reset_usage "sk-test-0001" stale_world) = true /\
  fst (validate_api_key morning_clock example_config "sk-test-0001"
         (snd (reset_usage "sk-test-0001" stale_world)))
  = (true, None).
Proof.
  destruct (reset_then_validate morning_clock example_config
              example_key_config "sk-test-0001" stale_world
              eq_refl eq_refl eq_refl
              (proj1 (morning_clock_valid 0)) (proj2 (morning_clock_valid 0)))
    as (Hdropped & _ & _ & ps & pe & _ & Hvalidate).
  split; [apply Hdropped; eexists; reflexivity |].
  now rewrite Hvalidate.
Defined.

Lemma stats_predict_validation_witness :
  exists st w1,
    get_usage_stats morning_clock example_config "sk-test-0001" empty_world
    = (Some (Some st), w1) /\
    remaining_requests st = 3%Z /\
    fst (validate_api_key morning_clock example_config "sk-test-0001" w1)
    = (true, None).
Proof.
  eexists _, _. split; [reflexivity |]. split; [reflexivity |].
  destruct (stats_predict_validation morning_clock example_config
              "sk-test-0001" empty_world _ _ morning_clock_valid
              example_quotas eq_refl)
    as (u & _ & _ & _ & Hyes & _).
  apply Hyes. reflexivity.
Defined.

End ApiKeyAdminFacts.

(** ** The life of a session *)

Module SessionLifeFacts.
Import PyStr Json Sessions.
Import SessionsFacts.

Open Scope Z_scope.

Section Manager.

Variable clock : nat -> Z.

(** [create_session] either raises, for an id that is cached and active,
    and leaves everything as it is, or builds the session and stores it. *)
Lemma create_session_cases (request : SessionCreateRequest) (hex : string)
    (m : manager) :
  (create_session clock request hex m = (Raise SessionError, m) /\
   exists sid s0,
     req_session_id request = Some sid /\ truthy sid = true /\
     sessions m !! sid = Some s0 /\ is_active s0 = true) \/
  (let s := request_create_session request [] hex (clock (ticks m))
              (clock (S (ticks m))) in
   create_session clock request hex m
   = (Ok s,
      {| sessions := <[session_id s := s]> (sessions m);
         db := snd (db_create_session (row_of_session s) (db m));
         total_sessions_created := S (total_sessions_created m);
         ticks := S (S (ticks m)) |}) /\
   forall sid s0,
     req_session_id request = Some sid -> truthy sid = true ->
     sessions m !! sid = Some s0 -> is_active s0 = false).
Proof.
  unfold create_session. run_steps.
  destruct (req_session_id request) as [sid|] eqn:Hr;
    [| right; split; [reflexivity | discriminate]].
  destruct (truthy sid) eqn:Ht;
    [| right; split; [reflexivity | intros ? ? [= <-]; congruence]].
  destruct (sessions m !! sid) as [s0|] eqn:Hs;
    [| right; split; [reflexivity | intros ? ? [= <-]; congruence]].
  destruct (is_active s0) eqn:Ha.
  - left. split; [reflexivity |]. now exists sid, s0.
  - right. split; [reflexivity |]. intros ? ? [= <-] _. congruence.
Qed.

(** X17: a session that [create_session] returns is stored under its own id
    in the memory, with no message counted and no backend conversation yet,
    the store holds a row for it, one more session is counted as created,
    no other session or row is touched, and [get_session] hands the same
    session back as long as the clock has not passed its timeout. *)
Theorem create_then_get (request : SessionCreateRequest) (hex : string)
    (m m1 : manager) (s : Session) :
  create_session clock request hex m = (Ok s, m1) ->
  (forall sid, req_session_id request = Some sid -> truthy sid = true ->
               session_id s = sid) /\
  message_count s = 0 /\ is_active s = true /\ claude_session_id s = None /\
  sessions m1 !! session_id s = Some s /\
  is_Some (db m1 !! session_id s) /\
  total_sessions_created m1 = S (total_sessions_created m) /\
  (forall sid', sid' <> session_id s ->
     sessions m1 !! sid' = sessions m !! sid' /\
     db m1 !! sid' = db m !! sid') /\
  (clock (ticks m1) <= last_activity s + minutes (timeout_minutes s) ->
   fst (get_session clock (session_id s) m1) = Ok (Some s)).
Proof.
  intros Hc.
  destruct (create_session_cases request hex m) as [[E _] | [E _]];
    rewrite E in Hc; [discriminate |].
  injection Hc as <- <-.
  set (s := request_create_session request [] hex (clock (ticks m))
              (clock (S (ticks m)))).
  split.
  { intros sid Hr Ht. unfold s, request_create_session. cbn [session_id].
    now rewrite Hr, Ht. }
  split; [reflexivity |]. split; [reflexivity |]. split; [reflexivity |].
  cbn [sessions db total_sessions_created ticks].
  split; [apply lookup_insert_eq |].
  split.
  { unfold db_create_session.
    change (r_session_id (row_of_session s)) with (session_id s).
    destruct (db m !! session_id s) eqn:Hd; cbn [snd];
      [rewrite Hd; eauto | rewrite lookup_insert_eq; eauto]. }
  split; [reflexivity |]. split.
  { intros sid' ne. split; [now apply lookup_insert_ne |].
    unfold db_create_session.
    change (r_session_id (row_of_session s)) with (session_id s).
    destruct (db m !! session_id s); cbn [snd];
      [reflexivity | now apply lookup_insert_ne]. }
  intros Hlive.
  erewrite get_session_live; [reflexivity | apply lookup_insert_eq |].
  cbn [ticks]. unfold is_expired. apply Z.ltb_ge. exact Hlive.
Qed.

(** X18: [create_session] raises [SessionError] exactly when the request
    names an id under which the memory holds an active session, and then
    changes nothing: no session, no row, no counter and no clock reading. *)
Theorem create_duplicate_raises (request : SessionCreateRequest)
    (hex : string) (m : manager) :
  (exists sid s0,
     req_session_id request = Some sid /\ truthy sid = true /\
     sessions m !! sid = Some s0 /\ is_active s0 = true) <->
  create_session clock request hex m = (Raise SessionError, m).
Proof.
  destruct (create_session_cases request hex m) as [[E H] | [E H]].
  - split; [intros _; exact E | intros _; exact H].
  - split.
    + intros (sid & s0 & Hr & Ht & Hs & Ha).
      rewrite (H sid s0 Hr Ht Hs) in Ha. discriminate.
    + intros E'. rewrite E in E'. discriminate.
Qed.

(** X19: [remove_session] answers [False] and changes nothing when the id is
    neither cached nor readable from the store; otherwise it answers [True]
    and the id is gone from the memory and from the store, the other
    sessions and rows staying as they are.  Removing the same id once more
    answers [False]. *)
Theorem remove_session_spec (sid : string) (m : manager) :
  let r := remove_session clock sid m in
  (sessions m !! sid = None -> db_get_session sid (db m) = None ->
   r = (Ok false, m)) /\
  (is_Some (sessions m !! sid) \/ is_Some (db_get_session sid (db m)) ->
   fst r = Ok true /\
   sessions (snd r) !! sid = None /\ db (snd r) !! sid = None /\
   (forall sid', sid' <> sid ->
      sessions (snd r) !! sid' = sessions m !! sid' /\
      db (snd r) !! sid' = db m !! sid') /\
   remove_session clock sid (snd r) = (Ok false, snd r)).
Proof.
  cbv zeta. split.
  - intros Hs Hd. unfold remove_session. run_steps. now rewrite Hs, Hd.
  - intros Hex.
    assert (exists n,
              remove_session clock sid m
              = (Ok true,
                 {| sessions := delete sid (sessions m);
                    db := db_delete_session sid (db m);
                    total_sessions_created := total_sessions_created m;
                    ticks := n |})) as [n E].
    { unfold remove_session. run_steps.
      destruct (sessions m !! sid) as [s|] eqn:Hs; run_steps; [eauto |].
      destruct (db_get_session sid (db m)) eqn:Hd; run_steps; [eauto |].
      destruct Hex as [[? ?] | [? ?]]; discriminate. }
    rewrite E. cbn [fst snd sessions db]. unfold db_delete_session.
    split; [reflexivity |]. split; [apply lookup_delete_eq |].
    split; [apply lookup_delete_eq |]. split.
    + intros sid' ne. now rewrite !lookup_delete_ne.
    + unfold remove_session. run_steps. unfold db_get_session.
      now rewrite !lookup_delete_eq.
Qed.

(** X20: [update_session] raises [SessionError] for an id that is not
    cached.  For a cached session that is not expired it applies the
    request, counts one more message, stamps the next clock reading as the
    last activity, and writes that same instant to the row of the store,
    together with the backend conversation id when the request carries
    one: memory and store then agree on both. *)
Theorem update_session_spec (sid : string) (request : SessionUpdateRequest)
    (m : manager) :
  (sessions m !! sid = None ->
   update_session clock sid request m = (Raise SessionError, m)) /\
  (forall s,
     sessions m !! sid = Some s ->
     is_expired s (clock (ticks m)) = false ->
     let s' := update_activity (apply_to_session request s)
                 (clock (S (ticks m))) in
     exists m',
       update_session clock sid request m = (Ok s', m') /\
       sessions m' !! sid = Some s' /\
       message_count s' = message_count s + 1 /\
       last_activity s' = clock (S (ticks m)) /\
       (forall c, upd_claude_session_id request = Some c ->
                  claude_session_id s' = Some c) /\
       (forall r, db m !! sid = Some r ->
          exists r',
            db m' !! sid = Some r' /\
            r_last_activity r' = IsoText (last_activity s') /\
            (forall c, upd_claude_session_id request = Some c ->
                       r_claude_session_id r' = claude_session_id s'))).
Proof.
  split.
  - intros Hs. unfold update_session. unfold bind at 1.
    now rewrite (get_session_absent clock sid m Hs).
  - intros s Hs Hlive s'. unfold update_session. unfold bind at 1.
    rewrite (get_session_live clock sid m s Hs Hlive). run_steps.
    eexists. split; [reflexivity |]. cbn [sessions db].
    split; [apply lookup_insert_eq |].
    split.
    { unfold s', update_activity, apply_to_session. cbn [message_count].
      destruct (upd_is_active request), (upd_claude_session_id request),
        (upd_metadata request); reflexivity. }
    split; [reflexivity |]. split.
    { intros c Hc. unfold s', update_activity, apply_to_session.
      cbn [claude_session_id]. rewrite Hc.
      destruct (upd_is_active request), (upd_metadata request);
        reflexivity. }
    intros r Hr. unfold set_db, set_sessions. cbn [db].
    unfold db_update_session. rewrite Hr.
    eexists. split; [apply lookup_insert_eq |].
    cbn [apply_updates r_last_activity r_claude_session_id
         set_last_activity set_claude_session_id].
    split; [reflexivity |].
    intros c Hc. unfold update_activity, apply_to_session.
    cbn [claude_session_id]. rewrite Hc.
    destruct (upd_is_active request), (upd_metadata request); reflexivity.
Qed.

Lemma get_or_create_cached (id : string) (kw : kwargs) (hex : string)
    (m : manager) (s : Session) :
  truthy id = true -> sessions m !! id = Some s ->
  is_expired s (clock (ticks m)) = false ->
  get_or_create_session clock (Some id) kw hex m
  = (Ok (update_activity s (clock (S (ticks m)))),
     {| sessions :=
          <[id := update_activity s (clock (S (ticks m)))]> (sessions m);
        db := db m;
        total_sessions_created := total_sessions_created m;
        ticks := S (S (ticks m)) |}).
Proof.
  intros Ht Hs Hlive. unfold get_or_create_session. rewrite Ht.
  unfold bind at 1. rewrite (get_session_live clock id m s Hs Hlive).
  run_steps. reflexivity.
Qed.

(** X21: asked for an id whose session is cached and not expired,
    [get_or_create_session] creates nothing and does not write to the
    store: it returns the cached session, on which it has counted one more
    message and stamped the next clock reading, whatever the other
    arguments of the call; the other sessions stay as they are. *)
Theorem get_or_create_hit (id : string) (kw : kwargs) (hex : string)
    (m : manager) (s : Session) :
  truthy id = true -> sessions m !! id = Some s ->
  is_expired s (clock (ticks m)) = false ->
  exists s' m',
    get_or_create_session clock (Some id) kw hex m = (Ok s', m') /\
    sessions m' !! id = Some s' /\
    session_id s' = session_id s /\
    message_count s' = message_count s + 1 /\
    last_activity s' = clock (S (ticks m)) /\
    db m' = db m /\
    total_sessions_created m' = total_sessions_created m /\
    (forall sid', sid' <> id -> sessions m' !! sid' = sessions m !! sid').
Proof.
  intros Ht Hs Hlive. eexists _, _.
  split; [exact (get_or_create_cached id kw hex m s Ht Hs Hlive) |].
  cbn [sessions db total_sessions_created].
  split; [apply lookup_insert_eq |].
  repeat (split; [reflexivity |]).
  intros sid' Hne. now apply lookup_insert_ne.
Qed.

End Manager.

Lemma create_then_get_witness :
  exists s m1,
    create_session seconds_clock
      (make_request (Some "abc123"%string) None no_kwargs)
      "000000000000"%string empty_manager = (Ok s, m1) /\
    session_id s = "abc123"%string /\
    sessions m1 !! "abc123"%string = Some s.
Proof.
  destruct (create_session seconds_clock
              (make_request (Some "abc123"%string) None no_kwargs)
              "000000000000"%string empty_manager) as [[s|e] m1] eqn:E;
    [| vm_compute in E; discriminate].
  destruct (create_then_get seconds_clock _ _ _ _ _ E)
    as (Hid & _ & _ & _ & Hs & _).
  pose proof (Hid "abc123"%string eq_refl eq_refl) as Hid'.
  exists s, m1. split; [reflexivity |]. split; [exact Hid' |].
  rewrite <- Hid'. exact Hs.
Defined.

Lemma create_duplicate_raises_witness :
  create_session seconds_clock
    (make_request (Some "abc123"%string) None no_kwargs)
    "000000000000"%string idle_manager
  = (Raise SessionError, idle_manager).
Proof.
  apply (proj1 (create_duplicate_raises seconds_clock
                  (make_request (Some "abc123"%string) None no_kwargs)
                  "000000000000"%string idle_manager)).
  exists "abc123"%string, idle_session. repeat split.
Defined.

Lemma remove_session_spec_witness :
  fst (remove_session seconds_clock "abc123"%string idle_manager) = Ok true /\
  remove_session seconds_clock "abc123"%string
    (snd (remove_session seconds_clock "abc123"%string idle_manager))
  = (Ok false, snd (remove_session seconds_clock "abc123"%string idle_manager)).
Proof.
  destruct (proj2 (remove_session_spec seconds_clock "abc123"%string
                     idle_manager))
    as (Hr & _ & _ & _ & Hagain).
  - left. eexists. reflexivity.
  - split; [exact Hr | exact Hagain].
Defined.

Lemma update_session_spec_witness :
  exists s' m',
    update_session seconds_clock "abc123"%string
      {| upd_is_active := None;
         upd_claude_session_id := Some "conv-1"%string;
         upd_metadata := None |} idle_manager = (Ok s', m') /\
    message_count s' = 2 /\ claude_session_id s' = Some "conv-1"%string.
Proof.
  destruct (proj2 (update_session_spec seconds_clock "abc123"%string
                     {| upd_is_active := None;
                        upd_claude_session_id := Some "conv-1"%string;
                        upd_metadata := None |} idle_manager)
              idle_session eq_refl eq_refl)
    as (m' & E & _ & Hcount & _ & Hconv & _).
  eexists _, m'. split; [exact E |]. split; [exact Hcount |].
  now apply Hconv.
Defined.

Lemma get_or_create_hit_witness :
  exists s' m',
    get_or_create_session seconds_clock (Some "abc123"%string) no_kwargs
      "000000000000"%string idle_manager = (Ok s', m') /\
    message_count s' = 2 /\ db m' = db idle_manager.
Proof.
  destruct (get_or_create_hit seconds_clock "abc123"%string no_kwargs
              "000000000000"%string idle_manager idle_session
              eq_refl eq_refl eq_refl)
    as (s' & m' & E & _ & _ & Hcount & _ & Hdb & _).
  exists s', m'. split; [exact E |]. split; [exact Hcount | exact Hdb].
Defined.

End SessionLifeFacts.

(** ** Listings and sweeps of the sessions *)

Module SessionSweepFacts.
Import PyStr Json Sessions SessionSweeps.
Import SessionsFacts.

Open Scope Z_scope.

Section Listing.

Variable clock : nat -> Z.

Lemma session_infos_length (ss : list Session) (tick : nat) :
  length (session_infos clock ss tick).1 = length ss /\
  (session_infos clock ss tick).2 = (tick + 2 * length ss)%nat.
Proof.
  revert tick. induction ss as [|s ss IH]; intros tick; cbn.
  - split; [reflexivity | lia].
  - specialize (IH (S (S tick))).
    destruct (session_infos clock ss (S (S tick))) as [infos t].
    cbn in *. split; lia.
Qed.

Lemma disjoint_counts {A} (p q : A -> bool) (l : list A) :
  (forall x, p x -> q x -> False) ->
  (length (filter p l) + length (filter q l) <= length l)%nat.
Proof.
  intros Hpq. induction l as [|x l IH]; [reflexivity |].
  rewrite !filter_cons.
  destruct (decide (p x)) as [Hp|Hp], (decide (q x)) as [Hq|Hq];
    cbn [length]; try lia.
  exfalso. now apply (Hpq x).
Qed.

(** X22: the listing of sessions counts every session once: [total_count]
    is the number of sessions given, each session is counted as active or as
    expired or as neither, never as both, and the clock is read twice per
    session. *)
Theorem listing_counts (ss : list Session) (tick : nat) :
  let r := (create_from_sessions clock ss tick).1 in
  total_count r = length ss /\
  map info_session_id (listed r) = map session_id ss /\
  (active_count r + expired_count r <= total_count r)%nat /\
  (create_from_sessions clock ss tick).2 = (tick + 2 * length ss)%nat.
Proof.
  unfold create_from_sessions.
  pose proof (session_infos_length ss tick) as [Hlen Htick].
  assert (map info_session_id (session_infos clock ss tick).1
          = map session_id ss) as Hids.
  { clear. revert tick. induction ss as [|s ss IH]; intros tick;
      [reflexivity |].
    cbn. specialize (IH (S (S tick))).
    destruct (session_infos clock ss (S (S tick))) as [infos t].
    cbn in *. now rewrite IH. }
  destruct (session_infos clock ss tick) as [infos t]. cbn in *.
  split; [exact Hlen |]. split; [exact Hids |]. split; [| exact Htick].
  apply disjoint_counts. intros info Ha He.
  apply andb_prop_elim in Ha as [_ Hn].
  destruct (info_is_expired info); [exact Hn | exact He].
Qed.

End Listing.

Section Sweeps.

Variable clock : nat -> Z.

Variable items : gmap string Session -> list (string * Session).

Lemma removed_cons {V} (d d' : gmap string V) (sid : string)
    (ids : list string) :
  (forall k, d' !! k
             = if decide (k ∈ ids) then None else delete sid d !! k) ->
  forall k, d' !! k = if decide (k ∈ sid :: ids) then None else d !! k.
Proof.
  intros H k. rewrite H.
  destruct (decide (k ∈ ids)) as [Hin|Hin],
    (decide (k ∈ sid :: ids)) as [Hin'|Hin']; try reflexivity.
  - exfalso. apply Hin'. now apply elem_of_cons; right.
  - apply elem_of_cons in Hin' as [-> | Hin']; [| contradiction].
    apply lookup_delete_eq.
  - apply lookup_delete_ne. intros ->. apply Hin'. now apply elem_of_cons; left.
Qed.

(** Removing, one after the other, ids that are all cached. *)
Lemma remove_each_cached (ids : list string) (n : nat) (m : manager) :
  NoDup ids -> (forall sid, sid ∈ ids -> is_Some (sessions m !! sid)) ->
  exists m',
    remove_each clock ids n m = (Ok (n + length ids)%nat, m') /\
    (forall sid, sessions m' !! sid
                 = if decide (sid ∈ ids) then None else sessions m !! sid) /\
    (forall sid, db m' !! sid
                 = if decide (sid ∈ ids) then None else db m !! sid) /\
    total_sessions_created m' = total_sessions_created m /\
    ticks m' = (ticks m + length ids)%nat.
Proof.
  revert n m. induction ids as [|sid ids IH]; intros n m Hnd Hall.
  - exists m. cbn [remove_each length]. rewrite !Nat.add_0_r.
    split; [reflexivity |].
    repeat split; intros sid;
      (rewrite decide_False; [reflexivity | apply not_elem_of_nil]).
  - apply NoDup_cons in Hnd as [Hnin Hnd].
    destruct (Hall sid (list_elem_of_here sid ids)) as [s Hs].
    cbn [remove_each]. unfold bind at 1.
    rewrite (remove_cached clock sid m s Hs).
    set (m1 := {| sessions := delete sid (sessions m);
                  db := db_delete_session sid (db m);
                  total_sessions_created := total_sessions_created m;
                  ticks := S (ticks m) |}).
    assert (forall sid', sid' ∈ ids -> is_Some (sessions m1 !! sid')) as H1.
    { intros sid' Hin. cbn [m1 sessions].
      rewrite lookup_delete_ne by (intros ->; contradiction).
      apply Hall. now apply elem_of_cons; right. }
    destruct (IH (S n) m1 Hnd H1) as (m' & E & Hsess & Hdb & Htot & Hticks).
    exists m'. split; [rewrite E; cbn [length]; now rewrite Nat.add_succ_r |].
    cbn [m1 sessions db total_sessions_created ticks] in *.
    unfold db_delete_session in Hdb.
    repeat split; [| | exact Htot | cbn; lia].
    + now apply removed_cons.
    + now apply removed_cons.
Qed.

Lemma enumerated_keys (d : gmap string Session) :
  enumerates items ->
  NoDup (items d).*1 /\
  (forall k, k ∈ (items d).*1 <-> is_Some (d !! k)) /\
  length (items d).*1 = size d.
Proof.
  intros Hen. destruct (Hen d) as [Hnd Hin].
  assert (forall k, k ∈ (items d).*1 <-> is_Some (d !! k)) as Hkeys.
  { intros k. rewrite list_elem_of_fmap. split.
    - intros ([k' s] & -> & H). apply Hin in H. eauto.
    - intros [s H]. exists (k, s). split; [reflexivity | now apply Hin]. }
  split; [exact Hnd |]. split; [exact Hkeys |].
  rewrite <- size_dom, <- (size_list_to_set (C := gset string)) by exact Hnd.
  f_equal. apply set_eq. intros k.
  rewrite elem_of_list_to_set, elem_of_dom. apply Hkeys.
Qed.

(** X23: [cleanup_all_sessions] removes every cached session from the
    memory and from the store and answers how many there were; the rows of
    the store that belong to no cached session stay. *)
Theorem cleanup_all_sessions_spec (m : manager) :
  enumerates items ->
  exists m',
    cleanup_all_sessions clock items m = (Ok (get_session_count m), m') /\
    sessions m' = ∅ /\
    (forall sid, is_Some (sessions m !! sid) -> db m' !! sid = None) /\
    (forall sid, sessions m !! sid = None -> db m' !! sid = db m !! sid) /\
    total_sessions_created m' = total_sessions_created m.
Proof.
  intros Hen.
  destruct (enumerated_keys (sessions m) Hen) as (Hnd & Hkeys & Hlen).
  destruct (remove_each_cached (items (sessions m)).*1 0 m Hnd
              (fun sid H => proj1 (Hkeys sid) H))
    as (m' & E & Hsess & Hdb & Htot & _).
  exists m'. unfold cleanup_all_sessions, get_session_count.
  unfold bind, get_state. rewrite E, Hlen.
  split; [reflexivity |]. split; [| split; [| split; [| exact Htot]]].
  - apply map_eq. intros sid. rewrite Hsess, lookup_empty.
    destruct (decide (sid ∈ (items (sessions m)).*1)) as [_|Hn];
      [reflexivity |].
    destruct (sessions m !! sid) eqn:Hs; [| reflexivity].
    exfalso. apply Hn, Hkeys. eauto.
  - intros sid Hs. rewrite Hdb. now rewrite decide_True by now apply Hkeys.
  - intros sid Hs. rewrite Hdb. rewrite decide_False; [reflexivity |].
    intros Hin. apply Hkeys in Hin as [? Hin]. congruence.
Qed.

End Sweeps.

Lemma map_to_list_enumerates :
  enumerates (fun d => map_to_list d).
Proof.
  intros d. split; [apply NoDup_fst_map_to_list |].
  intros k s. apply elem_of_map_to_list.
Qed.

Lemma cleanup_all_sessions_spec_witness :
  exists m',
    cleanup_all_sessions late_clock (fun d => map_to_list d) idle_manager
    = (Ok 1%nat, m') /\
    sessions m' = ∅ /\ db m' !! "abc123" = None.
Proof.
  destruct (cleanup_all_sessions_spec late_clock (fun d => map_to_list d)
              idle_manager map_to_list_enumerates)
    as (m' & E & Hs & Hd & _).
  exists m'. split; [exact E |]. split; [exact Hs |].
  apply Hd. eexists. reflexivity.
Defined.

End SessionSweepFacts.

(** ** The messages of a request *)

Module MessagesFacts.
Import PyStr Json Messages.

Lemma check_order_ok (prev : ChatMessage) (rest : list ChatMessage) :
  check_order prev rest = None <->
  Forall (fun m => is_role SYSTEM m = false) rest /\
  ~ consecutive_assistants (prev :: rest).
Proof.
  revert prev. induction rest as [|m rest IH]; intros prev.
  - cbn. split; [intros _ | reflexivity]. split; [constructor |].
    intros (before & a & b & after & E & _).
    destruct before as [|? [|? ?]]; discriminate.
  - cbn [check_order]. destruct (is_role SYSTEM m) eqn:Hsys.
    { split; [discriminate |]. intros [H _]. inversion H; congruence. }
    destruct (is_role ASSISTANT m && is_role ASSISTANT prev) eqn:Hcons.
    { split; [discriminate |]. intros [_ H]. exfalso. apply H.
      apply andb_true_iff in Hcons as [Hm Hp].
      now exists nil, prev, m, rest. }
    rewrite IH. split.
    + intros [Hall Hno]. split; [now constructor |].
      intros (before & a & b & after & E & Ha & Hb).
      destruct before as [|x before].
      * injection E as <- <- <-. rewrite Ha, Hb in Hcons. discriminate.
      * injection E as <- E. apply Hno. now exists before, a, b, after.
    + intros [Hall Hno]. split; [now inversion Hall |].
      intros (before & a & b & after & E & Ha & Hb). apply Hno.
      exists (prev :: before), a, b, after. now rewrite E.
Qed.

(** X24: [validate_messages] accepts a list of messages exactly when it is
    not empty, no message after the first is a system message, and no two
    assistant messages follow one another. *)
Theorem validate_messages_accepts (v : list ChatMessage) :
  validate_messages v = None <->
  v <> nil /\
  Forall (fun m => is_role SYSTEM m = false) (tail v) /\
  ~ consecutive_assistants v.
Proof.
  destruct v as [|first rest]; cbn [validate_messages tail].
  - split; [discriminate | now intros [H _]].
  - rewrite check_order_ok. split; [now intros [? ?] | now intros (_ & ? & ?)].
Qed.

Lemma find_rev_none {A} (p : A -> bool) (l : list A) :
  List.find p (rev l) = None <-> Forall (fun x => p x = false) l.
Proof.
  rewrite Forall_forall. split.
  - intros H x Hin. apply list_elem_of_In, in_rev in Hin.
    now apply (find_none _ _ H).
  - intros H. destruct (List.find p (rev l)) as [x|] eqn:E; [| reflexivity].
    apply find_some in E as [Hin Hp]. apply in_rev, list_elem_of_In in Hin.
    rewrite (H x Hin) in Hp. discriminate.
Qed.

Lemma find_skip {A} (p : A -> bool) (l1 l2 : list A) :
  Forall (fun y => p y = false) l1 ->
  List.find p (l1 ++ l2) = List.find p l2.
Proof.
  induction 1 as [|y l1 Hy _ IH]; [reflexivity |]. cbn. now rewrite Hy.
Qed.

Lemma find_rev_app {A} (p : A -> bool) (before after : list A) (x : A) :
  p x = true -> Forall (fun y => p y = false) after ->
  List.find p (rev (before ++ x :: after)) = Some x.
Proof.
  intros Hx Hafter. rewrite rev_app_distr. cbn [rev].
  rewrite <- List.app_assoc, find_skip by now apply Forall_rev.
  cbn. now rewrite Hx.
Qed.

(** X25: [get_last_user_message] returns the user message after which no
    user message comes, and nothing when the list has no user message. *)
Theorem last_user_message_spec (messages : list ChatMessage) :
  (get_last_user_message messages = None <->
   Forall (fun m => is_role USER m = false) messages) /\
  (forall before m after,
     messages = (before ++ m :: after)%list ->
     is_role USER m = true ->
     Forall (fun m' => is_role USER m' = false) after ->
     get_last_user_message messages = Some m).
Proof.
  split; [apply find_rev_none |].
  intros before m after -> Hm Hafter. now apply find_rev_app.
Qed.

Lemma turn_labelled (history : list ChatMessage) :
  Forall (fun m => is_role SYSTEM m = false) history ->
  map turn history = map labelled history.
Proof.
  induction 1 as [|m history Hm _ IH]; [reflexivity |].
  cbn [map]. rewrite IH. f_equal. unfold turn, labelled, is_role in *.
  now destruct (role m).
Qed.

(** X26: for a list of messages that [validate_messages] accepts, the
    prompt holds every message once, in order, each under the label of its
    own role ([System], [Human] or [Assistant]), the parts separated by an
    empty line, followed by an open [Human: ] turn when the conversation
    does not end with a user message. *)
Theorem prompt_of_validated (messages : list ChatMessage) :
  validate_messages messages = None ->
  to_claude_prompt messages
  = join (nl ++ nl)
      (map labelled messages ++ cue (get_conversation_history messages)).
Proof.
  intros Hok. destruct messages as [|first rest]; [discriminate |].
  cbn [validate_messages] in Hok. apply check_order_ok in Hok as [Hsys _].
  unfold to_claude_prompt, cue.
  cbn [get_system_message get_conversation_history].
  destruct (is_role SYSTEM first) eqn:Hfirst.
  - rewrite (turn_labelled rest Hsys). cbn [map app].
    replace (labelled first) with ("System: " ++ get_text_content first)
      by (unfold labelled, is_role in *; now destruct (role first)).
    destruct (List.last (map Some rest) None) as [last_message|];
      [| now rewrite List.app_nil_r].
    destruct (is_role USER last_message); cbn [negb];
      [now rewrite List.app_nil_r | reflexivity].
  - rewrite (turn_labelled (first :: rest))
      by (constructor; assumption).
    generalize (List.last (map Some (first :: rest)) None).
    intros [last_message|]; cbn [map app];
      [| now rewrite List.app_nil_r].
    destruct (is_role USER last_message); cbn [negb];
      [now rewrite List.app_nil_r | reflexivity].
Qed.

Lemma validate_messages_accepts_witness :
  example_conversation <> nil /\
  Forall (fun m => is_role SYSTEM m = false) (tail example_conversation) /\
  ~ consecutive_assistants example_conversation.
Proof.
  exact (proj1 (validate_messages_accepts example_conversation) eq_refl).
Defined.

Lemma last_user_message_spec_witness :
  get_last_user_message example_conversation = Some (message USER "Hello").
Proof.
  apply (proj2 (last_user_message_spec example_conversation)
           [message SYSTEM "Be brief"] (message USER "Hello")
           [message ASSISTANT "Hi"] eq_refl eq_refl).
  repeat constructor.
Defined.

Lemma prompt_of_validated_witness :
  to_claude_prompt example_conversation
  = "System: Be brief" ++ nl ++ nl ++ "Human: Hello" ++ nl ++ nl
    ++ "Assistant: Hi" ++ nl ++ nl ++ "Human: ".
Proof. exact (prompt_of_validated example_conversation eq_refl). Defined.

End MessagesFacts.

(** ** The messages of a session *)

Module SessionMessagesFacts.
Import PyStr Json Sessions Messages SessionMessages.
Import SessionsFacts SessionLifeFacts.

Open Scope Z_scope.

Section Manager.

Variable clock : nat -> Z.

(** X27: recording a message on a cached session that is not expired counts
    two messages, not one: [get_or_create_session] counts the first and
    [add_message_to_session] the second.  A backend conversation id given
    with the message is set on the session in memory and is not written to
    the row of the store, whose [last_activity] alone is brought up to date;
    one row is added to the messages of the session when the content is a
    string. *)
Theorem add_message_counts_twice (id : string) (message : ChatMessage)
    (conversation : option string) (hex : string) (m : manager)
    (rows : list message_row) (s : Session) :
  truthy id = true -> sessions m !! id = Some s ->
  is_expired s (clock (ticks m)) = false ->
  exists s' m' rows',
    add_message_to_session clock id message conversation hex (m, rows)
    = (Ok s', (m', rows')) /\
    message_count s' = message_count s + 2 /\
    sessions m' !! id = Some s' /\
    total_sessions_created m' = total_sessions_created m /\
    (forall c, conversation = Some c -> truthy c = true ->
               claude_session_id s' = Some c) /\
    (forall r, db m !! id = Some r ->
       exists r',
         db m' !! id = Some r' /\
         r_claude_session_id r' = r_claude_session_id r /\
         r_last_activity r' = IsoText (last_activity s')) /\
    (forall text, content message = Str text ->
       rows' = (rows ++ [{| row_session_id := id;
                            row_role := role_value (role message);
                            row_content := text;
                            row_claude_session_id := conversation |}])%list) /\
    (forall parts, content message = Parts parts -> rows' = rows).
Proof.
  intros Ht Hs Hlive. unfold add_message_to_session.
  rewrite (get_or_create_cached clock id no_kwargs hex m s Ht Hs Hlive), Ht.
  eexists _, _, _. split; [reflexivity |].
  cbn [sessions db total_sessions_created ticks].
  split.
  { destruct conversation as [c|]; [destruct (truthy c) |];
      cbn [update_activity with_claude_session_id message_count]; lia. }
  split; [apply lookup_insert_eq |]. split; [reflexivity |]. split.
  { intros c -> Hc. now rewrite Hc. }
  split.
  { intros r Hr. unfold db_update_session. rewrite Hr.
    eexists. split; [apply lookup_insert_eq |]. split; reflexivity. }
  unfold db_add_message. split.
  - intros text E. now rewrite E.
  - intros parts E. now rewrite E.
Qed.

End Manager.

Lemma add_message_counts_twice_witness :
  exists s' st,
    add_message_to_session seconds_clock "abc123"
      (message USER "Hello") (Some "conv-1") "000000000000"
      (idle_manager, []) = (Ok s', st) /\
    message_count s' = 3 /\ claude_session_id s' = Some "conv-1"%string.
Proof.
  destruct (add_message_counts_twice seconds_clock "abc123"
              (message USER "Hello") (Some "conv-1"%string) "000000000000"
              idle_manager [] idle_session eq_refl eq_refl eq_refl)
    as (s' & m' & rows' & E & Hcount & _ & _ & Hconv & _).
  exists s'. eexists. split; [exact E |]. split; [exact Hcount |].
  now apply Hconv.
Defined.

End SessionMessagesFacts.
